(** * Auto Card Link: the block codec, the metadata extractor, the URL
      classifier and the offset-to-position mapping, embedded from the
      TypeScript sources; with them the link and image patterns, the word at
      the cursor, the selection and paste commands, and the placeholder from
      its insertion to its replacement.

    JavaScript strings are modelled as [string]: a sequence of code units,
    here restricted to the 8-bit range ([ascii], read as Latin-1).  The
    collaborators that live outside the repository (the YAML mapping parser,
    the DOM and its parser, the WHATWG URL parser, the image reachability
    probe, the HTTP request, the vault and the random draws) are section
    variables or arguments: every statement holds for any behaviour they
    have. *)

From Stdlib Require Import String Ascii List ZArith Lia Bool Arith.
Import ListNotations.

Local Open Scope string_scope.
Local Open Scope Z_scope.

(* ================================================================== *)
(** * Part I: the model *)
(* ================================================================== *)

(** ** The fragment of the JavaScript string library used by the sources *)

Module Js.

Definition LF : ascii := "010"%char.
Definition CR : ascii := "013"%char.
Definition TAB : ascii := "009"%char.
Definition SPACE : ascii := " "%char.
Definition DQUOTE : ascii := "034"%char.
Definition BACKSLASH : ascii := "\"%char.

(** The one-character string ["\n"]. *)
Definition nl : string := String LF "".

(** [s.length], as a JavaScript number. *)
Definition len (s : string) : Z := Z.of_nat (String.length s).

(** The characters of [s] from position [n] on. *)
Fixpoint drop (n : nat) (s : string) : string :=
  match n, s with
  | O, _ => s
  | S _, EmptyString => EmptyString
  | S n', String _ s' => drop n' s'
  end.

(** [s.startsWith(p)]. *)
Definition startsWith (s p : string) : bool := String.prefix p s.

(** [s.repeat(n)]. *)
Fixpoint repeat (s : string) (n : nat) : string :=
  match n with
  | O => ""
  | S n' => s ++ repeat s n'
  end.

(** [xs.join(sep)]. *)
Definition join (xs : list string) (sep : string) : string :=
  String.concat sep xs.

(** [xs.push(x)], as a new array. *)
Definition push (xs : list string) (x : string) : list string :=
  (xs ++ [x])%list.

(** [s.substr(start, length)] (ECMAScript B.2.2.1) on integer arguments. *)
Definition substr (s : string) (start length : Z) : string :=
  let size := len s in
  let intStart :=
    if start <? 0 then Z.max (size + start) 0 else Z.min start size in
  let intLength := Z.min (Z.max length 0) size in
  let intEnd := Z.min (intStart + intLength) size in
  if intEnd <=? intStart then ""
  else String.substring (Z.to_nat intStart) (Z.to_nat (intEnd - intStart)) s.

(** StringIndexOf: the least position [k >= i] at which [search] occurs in
    the text whose suffix from [i] is [s]; [-1] when there is none. *)
Fixpoint scanFor (search s : string) (i : nat) : Z :=
  if String.prefix search s then Z.of_nat i
  else match s with
       | EmptyString => -1
       | String _ s' => scanFor search s' (S i)
       end.

(** [s.indexOf(search, position)]. *)
Definition indexOf (s search : string) (position : Z) : Z :=
  let start := Z.to_nat (Z.min (Z.max position 0) (len s)) in
  scanFor search (drop start s) start.

(** WhiteSpace and LineTerminator code units below 256: TAB, LF, VT, FF,
    CR, SP and NBSP.  This is the class [\s] and what [trim] strips. *)
Definition isWhiteSpace (c : ascii) : bool :=
  let n := nat_of_ascii c in
  ((9 <=? n) && (n <=? 13) || (n =? 32) || (n =? 160))%nat.

Fixpoint trimStart (s : string) : string :=
  match s with
  | EmptyString => EmptyString
  | String c s' => if isWhiteSpace c then trimStart s' else s
  end.

Fixpoint trimEnd (s : string) : string :=
  match s with
  | EmptyString => EmptyString
  | String c s' =>
      match trimEnd s' with
      | EmptyString => if isWhiteSpace c then EmptyString else String c ""
      | t => String c t
      end
  end.

(** [s.trim()]. *)
Definition trim (s : string) : string := trimEnd (trimStart s).

(** [s.replace(/c/g, by)] for a pattern that is one literal character. *)
Fixpoint replaceChar (c : ascii) (by_ : string) (s : string) : string :=
  match s with
  | EmptyString => EmptyString
  | String d s' =>
      if Ascii.eqb d c then by_ ++ replaceChar c by_ s'
      else String d (replaceChar c by_ s')
  end.

(** [s.replace(/\r\n|\n|\r/g, "")]: the alternatives are tried in order at
    each position and the match is dropped. *)
Fixpoint removeNewlines (s : string) : string :=
  match s with
  | EmptyString => EmptyString
  | String c s' =>
      if Ascii.eqb c CR then
        match s' with
        | String d s'' =>
            if Ascii.eqb d LF then removeNewlines s'' else removeNewlines s'
        | EmptyString => EmptyString
        end
      else if Ascii.eqb c LF then removeNewlines s'
      else String c (removeNewlines s')
  end.

(** JavaScript truthiness of a value of type [string | undefined]. *)
Definition truthy (v : option string) : bool :=
  match v with
  | Some (String _ _) => true
  | _ => false
  end.

(** The value of an expression of type [string | undefined] once a guard
    has narrowed it to [string]. *)
Definition narrowed (v : option string) : string :=
  match v with
  | Some s => s
  | None => ""
  end.

(** [s.charAt(i)] on an integer argument. *)
Definition charAt (s : string) (i : Z) : string :=
  if i <? 0 then ""
  else match String.get (Z.to_nat i) s with
       | Some c => String c ""
       | None => ""
       end.

(** [s.slice(start, end)] on integer arguments. *)
Definition slice (s : string) (start end_ : Z) : string :=
  let size := len s in
  let from := if start <? 0 then Z.max (size + start) 0 else Z.min start size in
  let to := if end_ <? 0 then Z.max (size + end_) 0 else Z.min end_ size in
  let span := Z.max (to - from) 0 in
  String.substring (Z.to_nat from) (Z.to_nat span) s.

End Js.

(** ** interfaces.ts *)

Record LinkMetadata : Type := mkLinkMetadata {
  url : string;
  title : string;
  description : option string;
  host : option string;
  favicon : option string;
  image : option string;
  indent : Z
}.

(** ** errors.ts, and the [TypeError] that [new URL] raises *)

Inductive JsError : Type :=
| YamlParseError (message : string)
| NoRequiredParamsError (message : string)
| TypeError.

Inductive Completion (A : Type) : Type :=
| Return (a : A)
| Throw (e : JsError).
Arguments Return {A} a.
Arguments Throw {A} e.

Definition bind {A B : Type} (c : Completion A) (k : A -> Completion B)
  : Completion B :=
  match c with
  | Return a => k a
  | Throw e => Throw e
  end.

Notation "x <- c ;; k" := (bind c (fun x => k))
  (at level 61, c at next level, right associativity).

(** ** code_block_generator.ts *)

Module CodeBlockGenerator.

Definition fence : string := "```".

(** The optional push [if (v) codeBlockTexts.push(line v)]. *)
Definition pushIf (xs : list string) (v : option string)
           (line : string -> string) : list string :=
  match v with
  | Some s => if Js.truthy v then Js.push xs (line s) else xs
  | None => xs
  end.

Definition genCodeBlock (linkMetadata : LinkMetadata) : string :=
  let codeBlockTexts := [Js.nl ++ fence ++ "cardlink"] in
  let codeBlockTexts :=
    Js.push codeBlockTexts ("url: " ++ url linkMetadata) in
  let codeBlockTexts :=
    Js.push codeBlockTexts
      ("title: " ++ String Js.DQUOTE (title linkMetadata ++ String Js.DQUOTE "")) in
  let codeBlockTexts :=
    pushIf codeBlockTexts (description linkMetadata)
      (fun d => "description: " ++ String Js.DQUOTE (d ++ String Js.DQUOTE "")) in
  let codeBlockTexts :=
    pushIf codeBlockTexts (host linkMetadata) (fun h => "host: " ++ h) in
  let codeBlockTexts :=
    pushIf codeBlockTexts (favicon linkMetadata) (fun f => "favicon: " ++ f) in
  let codeBlockTexts :=
    pushIf codeBlockTexts (image linkMetadata) (fun i => "image: " ++ i) in
  let codeBlockTexts := Js.push codeBlockTexts (fence ++ Js.nl) in
  Js.join codeBlockTexts Js.nl.

End CodeBlockGenerator.

(** ** editor_enhancements.ts *)

Record EditorPosition : Type := mkEditorPosition { line : Z; ch : Z }.

Module EditorExtensions.

(** The loop
    [for (; (r = substr.indexOf("\n", r + 1)) !== -1; l++, offset = r);]
    on the state [(l, offset, r)]; it yields the final [(l, offset)].
    Every turn moves [r] forward, so [String.length substr + 1] turns of
    fuel are enough. *)
Fixpoint countLines (fuel : nat) (substr : string) (l offset r : Z)
  : option (Z * Z) :=
  match fuel with
  | O => None
  | S fuel' =>
      let r' := Js.indexOf substr Js.nl (r + 1) in
      if r' =? -1 then Some (l, offset)
      else countLines fuel' substr (l + 1) r' r'
  end.

Definition getEditorPositionFromIndex (content : string) (index : Z)
  : option EditorPosition :=
  let substr := Js.substr content 0 index in
  match countLines (S (String.length substr)) substr 0 (-1) (-1) with
  | None => None
  | Some (l, offset) =>
      let offset := offset + 1 in
      let ch := Js.len (Js.substr content offset (index - offset)) in
      Some {| line := l; ch := ch |}
  end.

End EditorExtensions.

(** ** code_block_processor.ts *)

(** A JavaScript number: [NaN], an infinity, or a finite double, which is
    [mantissa * 2 ^ exponent]; both zeros have mantissa 0. *)
Inductive JsNumber : Type :=
| NaN
| Infinity (negative : bool)
| Finite (mantissa exponent : Z).

#[local] Set Warnings "-register-all".

(** A JavaScript value as a YAML parser builds it.  [parseYaml] is typed
    [any], and the cast to [Partial<LinkMetadata>] that the source applies
    checks nothing when the program runs: the parsed value may be a scalar
    or a sequence, and the value of a key may be of any kind.  An object is
    given by its own properties; of two entries with one key the first
    counts. *)
Inductive JsValue : Type :=
| VUndefined
| VNull
| VBoolean (b : bool)
| VNumber (n : JsNumber)
| VString (s : string)
| VArray (items : list JsValue)
| VObject (properties : list (string * JsValue)).

Module Value.

(** ToBoolean: what [!v] and [if (v)] go by. *)
Definition toBoolean (v : JsValue) : bool :=
  match v with
  | VUndefined => false
  | VNull => false
  | VBoolean b => b
  | VNumber NaN => false
  | VNumber (Infinity _) => true
  | VNumber (Finite mantissa _) => negb (mantissa =? 0)
  | VString EmptyString => false
  | VString (String _ _) => true
  | VArray _ => true
  | VObject _ => true
  end.

Fixpoint lookup (key : string) (properties : list (string * JsValue))
  : JsValue :=
  match properties with
  | [] => VUndefined
  | (k, v) :: properties' =>
      if String.eqb k key then v else lookup key properties'
  end.

(** [v.key] on a value that is neither [null] nor [undefined], for a key
    that no prototype defines, as are the six keys that the processor
    reads: the own property of an object, and [undefined] on a boolean, a
    number, a string or an array. *)
Definition get (v : JsValue) (key : string) : JsValue :=
  match v with
  | VObject properties => lookup key properties
  | _ => VUndefined
  end.

End Value.

(** The object that [parseLinkMetadataFromYaml] returns.  The source types
    it [LinkMetadata]; its fields hold the values of the parsed mapping as
    they are, strings or not. *)
Module Parsed.
Record t : Type := mk {
  url : JsValue;
  title : JsValue;
  description : JsValue;
  host : JsValue;
  favicon : JsValue;
  image : JsValue;
  indent : Z
}.
End Parsed.

(** What a call of the host's [parseYaml] does: it throws, or it returns a
    value. *)
Inductive YamlOutcome : Type :=
| YamlThrows
| YamlReturns (yaml : JsValue).

Module CodeBlockProcessor.

(** [source.split(/\r?\n|\r|\n/g)]. *)
Fixpoint splitLines (s : string) : list string :=
  match s with
  | EmptyString => [""]
  | String c s' =>
      if Ascii.eqb c Js.CR then
        match s' with
        | String d s'' =>
            if Ascii.eqb d Js.LF then "" :: splitLines s''
            else "" :: splitLines s'
        | EmptyString => "" :: splitLines s'
        end
      else if Ascii.eqb c Js.LF then "" :: splitLines s'
      else match splitLines s' with
           | l :: ls => String c l :: ls
           | [] => [String c ""]
           end
  end.

(** The length of the match of [/^\t+/] on a line, [0] when there is none. *)
Fixpoint leadingTabs (s : string) : nat :=
  match s with
  | String c s' => if Ascii.eqb c Js.TAB then S (leadingTabs s') else O
  | EmptyString => O
  end.

(** [line.replace(/^\t+/g, (tabs) => { ... })]: the callback runs only when
    the line starts with a tab; it may assign the captured [indent]. *)
Definition replaceTabs (indent : Z) (line : string) : Z * string :=
  match leadingTabs line with
  | O => (indent, line)
  | S _ as n =>
      let indent := if indent <? 0 then Z.of_nat n else indent in
      (indent, Js.repeat " " n ++ Js.drop n line)
  end.

(** [lines.map(...)], threading the captured variable [indent]. *)
Fixpoint mapLines (indent : Z) (lines : list string) : Z * list string :=
  match lines with
  | [] => (indent, [])
  | l :: ls =>
      let '(indent, l') := replaceTabs indent l in
      let '(indent, ls') := mapLines indent ls in
      (indent, l' :: ls')
  end.

(** The first statement of [parseLinkMetadataFromYaml]: the final value of
    [indent] and the re-joined source. *)
Definition preprocess (source : string) : Z * string :=
  let '(indent, lines) := mapLines (-1) (splitLines source) in
  (indent, Js.join lines Js.nl).

Section WithHost.

Variable parseYaml : string -> YamlOutcome.

(** In [!yaml || !yaml.url || !yaml.title] the properties are read only
    of a value that is not falsy, hence neither [null] nor [undefined]. *)
Definition parseLinkMetadataFromYaml (source : string)
  : Completion Parsed.t :=
  let '(indent, source) := preprocess source in
  match parseYaml source with
  | YamlThrows =>
      Throw (YamlParseError
               "failed to parse yaml. Check debug console for more detail.")
  | YamlReturns yaml =>
      if negb (Value.toBoolean yaml) then
        Throw (NoRequiredParamsError
                 "required params[url, title] are not found.")
      else if negb (Value.toBoolean (Value.get yaml "url"))
              || negb (Value.toBoolean (Value.get yaml "title"))
      then Throw (NoRequiredParamsError
                    "required params[url, title] are not found.")
      else Return {| Parsed.url := Value.get yaml "url";
                     Parsed.title := Value.get yaml "title";
                     Parsed.description := Value.get yaml "description";
                     Parsed.host := Value.get yaml "host";
                     Parsed.favicon := Value.get yaml "favicon";
                     Parsed.image := Value.get yaml "image";
                     Parsed.indent := indent |}
  end.

End WithHost.

End CodeBlockProcessor.

(** ** link_metadata_parser.ts *)

Module LinkMetadataParser.

Section WithHost.

(** The DOM: [Document], [Element], [querySelector], [getAttr] and
    [textContent]; [null] results are [None]. *)
Variables Document Element : Type.
Variable querySelector : Document -> string -> option Element.
Variable getAttr : Element -> string -> option string.
Variable textContent : Element -> option string.
(** [new URL(u).hostname]; [None] when the constructor throws. *)
Variable hostnameOf : string -> option string.
(** The outcome of loading a URL as an image ([onload] or [onerror]). *)
Variable checkUrlAccessibility : string -> bool.

Record t : Type := mk { this_url : string; htmlDoc : Document }.

(** [new URL(this.url)], destructured to its [hostname]. *)
Definition newURL (u : string) : Completion string :=
  match hostnameOf u with
  | Some h => Return h
  | None => Throw TypeError
  end.

(** [this.htmlDoc.querySelector(sel)?.getAttr(name)]. *)
Definition queryAttr (this : t) (sel name : string) : option string :=
  match querySelector (htmlDoc this) sel with
  | Some e => getAttr e name
  | None => None
  end.

Definition getTitle (this : t) : option string :=
  let ogTitle := queryAttr this "meta[property='og:title']" "content" in
  if Js.truthy ogTitle then ogTitle
  else
    let title :=
      match querySelector (htmlDoc this) "title" with
      | Some e => textContent e
      | None => None
      end in
    if Js.truthy title then title else None.

Definition getDescription (this : t) : option string :=
  let ogDescription :=
    queryAttr this "meta[property='og:description']" "content" in
  if Js.truthy ogDescription then ogDescription
  else
    let metaDescription :=
      queryAttr this "meta[name='description']" "content" in
    if Js.truthy metaDescription then metaDescription else None.

Definition fixImageUrl (this : t) (url : option string)
  : Completion string :=
  match url with
  | None => Return ""
  | Some url =>
      hostname <- newURL (this_url this) ;;
      let image := url in
      if Js.startsWith url "//" then
        let testUrlHttps := "https:" ++ url in
        let testUrlHttp := "http:" ++ url in
        if checkUrlAccessibility testUrlHttps then Return testUrlHttps
        else if checkUrlAccessibility testUrlHttp then Return testUrlHttp
        else Return image
      else if Js.startsWith url "/" && Js.truthy (Some hostname) then
        let testUrlHttps := "https://" ++ hostname ++ url in
        let testUrlHttp := "http://" ++ hostname ++ url in
        let resUrlHttps := checkUrlAccessibility testUrlHttps in
        let resUrlHttp := checkUrlAccessibility testUrlHttp in
        if resUrlHttps then Return testUrlHttps
        else if resUrlHttp then Return testUrlHttp
        else Return image
      else Return image
  end.

Definition getFavicon (this : t) : Completion (option string) :=
  let favicon := queryAttr this "link[rel='icon']" "href" in
  if Js.truthy favicon then
    r <- fixImageUrl this favicon ;; Return (Some r)
  else Return None.

Definition getImage (this : t) : Completion (option string) :=
  let ogImage := queryAttr this "meta[property='og:image']" "content" in
  if Js.truthy ogImage then
    r <- fixImageUrl this ogImage ;; Return (Some r)
  else Return None.

(** [?.replace(/\r\n|\n|\r/g, "").replace(/\\/g, "\\\\")
      .replace(/"/g, '\\"').trim()]. *)
Definition normalize (v : option string) : option string :=
  option_map
    (fun s =>
       Js.trim
         (Js.replaceChar Js.DQUOTE (String Js.BACKSLASH (String Js.DQUOTE ""))
            (Js.replaceChar Js.BACKSLASH "\\" (Js.removeNewlines s))))
    v.

(** [parse()]: [Return None] is the [undefined] of a page without title. *)
Definition parse (this : t) : Completion (option LinkMetadata) :=
  let title := normalize (getTitle this) in
  if negb (Js.truthy title) then Return None
  else
    let description := normalize (getDescription this) in
    hostname <- newURL (this_url this) ;;
    favicon <- getFavicon this ;;
    image <- getImage this ;;
    Return (Some {| url := this_url this;
                    title := Js.narrowed title;
                    description := description;
                    host := Some hostname;
                    favicon := favicon;
                    image := image;
                    indent := 0 |}).

End WithHost.

Arguments mk {Document} this_url htmlDoc.
Arguments this_url {Document} t.
Arguments htmlDoc {Document} t.
Arguments fixImageUrl {Document} hostnameOf checkUrlAccessibility this url.
Arguments parse {Document Element} querySelector getAttr textContent
  hostnameOf checkUrlAccessibility this.

End LinkMetadataParser.

(** ** regex.ts and checkif.ts *)

(** Regular expression literals, and the backtracking matcher of the
    ECMAScript specification in continuation-passing style: a matcher takes
    the state (the end index reached and the input that remains) and the
    continuation that decides the rest of the pattern. *)
Module Regex.

Inductive classItem : Type :=
| Single (c : ascii)
| Range (lo hi : ascii)
| WhiteSpace.                      (* \s *)

Inductive regex : Type :=
| Empty
| Chr (c : ascii)
| Class (negated : bool) (items : list classItem)
| Seq (r1 r2 : regex)
| Alt (r1 r2 : regex)
| Opt (r : regex)                  (* r? *)
| AtLeast (min : nat) (r : regex)  (* r{min,}; r+ is r{1,} *)
| NotAhead (r : regex)             (* (?!r) *)
| InputStart                       (* ^ *)
| InputEnd.                        (* $ *)

Record RegExp : Type := mk { pattern : regex; ignoreCase : bool }.

Definition State : Type := (nat * string)%type.

Definition isLower (c : ascii) : bool :=
  let n := nat_of_ascii c in ((97 <=? n) && (n <=? 122))%nat.

(** Canonicalize: with the [i] flag a character is compared through its
    upper case.  A code unit above 127 never canonicalizes to one below
    128, and the literals and classes of regex.ts are ASCII, so only the
    ASCII letters are folded here. *)
Definition canonicalize (ic : bool) (c : ascii) : ascii :=
  if ic && isLower c then ascii_of_nat (nat_of_ascii c - 32) else c.

Definition allCodeUnits : list ascii :=
  Eval cbv in List.map ascii_of_nat (List.seq 0 256).

Definition inItem (it : classItem) (a : ascii) : bool :=
  match it with
  | Single c => Ascii.eqb a c
  | Range lo hi =>
      ((nat_of_ascii lo <=? nat_of_ascii a)
       && (nat_of_ascii a <=? nat_of_ascii hi))%nat
  | WhiteSpace => Js.isWhiteSpace a
  end.

(** CharacterSetMatcher: some member [a] of the set canonicalizes to the
    canonical form of the input character. *)
Definition inClass (ic : bool) (items : list classItem) (c : ascii) : bool :=
  existsb
    (fun a => existsb (fun it => inItem it a) items
              && Ascii.eqb (canonicalize ic a) (canonicalize ic c))
    allCodeUnits.

(** RepeatMatcher after the mandatory iterations: one more iteration that
    consumes input, or the continuation.  [fuel] bounds the iterations. *)
Fixpoint star (body : State -> (State -> bool) -> bool) (fuel : nat)
         (x : State) (k : State -> bool) : bool :=
  match fuel with
  | O => k x
  | S fuel' =>
      body x (fun y =>
                (String.length (snd y) <? String.length (snd x))%nat
                && star body fuel' y k)
      || k x
  end.

(** RepeatMatcher with [min] mandatory iterations left. *)
Fixpoint atLeast (body : State -> (State -> bool) -> bool) (min : nat)
         (x : State) (k : State -> bool) : bool :=
  match min with
  | O => star body (S (String.length (snd x))) x k
  | S min' => body x (fun y => atLeast body min' y k)
  end.

Fixpoint matcher (ic : bool) (r : regex) (x : State) (k : State -> bool)
  : bool :=
  match r with
  | Empty => k x
  | Chr c =>
      match snd x with
      | String d rest =>
          Ascii.eqb (canonicalize ic c) (canonicalize ic d)
          && k (S (fst x), rest)
      | EmptyString => false
      end
  | Class negated items =>
      match snd x with
      | String d rest =>
          xorb negated (inClass ic items d) && k (S (fst x), rest)
      | EmptyString => false
      end
  | Seq r1 r2 => matcher ic r1 x (fun y => matcher ic r2 y k)
  | Alt r1 r2 => matcher ic r1 x k || matcher ic r2 x k
  | Opt r1 => matcher ic r1 x k || k x
  | AtLeast min r1 => atLeast (matcher ic r1) min x k
  | NotAhead r1 => negb (matcher ic r1 x (fun _ => true)) && k x
  | InputStart => (fst x =? 0)%nat && k x
  | InputEnd =>
      match snd x with
      | EmptyString => k x
      | String _ _ => false
      end
  end.

(** RegExpBuiltinExec without the [g] and [y] flags: the pattern is tried
    at every index from 0 on. *)
Fixpoint execFrom (re : RegExp) (i : nat) (s : string) : bool :=
  matcher (ignoreCase re) (pattern re) (i, s) (fun _ => true)
  || match s with
     | EmptyString => false
     | String _ s' => execFrom re (S i) s'
     end.

(** [re.test(s)] on a fresh [RegExp] object. *)
Definition test (re : RegExp) (s : string) : bool := execFrom re 0 s.

(** The pattern that matches the characters of [w] in sequence. *)
Fixpoint lit (w : string) : regex :=
  match w with
  | EmptyString => Empty
  | String c w' => Seq (Chr c) (lit w')
  end.

Fixpoint seqs (rs : list regex) : regex :=
  match rs with
  | [] => Empty
  | r :: rs' => Seq r (seqs rs')
  end.

Fixpoint alts (r : regex) (rs : list regex) : regex :=
  match rs with
  | [] => r
  | r' :: rs' => Alt r (alts r' rs')
  end.

(** [[a-zA-Z0-9]], [[a-zA-Z0-9-]] and [[^\s]]. *)
Definition alnum : regex :=
  Class false [Range "a" "z"; Range "A" "Z"; Range "0" "9"].
Definition alnumHyphen : regex :=
  Class false [Range "a" "z"; Range "A" "Z"; Range "0" "9"; Single "-"].
Definition nonSpace : regex := Class true [WhiteSpace].

(** [https?:\/\/(?:www\.|(?!www))] *)
Definition schemePrefix : regex :=
  seqs [lit "http"; Opt (Chr "s"); lit "://";
        Alt (lit "www.") (NotAhead (lit "www"))].

(** [[a-zA-Z0-9][a-zA-Z0-9-]+[a-zA-Z0-9]\.[^\s]{2,}] *)
Definition hyphenHost : regex :=
  seqs [alnum; AtLeast 1 alnumHyphen; alnum; Chr "."; AtLeast 2 nonSpace].

(** [[a-zA-Z0-9]+\.[^\s]{2,}] *)
Definition simpleHost : regex :=
  seqs [AtLeast 1 alnum; Chr "."; AtLeast 2 nonSpace].

(** The four alternatives shared by all the patterns of regex.ts. *)
Definition urlAlternatives : regex :=
  alts (Seq schemePrefix hyphenHost)
       [Seq (lit "www.") hyphenHost;
        Seq schemePrefix simpleHost;
        Seq (lit "www.") simpleHost].

Definition urlRegex : RegExp :=
  {| pattern := seqs [InputStart; urlAlternatives; InputEnd];
     ignoreCase := true |}.

(** [[^[\]]] *)
Definition notBracket : regex := Class true [Single "["; Single "]"].

(** [gif|jpe?g|tiff?|png|webp|bmp|tga|psd|ai] *)
Definition imageExtensions : regex :=
  alts (lit "gif")
       [seqs [lit "jp"; Opt (Chr "e"); Chr "g"];
        seqs [lit "tif"; Opt (Chr "f")];
        lit "png"; lit "webp"; lit "bmp"; lit "tga"; lit "psd"; lit "ai"].

Definition imageRegex : RegExp :=
  {| pattern := seqs [Chr "."; imageExtensions; InputEnd];
     ignoreCase := true |}.

End Regex.

(** ** Matching with results: [exec] and [matchAll] *)

Module RegexExec.

Section Run.

Variable R : Type.

(** The matcher above, for continuations that yield a result: the first
    way of matching whose continuation yields one decides. *)
Fixpoint star (body : Regex.State -> (Regex.State -> option R) -> option R)
         (fuel : nat) (x : Regex.State) (k : Regex.State -> option R)
  : option R :=
  match fuel with
  | O => k x
  | S fuel' =>
      match body x (fun y =>
                      if (String.length (snd y) <? String.length (snd x))%nat
                      then star body fuel' y k else None) with
      | Some v => Some v
      | None => k x
      end
  end.

Fixpoint atLeast (body : Regex.State -> (Regex.State -> option R) -> option R)
         (min : nat) (x : Regex.State) (k : Regex.State -> option R)
  : option R :=
  match min with
  | O => star body (S (String.length (snd x))) x k
  | S min' => body x (fun y => atLeast body min' y k)
  end.

Fixpoint run (ic : bool) (r : Regex.regex) (x : Regex.State)
         (k : Regex.State -> option R) : option R :=
  match r with
  | Regex.Empty => k x
  | Regex.Chr c =>
      match snd x with
      | String d rest =>
          if Ascii.eqb (Regex.canonicalize ic c) (Regex.canonicalize ic d)
          then k (S (fst x), rest) else None
      | EmptyString => None
      end
  | Regex.Class negated items =>
      match snd x with
      | String d rest =>
          if xorb negated (Regex.inClass ic items d)
          then k (S (fst x), rest) else None
      | EmptyString => None
      end
  | Regex.Seq r1 r2 => run ic r1 x (fun y => run ic r2 y k)
  | Regex.Alt r1 r2 =>
      match run ic r1 x k with
      | Some v => Some v
      | None => run ic r2 x k
      end
  | Regex.Opt r1 =>
      match run ic r1 x k with
      | Some v => Some v
      | None => k x
      end
  | Regex.AtLeast min r1 => atLeast (run ic r1) min x k
  | Regex.NotAhead r1 =>
      if Regex.matcher ic r1 x (fun _ => true) then None else k x
  | Regex.InputStart => if (fst x =? 0)%nat then k x else None
  | Regex.InputEnd =>
      match snd x with
      | EmptyString => k x
      | String _ _ => None
      end
  end.

End Run.

Arguments star {R} body fuel x k.
Arguments atLeast {R} body min x k.
Arguments run {R} ic r x k.

(** A pattern with its capture groups.  In the patterns of regex.ts the
    groups stand in sequence at the top of the pattern, so a group is a
    part of a sequence, numbered as in the source. *)
Inductive grouped : Type :=
| Plain (r : Regex.regex)
| Group (n : nat) (g : grouped)
| Then (g1 g2 : grouped).

(** The captures: the text of group [n] at index [n - 1], [None] while the
    group has captured nothing. *)
Definition Captures : Type := list (option string).

Fixpoint setCapture (n : nat) (v : string) (caps : Captures) : Captures :=
  match n, caps with
  | _, [] => []
  | O, _ => caps
  | S O, _ :: caps' => Some v :: caps'
  | S n', c :: caps' => c :: setCapture n' v caps'
  end.

Fixpoint runG {R : Type} (ic : bool) (g : grouped) (x : Regex.State)
         (caps : Captures) (k : Regex.State -> Captures -> option R)
  : option R :=
  match g with
  | Plain r => run ic r x (fun y => k y caps)
  | Group n g' =>
      runG ic g' x caps
           (fun y caps' =>
              k y (setCapture
                     n (String.substring 0 (fst y - fst x) (snd x)) caps'))
  | Then g1 g2 => runG ic g1 x caps (fun y caps' => runG ic g2 y caps' k)
  end.

Record RegExp : Type :=
  mk { pattern : grouped; groups : nat; ignoreCase : bool }.

(** The array of a match: [items] holds the matched text and then the
    captures, [None] standing for [undefined]. *)
Record MatchArray : Type :=
  mkMatch { index : nat; items : list (option string) }.

(** [match[n]]. *)
Definition item (m : MatchArray) (n : nat) : option string :=
  nth n (items m) None.

(** RegExpBuiltinExec: the pattern is tried at index [i] of the input, whose
    rest from there is [s], and then at every later index. *)
Fixpoint execFrom (re : RegExp) (i : nat) (s : string) : option MatchArray :=
  match runG (ignoreCase re) (pattern re) (i, s)
             (List.repeat None (groups re))
             (fun y caps =>
                Some {| index := i;
                        items := Some (String.substring 0 (fst y - i) s)
                                      :: caps |}) with
  | Some m => Some m
  | None =>
      match s with
      | EmptyString => None
      | String _ s' => execFrom re (S i) s'
      end
  end.

(** [re.exec(s)] on a fresh [RegExp] object without the [g] flag. *)
Definition exec (re : RegExp) (s : string) : option MatchArray :=
  execFrom re 0 s.

(** [re.test(s)] on such an object. *)
Definition test (re : RegExp) (s : string) : bool :=
  match exec re s with
  | Some _ => true
  | None => false
  end.

(** The iterator of [s.matchAll(re)] for a pattern with the [g] flag, run to
    its end: [i] is [lastIndex] and [s] the rest of the input from there.
    After an empty match [lastIndex] moves on by one; the search ends when
    [lastIndex] has passed the end of the input.  [lastIndex] grows in
    every turn, so [String.length s + 1] turns of fuel are enough. *)
Fixpoint matchAllFrom (fuel : nat) (re : RegExp) (i : nat) (s : string)
  : list MatchArray :=
  match fuel with
  | O => []
  | S fuel' =>
      match execFrom re i s with
      | None => []
      | Some m =>
          let e := (index m + String.length (Js.narrowed (item m 0)))%nat in
          let lastIndex :=
            if (String.length (Js.narrowed (item m 0)) =? 0)%nat
            then S e else e in
          m :: (if (String.length s <? lastIndex - i)%nat then []
                else matchAllFrom fuel' re lastIndex
                                  (Js.drop (lastIndex - i) s))
      end
  end.

Definition matchAll (re : RegExp) (s : string) : list MatchArray :=
  matchAllFrom (S (String.length s)) re 0 s.

(** [(alternatives)], the group shared by the patterns below. *)
Definition urlGroup (n : nat) : grouped := Group n (Plain Regex.urlAlternatives).

(** A bracketed label free of brackets, captured as group 1, and the
    parenthesized alternatives, captured as group 2. *)
Definition linkBody : grouped :=
  Then (Plain (Regex.Chr "["))
       (Then (Group 1 (Plain (Regex.AtLeast 0 Regex.notBracket)))
             (Then (Plain (Regex.lit "]("))
                   (Then (urlGroup 2) (Plain (Regex.Chr ")"))))).

(** [lineRegex], with the flags [gi]. *)
Definition lineRegex : RegExp :=
  {| pattern := urlGroup 1; groups := 1; ignoreCase := true |}.

(** [linkRegex], with the flag [i]. *)
Definition linkRegex : RegExp :=
  {| pattern := Then (Plain Regex.InputStart)
                     (Then linkBody (Plain Regex.InputEnd));
     groups := 2; ignoreCase := true |}.

(** [linkLineRegex], with the flags [gi]. *)
Definition linkLineRegex : RegExp :=
  {| pattern := linkBody; groups := 2; ignoreCase := true |}.

End RegexExec.

Module CheckIf.

Definition isUrl (text : string) : bool :=
  let regex := Regex.urlRegex in
  Regex.test regex text.

Definition isImage (text : string) : bool :=
  let regex := Regex.imageRegex in
  Regex.test regex text.

Definition isLinkedUrl (text : string) : bool :=
  let regex := RegexExec.linkRegex in
  RegexExec.test regex text.

End CheckIf.

(** ** code_block_generator.ts: the placeholder and its replacement *)

Module UrlConversion.

(** The call made on the editor once the metadata has arrived. *)
Inductive EditorCall : Type :=
| ReplaceRange (replacement : string) (from to : EditorPosition).

Definition characters : string := "abcdefghijklmnopqrstuvwxyz0123456789".

(** The loop of [createBlockHash]; [draw i] is the value of
    [Math.floor(Math.random() * charactersLength)] at turn [i]. *)
Fixpoint createBlockHashLoop (draw : nat -> Z) (turns i : nat)
         (result : string) : string :=
  match turns with
  | O => result
  | S turns' =>
      createBlockHashLoop draw turns' (S i)
                          (result ++ Js.charAt characters (draw i))
  end.

Definition createBlockHash (draw : nat -> Z) : string :=
  createBlockHashLoop draw 4 0 "".

Definition fetchingText (pasteId url : string) : string :=
  "[Fetching Data#" ++ pasteId ++ "](" ++ url ++ ")".

(** [convertUrlToCodeBlock] from the point where the metadata has arrived:
    [selectedText] is the selection the call began with, [linkMetadata] what
    the fetch produced and [text] the value of the editor by then.  The
    result is the call made on the editor, if any. *)
Definition convertUrlToCodeBlock (selectedText pasteId url : string)
           (linkMetadata : option LinkMetadata) (text : string)
  : option (option EditorCall) :=
  let fetchingText := fetchingText pasteId url in
  let start := Js.indexOf text fetchingText 0 in
  if start <? 0 then Some None
  else
    let end_ := start + Js.len fetchingText in
    match EditorExtensions.getEditorPositionFromIndex text start,
          EditorExtensions.getEditorPositionFromIndex text end_ with
    | Some startPos, Some endPos =>
        match linkMetadata with
        | None =>
            let replacement :=
              match selectedText with
              | EmptyString => url
              | String _ _ => selectedText
              end in
            Some (Some (ReplaceRange replacement startPos endPos))
        | Some m =>
            Some (Some (ReplaceRange (CodeBlockGenerator.genCodeBlock m)
                                     startPos endPos))
        end
    | _, _ => None
    end.

End UrlConversion.

(** ** editor_enhancements.ts: the word at the cursor *)

Module EditorSelection.

Record WordBoundaries : Type :=
  mkWordBoundaries { start : EditorPosition; end_ : EditorPosition }.

Definition isCursorWithinBoundaries (cursor : EditorPosition)
           (match_ : RegexExec.MatchArray) : bool :=
  let startIndex := Z.of_nat (RegexExec.index match_) in
  let endIndex :=
    startIndex + Js.len (Js.narrowed (RegexExec.item match_ 0)) in
  (startIndex <=? ch cursor) && (ch cursor <=? endIndex).

(** The loop [for (const match of matches) if (within) return {...}]. *)
Fixpoint firstAround (cursor : EditorPosition)
         (matches : list RegexExec.MatchArray) : option WordBoundaries :=
  match matches with
  | [] => None
  | match_ :: rest =>
      if isCursorWithinBoundaries cursor match_ then
        let startCh := Z.of_nat (RegexExec.index match_) in
        Some {| start := {| line := line cursor; ch := startCh |};
                end_ := {| line := line cursor;
                           ch := startCh
                                 + Js.len (Js.narrowed
                                             (RegexExec.item match_ 0)) |} |}
      else firstAround cursor rest
  end.

(** [getWordBoundaries], given the cursor and the text of its line. *)
Definition getWordBoundaries (cursor : EditorPosition) (lineText : string)
  : WordBoundaries :=
  let linksInLine := RegexExec.matchAll RegexExec.linkLineRegex lineText in
  match firstAround cursor linksInLine with
  | Some boundaries => boundaries
  | None =>
      let urlsInLine := RegexExec.matchAll RegexExec.lineRegex lineText in
      match firstAround cursor urlsInLine with
      | Some boundaries => boundaries
      | None => {| start := cursor; end_ := cursor |}
      end
  end.

End EditorSelection.

(** ** main.ts *)

Module Main.

(** [getUrlFromLink]; [None] is [undefined]. *)
Definition getUrlFromLink (link : string) : option string :=
  let urlRegex := RegexExec.linkRegex in
  match RegexExec.exec urlRegex link with
  | None => Some ""
  | Some regExpExecArray =>
      if (List.length (RegexExec.items regExpExecArray) <? 2)%nat then Some ""
      else RegexExec.item regExpExecArray 2
  end.

(** [s.split(/[\n ]/)]. *)
Fixpoint splitWords (s : string) : list string :=
  match s with
  | EmptyString => [""]
  | String c s' =>
      if Ascii.eqb c Js.LF || Ascii.eqb c Js.SPACE then "" :: splitWords s'
      else match splitWords s' with
           | l :: ls => String c l :: ls
           | [] => [String c ""]
           end
  end.

(** [enhanceSelectedURL], given what [getSelectedText] returned: the
    arguments of its calls of [convertUrlToCodeBlock], in order. *)
Definition enhanceSelectedURL (selection : string) : list (option string) :=
  let selectedText := Js.trim selection in
  List.flat_map
    (fun line =>
       if CheckIf.isUrl line then [Some line]
       else if CheckIf.isLinkedUrl line then [getUrlFromLink line]
       else [])
    (splitWords selectedText).

(** What a paste handler does with the editor. *)
Inductive PasteOutcome : Type :=
| Nothing
| ReplaceSelection (text : string)
| Convert (url : string).

(** [manualPasteAndEnhanceURL], given the text of the clipboard ([None]
    for [null]) and [navigator.onLine]. *)
Definition manualPasteAndEnhanceURL (clipboardText : option string)
           (onLine : bool) : PasteOutcome :=
  match clipboardText with
  | None => Nothing
  | Some EmptyString => Nothing
  | Some clipboardText =>
      if negb onLine then ReplaceSelection clipboardText
      else if negb (CheckIf.isUrl clipboardText)
              || CheckIf.isImage clipboardText
      then ReplaceSelection clipboardText
      else Convert clipboardText
  end.

(** [evt.clipboardData]: the number of its files and its plain text. *)
Record ClipboardData : Type :=
  mkClipboardData { files : nat; plainText : option string }.

(** [onPaste], given the setting [enhanceDefaultPaste] ([None] when there
    are no settings), [navigator.onLine] and the data of the event.
    [Nothing] leaves the paste to the default handler; [Convert] stops the
    event and converts. *)
Definition onPaste (enhanceDefaultPaste : option bool) (onLine : bool)
           (clipboardData : option ClipboardData) : PasteOutcome :=
  match enhanceDefaultPaste with
  | None | Some false => Nothing
  | Some true =>
      if negb onLine then Nothing
      else
        match clipboardData with
        | None => Nothing
        | Some data =>
            if (0 <? files data)%nat then Nothing
            else
              match plainText data with
              | None => Nothing
              | Some EmptyString => Nothing
              | Some clipboardText =>
                  if negb (CheckIf.isUrl clipboardText)
                     || CheckIf.isImage clipboardText
                  then Nothing
                  else Convert clipboardText
              end
        end
  end.

End Main.

(** ** code_block_processor.ts: the sources of the images of a card *)

Module CardRendering.

Section WithVault.

(** [linkpathDest link] is the [path] of
    [metadataCache.getFirstLinkpathDest(getLinkpath(link), "")], absent when
    there is no such file; [getResourcePath] is that of the vault adapter. *)
Variable linkpathDest : string -> option string.
Variable getResourcePath : string -> string.

Definition getLocalImagePath (link : string) : string :=
  let link := Js.slice link 2 (-2) in
  let imageRelativePath := linkpathDest link in
  if negb (Js.truthy imageRelativePath) then link
  else getResourcePath (Js.narrowed imageRelativePath).

(** The [src] that [genLinkEl] gives to the favicon and to the thumbnail,
    from the value of the field. *)
Definition imageSource (value : string) : string :=
  if negb (CheckIf.isUrl value) then getLocalImagePath value else value.

End WithVault.

End CardRendering.

(** ** code_block_generator.ts: from the request to the card *)

Module CardInsertion.

(** What [requestUrl({ url })] does: it throws at once, or it returns a
    promise that is rejected, or one that is fulfilled with a response. *)
Inductive Request : Type :=
| RequestThrows
| RequestRejected
| RequestFulfilled (status : Z) (text : string).

(** How the promise of an [async] method is settled. *)
Inductive Settled (A : Type) : Type :=
| Fulfilled (a : A)
| Rejected.
Arguments Fulfilled {A} a.
Arguments Rejected {A}.

Section WithHost.

Variables Document Element : Type.
Variable querySelector : Document -> string -> option Element.
Variable getAttr : Element -> string -> option string.
Variable textContent : Element -> option string.
Variable hostnameOf : string -> option string.
Variable checkUrlAccessibility : string -> bool.
(** [new DOMParser().parseFromString(htmlText, "text/html")]. *)
Variable parseFromString : string -> Document.
Variable requestUrl : string -> Request.

(** [new LinkMetadataParser(url, htmlText)]. *)
Definition newLinkMetadataParser (url htmlText : string)
  : LinkMetadataParser.t Document :=
  LinkMetadataParser.mk url (parseFromString htmlText).

(** [fetchLinkMetadata]: the [try] around the request catches what
    [requestUrl] throws, not the rejection of the promise it returns, which
    passes through the [await]; what [parse] throws rejects the result. *)
Definition fetchLinkMetadata (url : string)
  : Settled (option LinkMetadata) :=
  match requestUrl url with
  | RequestThrows => Fulfilled None
  | RequestRejected => Rejected
  | RequestFulfilled status text =>
      if negb (status =? 200) then Fulfilled None
      else
        let parser := newLinkMetadataParser url text in
        match LinkMetadataParser.parse querySelector getAttr textContent
                                       hostnameOf checkUrlAccessibility
                                       parser with
        | Return linkMetadata => Fulfilled linkMetadata
        | Throw _ => Rejected
        end
  end.

(** [convertUrlToCodeBlock] as a whole, after the placeholder has replaced
    the selection: [text] is the value of the editor when the metadata
    arrives.  A rejected fetch ends the method at its [await]. *)
Definition convertUrlToCodeBlock (selectedText pasteId url text : string)
  : Settled (option (option UrlConversion.EditorCall)) :=
  match fetchLinkMetadata url with
  | Rejected => Rejected
  | Fulfilled linkMetadata =>
      Fulfilled (UrlConversion.convertUrlToCodeBlock
                   selectedText pasteId url linkMetadata text)
  end.

End WithHost.

Arguments newLinkMetadataParser {Document} parseFromString url htmlText.
Arguments fetchLinkMetadata {Document Element} querySelector getAttr
  textContent hostnameOf checkUrlAccessibility parseFromString requestUrl url.
Arguments convertUrlToCodeBlock {Document Element} querySelector getAttr
  textContent hostnameOf checkUrlAccessibility parseFromString requestUrl
  selectedText pasteId url text.

End CardInsertion.

(* ================================================================== *)
(** * Part II: the vocabulary of the specification *)
(* ================================================================== *)

(** ** The canonical block format (for serialization) *)

Module BlockFormat.

Definition quoted (s : string) : string :=
  String Js.DQUOTE (s ++ String Js.DQUOTE "").

(** The line of an optional field: none when the field is absent or holds
    the empty string. *)
Definition fieldLine (key : string) (render : string -> string)
           (v : option string) : list string :=
  match v with
  | Some (String _ _ as s) => [key ++ ": " ++ render s]
  | _ => []
  end.

(** The lines between the fences, in the fixed order of the keys. *)
Definition fieldLines (m : LinkMetadata) : list string :=
  List.concat
    [ ["url: " ++ url m];
      ["title: " ++ quoted (title m)];
      fieldLine "description" quoted (description m);
      fieldLine "host" (fun s => s) (host m);
      fieldLine "favicon" (fun s => s) (favicon m);
      fieldLine "image" (fun s => s) (image m) ].

(** Every line of [ls] followed by a line feed. *)
Fixpoint unlines (ls : list string) : string :=
  match ls with
  | [] => ""
  | l :: ls' => l ++ Js.nl ++ unlines ls'
  end.

End BlockFormat.

(** ** Asset resolution *)

Module Resolution.

(** The preference order: the https candidate if reachable, else the http
    candidate if reachable, else the reference as given. *)
Definition choose (reachable : string -> bool) (https http given : string)
  : string :=
  if reachable https then https
  else if reachable http then http
  else given.

End Resolution.

(** ** Tab indentation (for the pre-processing of parse) *)

Module Indentation.

Definition tab : string := String Js.TAB "".
Definition space : string := String Js.SPACE "".

(** [line] starts with exactly [n] tabs. *)
Definition LeadingTabs (n : nat) (line : string) : Prop :=
  exists rest,
    line = Js.repeat tab n ++ rest /\ Js.startsWith rest tab = false.

(** [line'] is [line] with its leading tabs, and nothing else, replaced by
    as many spaces. *)
Definition TabsReplaced (line line' : string) : Prop :=
  exists n rest,
    line = Js.repeat tab n ++ rest
    /\ Js.startsWith rest tab = false
    /\ line' = Js.repeat space n ++ rest.

End Indentation.

(** ** Required keys (for the validation of parse) *)

Module Required.

(** The value of a key that is missing ([undefined]) or empty: [null], as
    of a key with nothing after it, or the empty string. *)
Definition MissingOrEmpty (v : JsValue) : Prop :=
  v = VUndefined \/ v = VNull \/ v = VString "".

(** The url or the title of the parsed value is missing or empty; so it is
    when the parsed value is [null] or absent, or no mapping at all. *)
Definition Missing (yaml : JsValue) : Prop :=
  MissingOrEmpty (Value.get yaml "url")
  \/ MissingOrEmpty (Value.get yaml "title").

(** The falsy values: [undefined], [null], [false], the empty string,
    [NaN] and the two zeros. *)
Definition Falsy (v : JsValue) : Prop :=
  v = VUndefined \/ v = VNull \/ v = VBoolean false \/ v = VString ""
  \/ v = VNumber NaN \/ exists exponent, v = VNumber (Finite 0 exponent).

(** The parsed value, its url or its title is falsy. *)
Definition Rejected (yaml : JsValue) : Prop :=
  Falsy yaml
  \/ Falsy (Value.get yaml "url") \/ Falsy (Value.get yaml "title").

Definition yamlMessage : string :=
  "failed to parse yaml. Check debug console for more detail.".
Definition paramsMessage : string :=
  "required params[url, title] are not found.".

End Required.

(** ** Positions in a text *)

Module Position.

(** The first [n] characters of [s]. *)
Fixpoint take (n : nat) (s : string) : string :=
  match n, s with
  | S n', String c s' => String c (take n' s')
  | _, _ => EmptyString
  end.

(** The number of line feeds in [s]. *)
Fixpoint countLF (s : string) : nat :=
  match s with
  | EmptyString => O
  | String c s' => ((if Ascii.eqb c Js.LF then 1 else 0) + countLF s')%nat
  end.

(** The number of line feeds of [content] at the positions strictly
    before [index]. *)
Definition newlinesBefore (content : string) (index : nat) : nat :=
  countLF (take index content).

End Position.

(** ** The URL grammar *)

Module UrlGrammar.

Definition between (lo hi : nat) (c : ascii) : bool :=
  ((lo <=? nat_of_ascii c) && (nat_of_ascii c <=? hi))%nat.

(** An ASCII letter or digit. *)
Definition isAlnum (c : ascii) : bool :=
  between 97 122 c || between 65 90 c || between 48 57 c.

(** A letter, a digit or a hyphen. *)
Definition isLabelChar (c : ascii) : bool :=
  isAlnum c || Ascii.eqb c "-".

Definition isNonSpace (c : ascii) : bool := negb (Js.isWhiteSpace c).

Fixpoint allOf (p : ascii -> bool) (s : string) : bool :=
  match s with
  | EmptyString => true
  | String c s' => p c && allOf p s'
  end.

(** ASCII upper case, for comparisons that ignore case. *)
Definition upper (c : ascii) : ascii :=
  if between 97 122 c then ascii_of_nat (nat_of_ascii c - 32) else c.

Fixpoint upcase (s : string) : string :=
  match s with
  | EmptyString => EmptyString
  | String c s' => String (upper c) (upcase s')
  end.

(** [w] is [word], ignoring case. *)
Definition Spells (word w : string) : Prop := upcase w = upcase word.

(** The scheme [http://] or [https://]. *)
Definition Scheme (p : string) : Prop :=
  Spells "http://" p \/ Spells "https://" p.

(** The scheme followed by [www.]. *)
Definition SchemeWww (p : string) : Prop :=
  exists a b, p = a ++ b /\ Scheme a /\ Spells "www." b.

(** The simple host label: one or more letters or digits. *)
Definition SimpleLabel (l : string) : Prop :=
  (1 <= String.length l)%nat /\ allOf isAlnum l = true.

(** The hyphen-tolerant host label: three or more characters, the first
    and the last a letter or digit, hyphens allowed in between. *)
Definition HyphenLabel (l : string) : Prop :=
  exists a mid b,
    l = String a (mid ++ String b "")
    /\ isAlnum a = true
    /\ (1 <= String.length mid)%nat /\ allOf isLabelChar mid = true
    /\ isAlnum b = true.

Definition Label (l : string) : Prop := HyphenLabel l \/ SimpleLabel l.

(** At least two characters, none of them white space. *)
Definition Tail (t : string) : Prop :=
  (2 <= String.length t)%nat /\ allOf isNonSpace t = true.

(** A host: label, dot, tail. *)
Definition Host (r : string) : Prop :=
  exists l t, r = l ++ "." ++ t /\ Label l /\ Tail t.

Definition StartsWww (r : string) : Prop :=
  exists w rest, r = w ++ rest /\ Spells "www" w.

(** The grammar in the words of the specification: the scheme, optionally
    with [www.], or a bare [www.], then the host. *)
Definition Described (s : string) : Prop :=
  exists p r,
    s = p ++ r /\ (Scheme p \/ SchemeWww p \/ Spells "www." p) /\ Host r.

(** The grammar of regex.ts: as described, but after a bare scheme the
    host must not begin with [www]. *)
Definition Accepted (s : string) : Prop :=
  exists p r,
    s = p ++ r
    /\ (Scheme p /\ ~ StartsWww r \/ SchemeWww p \/ Spells "www." p)
    /\ Host r.

End UrlGrammar.

(** ** The language of a pattern without assertions *)

Module Language.

(** [r] consumes exactly the words of [L]: the matcher succeeds from a
    state iff the input splits into a word of [L] and a rest on which the
    continuation succeeds. *)
Definition Recognizes (r : Regex.regex) (L : string -> Prop) : Prop :=
  forall (i : nat) (s : string) (k : Regex.State -> bool),
    Regex.matcher true r (i, s) k = true
    <-> exists a rest,
          s = a ++ rest /\ L a /\ k ((i + String.length a)%nat, rest) = true.

Definition Eps (a : string) : Prop := a = "".
Definition Cat (L1 L2 : string -> Prop) (a : string) : Prop :=
  exists a1 a2, a = a1 ++ a2 /\ L1 a1 /\ L2 a2.
Definition Or (L1 L2 : string -> Prop) (a : string) : Prop := L1 a \/ L2 a.
Definition One (p : ascii -> bool) (a : string) : Prop :=
  exists d, a = String d "" /\ p d = true.
Definition Many (min : nat) (p : ascii -> bool) (a : string) : Prop :=
  (min <= String.length a)%nat /\ UrlGrammar.allOf p a = true.

(** The words of [[a-zA-Z0-9][a-zA-Z0-9-]+[a-zA-Z0-9]\.[^\s]{2,}]. *)
Definition hyphenHostWords : string -> Prop :=
  Cat (One UrlGrammar.isAlnum)
      (Cat (Many 1 UrlGrammar.isLabelChar)
           (Cat (One UrlGrammar.isAlnum)
                (Cat (UrlGrammar.Spells ".")
                     (Cat (Many 2 UrlGrammar.isNonSpace) Eps)))).

(** The words of [[a-zA-Z0-9]+\.[^\s]{2,}]. *)
Definition simpleHostWords : string -> Prop :=
  Cat (Many 1 UrlGrammar.isAlnum)
      (Cat (UrlGrammar.Spells ".")
           (Cat (Many 2 UrlGrammar.isNonSpace) Eps)).

(** The continuation of the final [$]. *)
Definition atEnd (y : Regex.State) : bool :=
  Regex.matcher true (Regex.seqs [Regex.InputEnd]) y (fun _ => true).

End Language.

(** ** Escaping of quoted scalars *)

Module Escaping.

(** The escaping that the extractor applies to a title or description:
    backslashes first, then double quotes. *)
Definition escape (s : string) : string :=
  Js.replaceChar Js.DQUOTE (String Js.BACKSLASH (String Js.DQUOTE ""))
    (Js.replaceChar Js.BACKSLASH "\\" s).

(** Decoding of the two escapes: a backslash stands for the backslash or the
    double quote that follows it. *)
Fixpoint unescape (s : string) : string :=
  match s with
  | EmptyString => EmptyString
  | String c s' =>
      if Ascii.eqb c Js.BACKSLASH then
        match s' with
        | String d s'' => String d (unescape s'')
        | EmptyString => String c EmptyString
        end
      else String c (unescape s')
  end.

(** No carriage return and no line feed. *)
Definition noBreak (c : ascii) : bool :=
  negb (Ascii.eqb c Js.CR) && negb (Ascii.eqb c Js.LF).

Definition oneLine (s : string) : bool := UrlGrammar.allOf noBreak s.

Definition oneLineOpt (v : option string) : bool :=
  match v with
  | Some s => oneLine s
  | None => true
  end.

(** Every field of the record fits on one line. *)
Definition oneLineRecord (m : LinkMetadata) : bool :=
  oneLine (url m) && oneLine (title m) && oneLineOpt (description m)
  && oneLineOpt (host m) && oneLineOpt (favicon m) && oneLineOpt (image m).

End Escaping.

(** ** Sample collaborators, used to run the model on concrete inputs *)

Module Sample.

(** A DOM given by the answers to its selector queries. *)
Record Element : Type :=
  mkElement { attrs : list (string * string); text : option string }.
Definition Document : Type := list (string * Element).

Fixpoint assoc {A : Type} (key : string) (kvs : list (string * A))
  : option A :=
  match kvs with
  | [] => None
  | (k, v) :: kvs' => if String.eqb k key then Some v else assoc key kvs'
  end.

Definition querySelector (d : Document) (sel : string) : option Element :=
  assoc sel d.
Definition getAttr (e : Element) (name : string) : option string :=
  assoc name (attrs e).
Definition textContent (e : Element) : option string := text e.

(** The page of the scenario: one [og:title] meta element. *)
Definition titleOnlyPage : Document :=
  [("meta[property='og:title']",
    mkElement [("property", "og:title"); ("content", "Example Title")] None)].

(** A URL parser that knows the one page URL of the scenarios. *)
Definition hostnameOf (u : string) : option string :=
  if String.eqb u "https://example.com" then Some "example.com" else None.

Definition unreachable (u : string) : bool := false.
Definition onlyHttp (u : string) : bool := Js.startsWith u "http:".

(** A mapping parser that reads nothing: blank text is the empty document,
    and anything else is rejected. *)
Definition blankOnlyYaml (text : string) : YamlOutcome :=
  match Js.trim text with
  | EmptyString => YamlReturns VNull
  | String _ _ => YamlThrows
  end.

(** The documents of the scenarios, and what a YAML parser makes of them:
    a card, and a card whose title is the number 0. *)
Definition cardSource : string :=
  "url: https://example.com" ++ Js.nl
    ++ "title: Example Title" ++ Js.nl
    ++ "host: example.com".

Definition card : JsValue :=
  VObject [("url", VString "https://example.com");
           ("title", VString "Example Title");
           ("host", VString "example.com")].

Definition zeroTitleSource : string :=
  "url: https://example.com" ++ Js.nl ++ "title: 0".

Definition zeroTitle : JsValue :=
  VObject [("url", VString "https://example.com");
           ("title", VNumber (Finite 0 0))].

(** The card as it stands in a list item, every line after a tab, with
    its title on two lines, the second after two tabs; and the same with
    each tab replaced by a space, where the title is a plain scalar
    continued on a deeper line. *)
Definition indentedSource : string :=
  String Js.TAB "url: https://example.com" ++ Js.nl
    ++ String Js.TAB "title: Example" ++ Js.nl
    ++ String Js.TAB (String Js.TAB "Title") ++ Js.nl
    ++ String Js.TAB "host: example.com".

Definition indentedText : string :=
  " url: https://example.com" ++ Js.nl
    ++ " title: Example" ++ Js.nl
    ++ "  Title" ++ Js.nl
    ++ " host: example.com".

(** A mapping parser that knows the documents of the scenarios and answers
    as a YAML parser does on them: blank text is the null document, and
    every other text is rejected - among them the text [url: [], where a
    sequence is left open, and every text that is indented with tabs. *)
Definition scenarioYaml (text : string) : YamlOutcome :=
  if String.eqb text cardSource then YamlReturns card
  else if String.eqb text indentedText then YamlReturns card
  else if String.eqb text zeroTitleSource then YamlReturns zeroTitle
  else blankOnlyYaml text.

(** [a], line feed, [bc], line feed, [d]. *)
Definition threeLines : string :=
  "a" ++ Js.nl ++ "bc" ++ Js.nl ++ "d".

End Sample.

(** ** The characters of an escaped text *)

Module Escaped.

(** What the escaping of the extractor puts in place of one character. *)
Definition escapeChar (c : ascii) : string :=
  if Ascii.eqb c Js.BACKSLASH then "\\"
  else if Ascii.eqb c Js.DQUOTE then String Js.BACKSLASH (String Js.DQUOTE "")
  else String c "".

End Escaped.

(** ** Fields that are serialized *)

Module Fields.

(** An optional field as serialization sees it: absent when it holds the
    empty string. *)
Definition present (v : option string) : option string :=
  match v with
  | Some (String _ _) => v
  | _ => None
  end.

End Fields.

(** ** The last line of a text *)

Module Lines.

(** The characters after the last line feed of [s]; all of [s] when it has
    none. *)
Fixpoint lastLine (s : string) : string :=
  match s with
  | EmptyString => EmptyString
  | String c s' =>
      if (Position.countLF s =? 0)%nat then s else lastLine s'
  end.

End Lines.

(** ** More sample pages *)

Module Pages.

(** A page whose only title is blank, with a description. *)
Definition blankTitlePage : Sample.Document :=
  [("title", Sample.mkElement [] (Some "   "));
   ("meta[name='description']",
    Sample.mkElement [("name", "description"); ("content", "About")] None)].

(** A page with a title element, a description and a root-relative icon. *)
Definition fullPage : Sample.Document :=
  [("title", Sample.mkElement [] (Some (" Home " ++ Js.nl)));
   ("meta[property='og:description']",
    Sample.mkElement [("property", "og:description");
                      ("content", "Say " ++ String Js.DQUOTE "hi")] None);
   ("link[rel='icon']",
    Sample.mkElement [("rel", "icon"); ("href", "/favicon.ico")] None)].

End Pages.


(** ** Sample records *)

Module Records.

Definition plain : LinkMetadata :=
  {| url := "https://example.com"; title := "Example Title";
     description := None; host := Some "example.com";
     favicon := None; image := None; indent := 0 |}.

Definition emptyDescription : LinkMetadata :=
  {| url := "https://example.com"; title := "Example Title";
     description := Some ""; host := Some "example.com";
     favicon := None; image := None; indent := 0 |}.

End Records.


(** ** What an editor position denotes *)

Module Offsets.

(** The offset of the first character of line [l] of [s]; none when [s]
    has fewer lines. *)
Fixpoint lineOffset (s : string) (l : nat) : option nat :=
  match l, s with
  | O, _ => Some O
  | S _, EmptyString => None
  | S l', String c s' =>
      option_map S (lineOffset s' (if Ascii.eqb c Js.LF then l' else l))
  end.

(** The offset in [content] that the position [p] denotes. *)
Definition offsetOf (content : string) (p : EditorPosition) : option Z :=
  if (line p <? 0) || (ch p <? 0) then None
  else option_map (fun o => Z.of_nat o + ch p)
                  (lineOffset content (Z.to_nat (line p))).

(** [search] occurs in [text] at offset [k]. *)
Definition OccursAt (search text : string) (k : nat) : Prop :=
  exists pre post, text = pre ++ search ++ post /\ String.length pre = k.

Definition clamp (content : string) (index : Z) : Z :=
  Z.max 0 (Z.min index (Js.len content)).

End Offsets.

(** ** Links and image names *)

Module Links.

Definition noBracket (c : ascii) : bool :=
  negb (Ascii.eqb c "[" || Ascii.eqb c "]").

(** Neither of the two characters at which a selection is split. *)
Definition wordChar (c : ascii) : bool :=
  negb (Ascii.eqb c Js.LF || Ascii.eqb c Js.SPACE).

(** The Markdown link with the given label and target. *)
Definition link (label target : string) : string :=
  "[" ++ label ++ "](" ++ target ++ ")".

(** A link as [linkRegex] takes it: the label holds no bracket and the
    target is a URL of the grammar. *)
Definition LinkedUrl (s : string) : Prop :=
  exists label target,
    s = link label target
    /\ UrlGrammar.allOf noBracket label = true
    /\ UrlGrammar.Accepted target.

Definition extensions : list string :=
  ["gif"; "jpg"; "jpeg"; "tif"; "tiff"; "png"; "webp"; "bmp"; "tga"; "psd";
   "ai"].

(** One of the image extensions, in any case. *)
Definition Extension (e : string) : Prop :=
  exists ext, In ext extensions /\ UrlGrammar.Spells ext e.

(** A name that ends with a dot and an image extension. *)
Definition ImageName (s : string) : Prop :=
  exists stem e, s = stem ++ "." ++ e /\ Extension e.

(** [m] is a match of a word of [W] in the text whose rest from index [i]
    is [s]: the word stands at the index of [m] and is its matched text. *)
Definition Found (W : string -> Prop) (i : nat) (s : string)
           (m : RegexExec.MatchArray) : Prop :=
  exists pre w post,
    s = pre ++ w ++ post
    /\ RegexExec.index m = (i + String.length pre)%nat
    /\ RegexExec.item m 0 = Some w
    /\ W w.

End Links.

(** ** The end states of a match *)

Module Reach.

Definition isSome {A : Type} (o : option A) : bool :=
  match o with
  | Some _ => true
  | None => false
  end.

Definition sameState (y y' : Regex.State) : bool :=
  (fst y =? fst y')%nat && String.eqb (snd y) (snd y').

(** [r] can match from [x] to [y]: any continuation that accepts [y] makes
    the matcher succeed from [x]. *)
Definition Reaches (r : Regex.regex) (x y : Regex.State) : Prop :=
  forall k, k y = true -> Regex.matcher true r x k = true.

End Reach.


(** ** Internal links *)

Module WikiLinks.

(** [[[name]]]. *)
Definition wikiLink (name : string) : string := "[[" ++ name ++ "]]".

(** [s] without its first two and its last two characters. *)
Definition middle (s : string) : string :=
  Position.take (String.length s - 4) (Js.drop 2 s).

End WikiLinks.

(* ================================================================== *)
(** * Part III: the properties *)
(* ================================================================== *)

(** ** Facts about strings *)

Lemma append_assoc (a b c : string) : (a ++ b) ++ c = a ++ b ++ c.
Proof. induction a as [|x a IH]; cbn; [reflexivity | now rewrite IH]. Qed.

Lemma append_nil_r (s : string) : s ++ "" = s.
Proof. induction s as [|x s IH]; cbn; [reflexivity | now rewrite IH]. Qed.

Lemma length_append (a b : string) :
  String.length (a ++ b) = (String.length a + String.length b)%nat.
Proof. induction a as [|x a IH]; cbn; [reflexivity | now rewrite IH]. Qed.

(** ** Serialization *)

Lemma concat_unlines (l : string) (ls : list string) :
  String.concat Js.nl (l :: ls ++ ["```" ++ Js.nl])
  = l ++ Js.nl ++ BlockFormat.unlines ls ++ "```" ++ Js.nl.
Proof.
  revert l; induction ls as [|l' ls IH]; intro l; [reflexivity|].
  change (String.concat Js.nl (l :: (l' :: ls) ++ ["```" ++ Js.nl]))
    with (l ++ Js.nl ++ String.concat Js.nl (l' :: ls ++ ["```" ++ Js.nl])).
  rewrite IH. cbn [BlockFormat.unlines]. now rewrite !append_assoc.
Qed.

Lemma pushIf_fieldLine (xs : list string) (key : string)
      (render : string -> string) (v : option string) :
  CodeBlockGenerator.pushIf xs v (fun s => key ++ ": " ++ render s)
  = (xs ++ BlockFormat.fieldLine key render v)%list.
Proof.
  destruct v as [[|c s]|]; cbn; now rewrite ?app_nil_r.
Qed.

(** The array that [genCodeBlock] joins: the opening fence, the field
    lines, the closing fence. *)
Lemma genCodeBlock_lines (m : LinkMetadata) :
  CodeBlockGenerator.genCodeBlock m
  = String.concat Js.nl
      ((Js.nl ++ "```cardlink")
         :: BlockFormat.fieldLines m ++ ["```" ++ Js.nl]).
Proof.
  unfold CodeBlockGenerator.genCodeBlock, Js.join, BlockFormat.fieldLines.
  f_equal.
  change (fun d : string =>
            "description: " ++ String Js.DQUOTE (d ++ String Js.DQUOTE ""))
    with (fun d : string => "description" ++ ": " ++ BlockFormat.quoted d).
  change (fun h : string => "host: " ++ h)
    with (fun h : string => "host" ++ ": " ++ (fun s : string => s) h).
  change (fun f : string => "favicon: " ++ f)
    with (fun f : string => "favicon" ++ ": " ++ (fun s : string => s) f).
  change (fun i : string => "image: " ++ i)
    with (fun i : string => "image" ++ ": " ++ (fun s : string => s) i).
  rewrite !pushIf_fieldLine.
  unfold Js.push. cbn [List.concat].
  rewrite <- !app_assoc, ?app_nil_r. reflexivity.
Qed.

(** C6, amended. The serialized block is, for every record and always the
    same for the same record: a blank first line, the opening fence tagged
    [cardlink], the url line and the title line, then one [key: value] line
    per optional field that is present and does not hold the empty string,
    in the order description, host, favicon, image, with title and
    description between double quotes, the closing fence, and a final line
    feed.  An optional field that holds the empty string is left out like
    an absent one. *)
Theorem genCodeBlock_canonical (m : LinkMetadata) :
  CodeBlockGenerator.genCodeBlock m
  = Js.nl ++ "```cardlink" ++ Js.nl
      ++ BlockFormat.unlines (BlockFormat.fieldLines m)
      ++ "```" ++ Js.nl.
Proof.
  rewrite genCodeBlock_lines, concat_unlines.
  now rewrite append_assoc.
Qed.

(** C6, as stated, fails: a record whose description is present and holds
    the empty string is serialized without a description line, to the very
    block of the record that has no description. *)
Theorem genCodeBlock_omits_empty_field :
  description Records.emptyDescription = Some ""
  /\ description Records.plain = None
  /\ CodeBlockGenerator.genCodeBlock Records.emptyDescription
     = Js.nl ++ "```cardlink" ++ Js.nl
         ++ "url: https://example.com" ++ Js.nl
         ++ "title: " ++ BlockFormat.quoted "Example Title" ++ Js.nl
         ++ "host: example.com" ++ Js.nl
         ++ "```" ++ Js.nl
  /\ CodeBlockGenerator.genCodeBlock Records.emptyDescription
     = CodeBlockGenerator.genCodeBlock Records.plain.
Proof.
  split; [reflexivity|]. split; [reflexivity|].
  split; reflexivity.
Qed.

(** ** The asset URL resolver *)

Section Resolver.

Variable Document : Type.
Variable hostnameOf : string -> option string.
Variable checkUrlAccessibility : string -> bool.

Local Abbreviation fixImageUrl :=
  (LinkMetadataParser.fixImageUrl (Document := Document)
                                  hostnameOf checkUrlAccessibility).
Local Abbreviation choose := (Resolution.choose checkUrlAccessibility).

(** C3, amended. For a protocol-relative reference [//host/path] the
    resolver returns the [https:]-prefixed form when its probe succeeds,
    otherwise the [http:]-prefixed form when that probe succeeds, and
    when both probes fail the reference as it was given, unchanged. *)
Theorem fixImageUrl_protocol_relative
        (this : LinkMetadataParser.t Document) (hostname ref : string) :
  hostnameOf (LinkMetadataParser.this_url this) = Some hostname ->
  Js.startsWith ref "//" = true ->
  fixImageUrl this (Some ref)
  = Return (choose ("https:" ++ ref) ("http:" ++ ref) ref).
Proof.
  intros Hhost Hprefix.
  unfold Resolution.choose, LinkMetadataParser.fixImageUrl,
    LinkMetadataParser.newURL.
  rewrite Hhost. cbn [bind]. rewrite Hprefix.
  destruct (checkUrlAccessibility ("https:" ++ ref)); [reflexivity|].
  destruct (checkUrlAccessibility ("http:" ++ ref)); reflexivity.
Qed.

(** C4. For a root-relative reference [/path] (not [//...]) and a page
    whose hostname is known and non-empty, the resolver returns
    [https://host/path] when that candidate is reachable, otherwise
    [http://host/path] when that one is reachable, otherwise the
    reference as it was given. *)
Theorem fixImageUrl_root_relative
        (this : LinkMetadataParser.t Document) (hostname ref : string) :
  hostnameOf (LinkMetadataParser.this_url this) = Some hostname ->
  hostname <> "" ->
  Js.startsWith ref "/" = true ->
  Js.startsWith ref "//" = false ->
  fixImageUrl this (Some ref)
  = Return (choose ("https://" ++ hostname ++ ref)
                   ("http://" ++ hostname ++ ref) ref).
Proof.
  intros Hhost Hne Hroot Hproto.
  unfold Resolution.choose, LinkMetadataParser.fixImageUrl,
    LinkMetadataParser.newURL.
  rewrite Hhost. cbn [bind]. rewrite Hproto, Hroot.
  destruct hostname as [|c h]; [contradiction|]. cbn [Js.truthy andb].
  destruct (checkUrlAccessibility _); [reflexivity|].
  destruct (checkUrlAccessibility _); reflexivity.
Qed.

End Resolver.

(** C3, as stated, fails: with both probes failing the resolver hands back
    the protocol-relative reference itself, not its [https:] form. *)
Lemma fixImageUrl_no_https_fallback :
  let this := LinkMetadataParser.mk "https://example.com" tt in
  let ref := "//cdn.example.com/a.png" in
  Js.startsWith ref "//" = true
  /\ Sample.unreachable ("https:" ++ ref) = false
  /\ Sample.unreachable ("http:" ++ ref) = false
  /\ LinkMetadataParser.fixImageUrl Sample.hostnameOf Sample.unreachable
       this (Some ref) = Return "//cdn.example.com/a.png"
  /\ LinkMetadataParser.fixImageUrl Sample.hostnameOf Sample.unreachable
       this (Some ref) <> Return "https://cdn.example.com/a.png".
Proof.
  cbv zeta. repeat split; try reflexivity. discriminate.
Qed.

Lemma fixImageUrl_protocol_relative_witness :
  let this := LinkMetadataParser.mk "https://example.com" tt in
  LinkMetadataParser.fixImageUrl Sample.hostnameOf Sample.onlyHttp
    this (Some "//cdn.example.com/a.png")
  = Return "http://cdn.example.com/a.png".
Proof.
  cbv zeta.
  rewrite (fixImageUrl_protocol_relative unit Sample.hostnameOf Sample.onlyHttp
             _ "example.com" "//cdn.example.com/a.png");
    reflexivity.
Defined.

(** The two instances named by C4: page host [example.com], reference
    [/img.png]. *)
Lemma fixImageUrl_root_relative_witness :
  let this := LinkMetadataParser.mk "https://example.com" tt in
  LinkMetadataParser.fixImageUrl Sample.hostnameOf Sample.onlyHttp
    this (Some "/img.png") = Return "http://example.com/img.png"
  /\ LinkMetadataParser.fixImageUrl Sample.hostnameOf Sample.unreachable
       this (Some "/img.png") = Return "/img.png".
Proof.
  cbv zeta. split.
  - rewrite (fixImageUrl_root_relative unit Sample.hostnameOf Sample.onlyHttp
               _ "example.com" "/img.png");
      [reflexivity | reflexivity | discriminate | reflexivity | reflexivity].
  - rewrite (fixImageUrl_root_relative unit Sample.hostnameOf Sample.unreachable
               _ "example.com" "/img.png");
      [reflexivity | reflexivity | discriminate | reflexivity | reflexivity].
Defined.

(** ** The metadata extractor *)

Section Extractor.

Variables Document Element : Type.
Variable querySelector : Document -> string -> option Element.
Variable getAttr : Element -> string -> option string.
Variable textContent : Element -> option string.
Variable hostnameOf : string -> option string.
Variable checkUrlAccessibility : string -> bool.

Local Abbreviation parse :=
  (LinkMetadataParser.parse querySelector getAttr textContent
                            hostnameOf checkUrlAccessibility).

(** C5, amended. For the page URL [https://example.com] and a document
    whose [og:title] is [Example Title] and that has no description, icon
    or image element, extraction yields url, title and host (description,
    favicon and image absent, indent 0), and the serialized block holds
    exactly the url, title and host lines. *)
Theorem parse_title_only (doc : Document) (e : Element) :
  hostnameOf "https://example.com" = Some "example.com" ->
  querySelector doc "meta[property='og:title']" = Some e ->
  getAttr e "content" = Some "Example Title" ->
  querySelector doc "meta[property='og:description']" = None ->
  querySelector doc "meta[name='description']" = None ->
  querySelector doc "link[rel='icon']" = None ->
  querySelector doc "meta[property='og:image']" = None ->
  let record :=
    {| url := "https://example.com"; title := "Example Title";
       description := None; host := Some "example.com";
       favicon := None; image := None; indent := 0 |} in
  parse (LinkMetadataParser.mk "https://example.com" doc)
  = Return (Some record)
  /\ CodeBlockGenerator.genCodeBlock record
     = Js.nl ++ "```cardlink" ++ Js.nl
         ++ BlockFormat.unlines
              ["url: https://example.com";
               "title: " ++ BlockFormat.quoted "Example Title";
               "host: example.com"]
         ++ "```" ++ Js.nl.
Proof.
  intros Hhost Hsel Hattr Hogd Hmd Hicon Himg record. split.
  - unfold LinkMetadataParser.parse, LinkMetadataParser.getTitle,
      LinkMetadataParser.getDescription, LinkMetadataParser.getFavicon,
      LinkMetadataParser.getImage, LinkMetadataParser.queryAttr,
      LinkMetadataParser.newURL.
    cbn [LinkMetadataParser.htmlDoc LinkMetadataParser.this_url].
    rewrite Hsel, Hattr, Hogd, Hmd, Hicon, Himg, Hhost. reflexivity.
  - reflexivity.
Qed.

End Extractor.

(** C5, as stated, fails: the record extracted in the scenario has a host,
    so its block is not the one holding only the url and title lines. *)
Lemma parse_title_only_block_has_host :
  exists record,
    LinkMetadataParser.parse Sample.querySelector Sample.getAttr
      Sample.textContent Sample.hostnameOf Sample.unreachable
      (LinkMetadataParser.mk "https://example.com" Sample.titleOnlyPage)
    = Return (Some record)
    /\ host record = Some "example.com"
    /\ CodeBlockGenerator.genCodeBlock record
       <> Js.nl ++ "```cardlink" ++ Js.nl
            ++ BlockFormat.unlines
                 ["url: https://example.com";
                  "title: " ++ BlockFormat.quoted "Example Title"]
            ++ "```" ++ Js.nl.
Proof.
  eexists. split; [reflexivity|]. split; [reflexivity|]. discriminate.
Qed.

Lemma parse_title_only_witness :
  exists record,
    LinkMetadataParser.parse Sample.querySelector Sample.getAttr
      Sample.textContent Sample.hostnameOf Sample.unreachable
      (LinkMetadataParser.mk "https://example.com" Sample.titleOnlyPage)
    = Return (Some record)
    /\ BlockFormat.fieldLines record
       = ["url: https://example.com";
          "title: " ++ BlockFormat.quoted "Example Title";
          "host: example.com"].
Proof.
  destruct (parse_title_only Sample.Document Sample.Element
              Sample.querySelector Sample.getAttr Sample.textContent
              Sample.hostnameOf Sample.unreachable Sample.titleOnlyPage
              (Sample.mkElement
                 [("property", "og:title"); ("content", "Example Title")] None)
              eq_refl eq_refl eq_refl eq_refl eq_refl eq_refl eq_refl)
    as [Hparse _].
  eexists. split; [exact Hparse | reflexivity].
Defined.

(** ** The block parser: error taxonomy *)

Lemma toBoolean_false_iff (v : JsValue) :
  Value.toBoolean v = false <-> Required.Falsy v.
Proof.
  unfold Required.Falsy. split.
  - destruct v as [| |[|]|[|neg|m e]|[|c s]|items|properties];
      cbn [Value.toBoolean]; intros H; try discriminate; auto 10.
    apply negb_false_iff, Z.eqb_eq in H. subst m. eauto 10.
  - intros [->|[->|[->|[->|[->|(e & ->)]]]]]; reflexivity.
Qed.

Lemma MissingOrEmpty_Falsy (v : JsValue) :
  Required.MissingOrEmpty v -> Required.Falsy v.
Proof. unfold Required.Falsy. intros [->|[->| ->]]; auto 10. Qed.

Lemma Missing_Rejected (yaml : JsValue) :
  Required.Missing yaml -> Required.Rejected yaml.
Proof.
  unfold Required.Rejected.
  intros [H|H]; apply MissingOrEmpty_Falsy in H; auto.
Qed.

(** The check [!yaml || !yaml.url || !yaml.title]. *)
Lemma rejected_iff (yaml : JsValue) :
  (if negb (Value.toBoolean yaml) then true
   else negb (Value.toBoolean (Value.get yaml "url"))
        || negb (Value.toBoolean (Value.get yaml "title"))) = true
  <-> Required.Rejected yaml.
Proof.
  unfold Required.Rejected. rewrite <- !toBoolean_false_iff.
  destruct (Value.toBoolean yaml); cbn [negb];
    [|split; [now left | reflexivity]].
  rewrite orb_true_iff, !negb_true_iff. split; [tauto|].
  intros [H|H]; [discriminate | exact H].
Qed.

Section Processor.

Variable parseYaml : string -> YamlOutcome.

Local Abbreviation parse :=
  (CodeBlockProcessor.parseLinkMetadataFromYaml parseYaml).
Local Abbreviation text source :=
  (snd (CodeBlockProcessor.preprocess source)).

(** What parse does with the answer of the mapping parser on the
    pre-processed source. *)
Lemma parse_cases_of (source : string) :
  (parseYaml (text source) = YamlThrows
   /\ parse source = Throw (YamlParseError Required.yamlMessage))
  \/ (exists yaml,
        parseYaml (text source) = YamlReturns yaml
        /\ Required.Rejected yaml
        /\ parse source
           = Throw (NoRequiredParamsError Required.paramsMessage))
  \/ (exists yaml,
        parseYaml (text source) = YamlReturns yaml
        /\ ~ Required.Rejected yaml
        /\ parse source
           = Return {| Parsed.url := Value.get yaml "url";
                       Parsed.title := Value.get yaml "title";
                       Parsed.description := Value.get yaml "description";
                       Parsed.host := Value.get yaml "host";
                       Parsed.favicon := Value.get yaml "favicon";
                       Parsed.image := Value.get yaml "image";
                       Parsed.indent :=
                         fst (CodeBlockProcessor.preprocess source) |}).
Proof.
  unfold CodeBlockProcessor.parseLinkMetadataFromYaml.
  destruct (CodeBlockProcessor.preprocess source) as [indent0 text0].
  cbn [fst snd].
  destruct (parseYaml text0) as [|yaml] eqn:Hyaml; [now left | right].
  pose proof (rejected_iff yaml) as Hrej.
  destruct (Value.toBoolean yaml); cbn [negb] in *.
  - destruct (negb (Value.toBoolean (Value.get yaml "url"))
              || negb (Value.toBoolean (Value.get yaml "title"))).
    + left. exists yaml. repeat split. now apply Hrej.
    + right. exists yaml. repeat split.
      intros H. apply Hrej in H. discriminate.
  - left. exists yaml. repeat split. now apply Hrej.
Qed.

(** C2, amended. Whatever the block text: when the mapping parser rejects
    the pre-processed text, parse throws [YamlParseError]; when it accepts
    it but the url or the title of the parsed value is missing or empty -
    or is any other falsy value, as the number 0 is, or the parsed value is
    itself falsy - parse throws [NoRequiredParamsError] with the message
    naming [url, title]; otherwise parse returns a record that carries,
    as they are, the values that the mapping gives to the six keys; and
    parse throws nothing else. *)
Theorem parse_error_taxonomy (source : string) :
  (parseYaml (text source) = YamlThrows ->
     parse source = Throw (YamlParseError Required.yamlMessage))
  /\ (forall yaml,
        parseYaml (text source) = YamlReturns yaml ->
        Required.Missing yaml ->
        parse source = Throw (NoRequiredParamsError Required.paramsMessage))
  /\ (forall yaml,
        parseYaml (text source) = YamlReturns yaml ->
        Required.Rejected yaml ->
        parse source = Throw (NoRequiredParamsError Required.paramsMessage))
  /\ (forall yaml,
        parseYaml (text source) = YamlReturns yaml ->
        ~ Required.Rejected yaml ->
        exists m,
          parse source = Return m
          /\ Parsed.url m = Value.get yaml "url"
          /\ Parsed.title m = Value.get yaml "title"
          /\ Parsed.description m = Value.get yaml "description"
          /\ Parsed.host m = Value.get yaml "host"
          /\ Parsed.favicon m = Value.get yaml "favicon"
          /\ Parsed.image m = Value.get yaml "image")
  /\ (forall e,
        parse source = Throw e ->
        e = YamlParseError Required.yamlMessage
        \/ e = NoRequiredParamsError Required.paramsMessage).
Proof.
  assert (Hrejected : forall yaml,
             parseYaml (text source) = YamlReturns yaml ->
             Required.Rejected yaml ->
             parse source
             = Throw (NoRequiredParamsError Required.paramsMessage)).
  { intros yaml Hyaml Hrej.
    destruct (parse_cases_of source)
      as [(Hy & _)|[(y & Hy & _ & Hp)|(y & Hy & Hnot & _)]];
      rewrite Hyaml in Hy; try discriminate; injection Hy as <-.
    - exact Hp.
    - contradiction. }
  split; [|split; [|split; [|split]]].
  - intros Hyaml.
    destruct (parse_cases_of source)
      as [(_ & Hp)|[(y & Hy & _)|(y & Hy & _)]]; [exact Hp | |];
      rewrite Hyaml in Hy; discriminate.
  - intros yaml Hyaml Hmiss.
    apply (Hrejected yaml Hyaml). now apply Missing_Rejected.
  - exact Hrejected.
  - intros yaml Hyaml Hnot.
    destruct (parse_cases_of source)
      as [(Hy & _)|[(y & Hy & Hrej & _)|(y & Hy & _ & Hp)]];
      rewrite Hyaml in Hy; try discriminate; injection Hy as <-.
    + contradiction.
    + eexists. split; [exact Hp|]. repeat split.
  - intros e He.
    destruct (parse_cases_of source)
      as [(_ & Hp)|[(y & _ & _ & Hp)|(y & _ & _ & Hp)]];
      rewrite Hp in He; try discriminate; injection He as <-; auto.
Qed.

(** C10. When the mapping parser accepts the pre-processed source and
    hands back [null] or [undefined], parse throws
    [NoRequiredParamsError], and no [YamlParseError]. *)
Theorem parse_null_document (source : string) :
  parseYaml (text source) = YamlReturns VNull
  \/ parseYaml (text source) = YamlReturns VUndefined ->
  parse source = Throw (NoRequiredParamsError Required.paramsMessage)
  /\ forall message, parse source <> Throw (YamlParseError message).
Proof.
  intros Hyaml.
  unfold CodeBlockProcessor.parseLinkMetadataFromYaml.
  destruct (CodeBlockProcessor.preprocess source) as [indent0 text0].
  cbn [snd] in Hyaml.
  destruct Hyaml as [Hyaml|Hyaml]; rewrite Hyaml; cbn [Value.toBoolean negb];
    (split; [reflexivity | discriminate]).
Qed.

End Processor.

(** C2, as stated, fails: in the mapping of [url: https://example.com] and
    [title: 0] both keys are present and neither is empty, and yet parse
    throws [NoRequiredParamsError] and returns no record, the number 0
    being falsy. *)
Theorem parse_rejects_zero_title :
  Sample.scenarioYaml
    (snd (CodeBlockProcessor.preprocess Sample.zeroTitleSource))
  = YamlReturns Sample.zeroTitle
  /\ Value.get Sample.zeroTitle "url" = VString "https://example.com"
  /\ Value.get Sample.zeroTitle "title" = VNumber (Finite 0 0)
  /\ ~ Required.Missing Sample.zeroTitle
  /\ CodeBlockProcessor.parseLinkMetadataFromYaml
       Sample.scenarioYaml Sample.zeroTitleSource
     = Throw (NoRequiredParamsError Required.paramsMessage)
  /\ forall m,
       CodeBlockProcessor.parseLinkMetadataFromYaml
         Sample.scenarioYaml Sample.zeroTitleSource
       <> Return m.
Proof.
  split; [reflexivity|]. split; [reflexivity|]. split; [reflexivity|].
  split; [|split; [reflexivity | discriminate]].
  unfold Required.Missing, Required.MissingOrEmpty.
  intros [[H|[H|H]]|[H|[H|H]]]; discriminate.
Qed.

Lemma parse_error_taxonomy_witness :
  CodeBlockProcessor.parseLinkMetadataFromYaml Sample.scenarioYaml "url: ["
  = Throw (YamlParseError Required.yamlMessage)
  /\ CodeBlockProcessor.parseLinkMetadataFromYaml Sample.scenarioYaml "  "
     = Throw (NoRequiredParamsError Required.paramsMessage)
  /\ CodeBlockProcessor.parseLinkMetadataFromYaml
       Sample.scenarioYaml Sample.zeroTitleSource
     = Throw (NoRequiredParamsError Required.paramsMessage)
  /\ exists m,
       CodeBlockProcessor.parseLinkMetadataFromYaml
         Sample.scenarioYaml Sample.cardSource
       = Return m
       /\ Parsed.url m = VString "https://example.com"
       /\ Parsed.title m = VString "Example Title"
       /\ Parsed.description m = VUndefined.
Proof.
  split; [|split; [|split]].
  - apply (parse_error_taxonomy Sample.scenarioYaml "url: ["). reflexivity.
  - destruct (parse_error_taxonomy Sample.scenarioYaml "  ")
      as (_ & Hmissing & _).
    apply (Hmissing VNull); [reflexivity|].
    left. left. reflexivity.
  - destruct (parse_error_taxonomy Sample.scenarioYaml Sample.zeroTitleSource)
      as (_ & _ & Hrejected & _).
    apply (Hrejected Sample.zeroTitle); [reflexivity|].
    right. right. right. right. right. right. right. now exists 0.
  - destruct (parse_error_taxonomy Sample.scenarioYaml Sample.cardSource)
      as (_ & _ & _ & Hreturns & _).
    destruct (Hreturns Sample.card eq_refl)
      as (m & Hm & Hu & Ht & Hd & _).
    + unfold Required.Rejected, Required.Falsy.
      intros [H|[H|H]];
        repeat (destruct H as [H|H]; [discriminate|]);
        destruct H as (e & H); discriminate.
    + exists m. auto.
Defined.

Lemma parse_null_document_witness :
  CodeBlockProcessor.parseLinkMetadataFromYaml Sample.blankOnlyYaml ""
  = Throw (NoRequiredParamsError Required.paramsMessage).
Proof.
  apply (parse_null_document Sample.blankOnlyYaml ""). left. reflexivity.
Defined.

(** ** The block parser: tab indentation *)

Lemma startsWith_tab (c : ascii) (s : string) :
  Js.startsWith (String c s) Indentation.tab = Ascii.eqb c Js.TAB.
Proof.
  unfold Js.startsWith, Indentation.tab. cbn [String.prefix].
  destruct (ascii_dec Js.TAB c) as [<-|Hne].
  - rewrite Ascii.eqb_refl. now destruct s.
  - symmetry. apply Ascii.eqb_neq. congruence.
Qed.

Lemma leadingTabs_split (line : string) :
  let n := CodeBlockProcessor.leadingTabs line in
  line = Js.repeat Indentation.tab n ++ Js.drop n line
  /\ Js.startsWith (Js.drop n line) Indentation.tab = false.
Proof.
  induction line as [|c s [IH1 IH2]]; cbn zeta; [split; reflexivity|].
  cbn [CodeBlockProcessor.leadingTabs].
  destruct (Ascii.eqb c Js.TAB) eqn:Hc.
  - apply Ascii.eqb_eq in Hc. subst c. cbn. split; [now f_equal | exact IH2].
  - cbn [Js.repeat Js.drop]. split; [reflexivity|].
    now rewrite startsWith_tab.
Qed.

Lemma LeadingTabs_unique (n : nat) (line : string) :
  Indentation.LeadingTabs n line -> CodeBlockProcessor.leadingTabs line = n.
Proof.
  intros [rest [-> Hrest]].
  induction n as [|n IH]; cbn.
  - destruct rest as [|c r]; [reflexivity|].
    rewrite startsWith_tab in Hrest. cbn. now rewrite Hrest.
  - now rewrite IH.
Qed.

Lemma replaceTabs_replaced (indent : Z) (line : string) :
  Indentation.TabsReplaced line (snd (CodeBlockProcessor.replaceTabs indent line)).
Proof.
  destruct (leadingTabs_split line) as [Hline Hrest].
  unfold CodeBlockProcessor.replaceTabs.
  destruct (CodeBlockProcessor.leadingTabs line) as [|n] eqn:Hn.
  - exists O, line. cbn in *. auto.
  - exists (S n), (Js.drop (S n) line). cbn [snd]. auto.
Qed.

Lemma replaceTabs_indent (indent : Z) (line : string) :
  fst (CodeBlockProcessor.replaceTabs indent line)
  = match CodeBlockProcessor.leadingTabs line with
    | O => indent
    | S _ as n => if indent <? 0 then Z.of_nat n else indent
    end.
Proof.
  unfold CodeBlockProcessor.replaceTabs.
  now destruct (CodeBlockProcessor.leadingTabs line).
Qed.

Lemma mapLines_cons (indent : Z) (l : string) (ls : list string) :
  CodeBlockProcessor.mapLines indent (l :: ls)
  = (fst (CodeBlockProcessor.mapLines
            (fst (CodeBlockProcessor.replaceTabs indent l)) ls),
     snd (CodeBlockProcessor.replaceTabs indent l)
       :: snd (CodeBlockProcessor.mapLines
                 (fst (CodeBlockProcessor.replaceTabs indent l)) ls)).
Proof.
  cbn [CodeBlockProcessor.mapLines].
  destruct (CodeBlockProcessor.replaceTabs indent l) as [i1 l'].
  cbn [fst snd].
  now destruct (CodeBlockProcessor.mapLines i1 ls).
Qed.

Lemma mapLines_replaced (indent : Z) (lines : list string) :
  Forall2 Indentation.TabsReplaced lines
          (snd (CodeBlockProcessor.mapLines indent lines)).
Proof.
  revert indent; induction lines as [|l ls IH]; intro indent.
  - constructor.
  - rewrite mapLines_cons. cbn [snd].
    constructor; [apply replaceTabs_replaced | apply IH].
Qed.

(** Once [indent] is set, no line changes it. *)
Lemma mapLines_indent_set (indent : Z) (lines : list string) :
  0 <= indent -> fst (CodeBlockProcessor.mapLines indent lines) = indent.
Proof.
  revert indent; induction lines as [|l ls IH]; intros indent Hset;
    [reflexivity|].
  rewrite mapLines_cons. cbn [fst].
  rewrite replaceTabs_indent.
  destruct (CodeBlockProcessor.leadingTabs l); [now apply IH|].
  destruct (Z.ltb_spec indent 0); [lia | now apply IH].
Qed.

Lemma mapLines_indent_none (indent : Z) (lines : list string) :
  Forall (Indentation.LeadingTabs 0) lines ->
  fst (CodeBlockProcessor.mapLines indent lines) = indent.
Proof.
  revert indent; induction lines as [|l ls IH]; intros indent Hnone;
    [reflexivity|].
  inversion Hnone as [|? ? Hl Hls]; subst.
  rewrite mapLines_cons. cbn [fst].
  rewrite replaceTabs_indent, (LeadingTabs_unique _ _ Hl). now apply IH.
Qed.

Lemma mapLines_indent_first (before : list string) (l : string)
      (after : list string) (n : nat) (indent : Z) :
  indent < 0 ->
  Forall (Indentation.LeadingTabs 0) before ->
  Indentation.LeadingTabs (S n) l ->
  fst (CodeBlockProcessor.mapLines indent (before ++ l :: after))
  = Z.of_nat (S n).
Proof.
  intros Hunset Hbefore Hl.
  induction before as [|b bs IH]; cbn [app]; rewrite mapLines_cons; cbn [fst].
  - rewrite replaceTabs_indent, (LeadingTabs_unique _ _ Hl).
    destruct (Z.ltb_spec indent 0); [|lia].
    apply mapLines_indent_set. lia.
  - inversion Hbefore as [|? ? Hb Hbs]; subst.
    rewrite replaceTabs_indent, (LeadingTabs_unique _ _ Hb). now apply IH.
Qed.

Section Indent.

Variable parseYaml : string -> YamlOutcome.

Local Abbreviation parse :=
  (CodeBlockProcessor.parseLinkMetadataFromYaml parseYaml).

(** C7. The text that parse hands to the mapping parser is the lines of
    the source, each with its leading tabs (and nothing else) replaced by
    as many spaces, joined by line feeds: parse throws [YamlParseError]
    exactly when the mapping parser rejects that text, and a record that
    parse returns holds what the mapping parser made of that text.  The
    indent of the returned record is the number of leading tabs of the
    first line that starts with a tab, whatever the later lines are, and
    -1 when no line starts with a tab. *)
Theorem parse_tab_indent (source : string) :
  let lines := CodeBlockProcessor.splitLines source in
  exists lines',
    Forall2 Indentation.TabsReplaced lines lines'
    /\ (parseYaml (Js.join lines' Js.nl) = YamlThrows
        <-> exists message, parse source = Throw (YamlParseError message))
    /\ (forall m,
          parse source = Return m ->
          exists yaml,
            parseYaml (Js.join lines' Js.nl) = YamlReturns yaml
            /\ Parsed.url m = Value.get yaml "url"
            /\ Parsed.title m = Value.get yaml "title"
            /\ Parsed.description m = Value.get yaml "description"
            /\ Parsed.host m = Value.get yaml "host"
            /\ Parsed.favicon m = Value.get yaml "favicon"
            /\ Parsed.image m = Value.get yaml "image")
    /\ (forall m,
          parse source = Return m ->
          Forall (Indentation.LeadingTabs 0) lines ->
          Parsed.indent m = -1)
    /\ (forall m before l after n,
          parse source = Return m ->
          lines = (before ++ l :: after)%list ->
          Forall (Indentation.LeadingTabs 0) before ->
          Indentation.LeadingTabs (S n) l ->
          Parsed.indent m = Z.of_nat (S n)).
Proof.
  intros lines.
  assert (Hpre : CodeBlockProcessor.preprocess source
                 = (fst (CodeBlockProcessor.mapLines (-1) lines),
                    Js.join (snd (CodeBlockProcessor.mapLines (-1) lines))
                            Js.nl)).
  { unfold CodeBlockProcessor.preprocess. fold lines.
    now destruct (CodeBlockProcessor.mapLines (-1) lines). }
  pose proof (parse_cases_of parseYaml source) as Hcases.
  rewrite Hpre in Hcases. cbn [fst snd] in Hcases.
  set (lines' := snd (CodeBlockProcessor.mapLines (-1) lines)) in *.
  set (indent0 := fst (CodeBlockProcessor.mapLines (-1) lines)) in *.
  assert (Hindent : forall m, parse source = Return m ->
                              Parsed.indent m = indent0).
  { intros m Hm.
    destruct Hcases as [(_ & Hp)|[(y & _ & _ & Hp)|(y & _ & _ & Hp)]];
      rewrite Hp in Hm; try discriminate.
    now injection Hm as <-. }
  exists lines'. split; [apply mapLines_replaced|].
  split; [|split; [|split]].
  - split.
    + intros Hthrows.
      destruct Hcases as [(_ & Hp)|[(y & Hy & _)|(y & Hy & _)]];
        [now exists Required.yamlMessage | |];
        rewrite Hthrows in Hy; discriminate.
    + intros (message & Hm).
      destruct Hcases as [(Hy & _)|[(y & _ & _ & Hp)|(y & _ & _ & Hp)]];
        [exact Hy | |]; rewrite Hp in Hm; discriminate.
  - intros m Hm.
    destruct Hcases as [(_ & Hp)|[(y & _ & _ & Hp)|(y & Hy & _ & Hp)]];
      rewrite Hp in Hm; try discriminate.
    injection Hm as <-. exists y. repeat split. exact Hy.
  - intros m Hm Hnone. rewrite (Hindent m Hm).
    now apply mapLines_indent_none.
  - intros m before l after n Hm Hlines Hbefore Hl.
    rewrite (Hindent m Hm). unfold indent0. rewrite Hlines.
    apply mapLines_indent_first; [lia | assumption | assumption].
Qed.

End Indent.

Lemma parse_tab_indent_witness :
  exists m,
    CodeBlockProcessor.parseLinkMetadataFromYaml
      Sample.scenarioYaml Sample.indentedSource = Return m
    /\ Parsed.title m = VString "Example Title"
    /\ Parsed.indent m = 1.
Proof.
  eexists. split; [reflexivity|]. split; [reflexivity|].
  destruct (parse_tab_indent Sample.scenarioYaml Sample.indentedSource)
    as (lines' & _ & _ & _ & _ & Hfirst).
  apply (Hfirst _ [] (String Js.TAB "url: https://example.com")
                [String Js.TAB "title: Example";
                 String Js.TAB (String Js.TAB "Title");
                 String Js.TAB "host: example.com"] O).
  - reflexivity.
  - reflexivity.
  - constructor.
  - exists "url: https://example.com". split; reflexivity.
Defined.

(** ** Offsets to editor positions *)

Lemma take_nil (n : nat) : Position.take n "" = "".
Proof. now destruct n. Qed.

Lemma substring_take (n : nat) (s : string) :
  String.substring 0 n s = Position.take n s.
Proof.
  revert s; induction n as [|n IH]; intros [|c s]; cbn; try reflexivity.
  now rewrite IH.
Qed.

Lemma substring_drop_take (n m : nat) (s : string) :
  String.substring n m s = Position.take m (Js.drop n s).
Proof.
  revert s; induction n as [|n IH]; intros s.
  - apply substring_take.
  - destruct s as [|c s]; cbn [Js.drop].
    + now rewrite take_nil; destruct m.
    + cbn [String.substring]. apply IH.
Qed.

Lemma length_take (n : nat) (s : string) :
  (n <= String.length s)%nat -> String.length (Position.take n s) = n.
Proof.
  revert s; induction n as [|n IH]; intros [|c s] H; cbn in *;
    try reflexivity; try lia.
  rewrite IH; lia.
Qed.

Lemma length_drop (n : nat) (s : string) :
  String.length (Js.drop n s) = (String.length s - n)%nat.
Proof.
  revert s; induction n as [|n IH]; intros [|c s]; cbn; try reflexivity; try lia.
  apply IH.
Qed.

Lemma get_drop (p k : nat) (s : string) :
  String.get k (Js.drop p s) = String.get (p + k) s.
Proof.
  revert s; induction p as [|p IH]; intros [|c s]; cbn; try reflexivity.
  apply IH.
Qed.

Lemma get_take (k n : nat) (s : string) :
  (k < n)%nat -> String.get k (Position.take n s) = String.get k s.
Proof.
  revert k s; induction n as [|n IH]; intros k [|c s] H; cbn;
    try reflexivity; try lia.
  destruct k as [|k]; [reflexivity|]. apply IH. lia.
Qed.

Lemma drop_drop (a b : nat) (s : string) :
  Js.drop a (Js.drop b s) = Js.drop (b + a) s.
Proof.
  revert s; induction b as [|b IH]; intros s; [reflexivity|].
  destruct s as [|c s]; cbn [Js.drop Nat.add].
  - now destruct a.
  - apply IH.
Qed.

Lemma get_some_lt (k : nat) (s : string) (c : ascii) :
  String.get k s = Some c -> (k < String.length s)%nat.
Proof.
  revert k; induction s as [|d s IH]; intros k H; cbn in *; [discriminate|].
  destruct k as [|k]; [lia|]. apply IH in H. lia.
Qed.

Lemma substr_prefix (content : string) (index : Z) :
  0 <= index <= Js.len content ->
  Js.substr content 0 index = Position.take (Z.to_nat index) content.
Proof.
  intros H. unfold Js.substr. cbn [Z.ltb Z.compare].
  set (size := Js.len content) in *.
  replace (Z.min 0 size) with 0 by lia.
  replace (Z.min (Z.max index 0) size) with index by lia.
  replace (Z.min (0 + index) size) with index by lia.
  destruct (Z.leb_spec index 0).
  - replace index with 0 by lia. now destruct content.
  - cbn [Z.to_nat]. rewrite Z.sub_0_r. apply substring_take.
Qed.

Lemma substr_length (content : string) (from to : Z) :
  0 <= from <= to -> to <= Js.len content ->
  Js.len (Js.substr content from (to - from)) = to - from.
Proof.
  intros H1 H2. unfold Js.substr.
  set (size := Js.len content) in *.
  destruct (Z.ltb_spec from 0); [lia|].
  replace (Z.min from size) with from by lia.
  replace (Z.min (Z.max (to - from) 0) size) with (to - from) by lia.
  replace (Z.min (from + (to - from)) size) with to by lia.
  destruct (Z.leb_spec to from).
  - cbn. lia.
  - rewrite substring_drop_take. unfold Js.len.
    rewrite length_take; [lia|].
    rewrite length_drop. unfold size, Js.len in *. lia.
Qed.

Lemma scanFor_nl (t : string) (p : nat) :
  (Js.scanFor Js.nl t p = -1
   /\ Position.countLF t = O
   /\ forall k, String.get k t <> Some Js.LF)
  \/ (exists j,
        Js.scanFor Js.nl t p = Z.of_nat (p + j)
        /\ String.get j t = Some Js.LF
        /\ (forall k, (k < j)%nat -> String.get k t <> Some Js.LF)
        /\ Position.countLF t = S (Position.countLF (Js.drop (S j) t))).
Proof.
  revert p; induction t as [|c t IH]; intros p.
  - left. cbn. repeat split. intros k. discriminate.
  - cbn [Js.scanFor Js.nl String.prefix].
    destruct (ascii_dec Js.LF c) as [<-|Hne].
    + right. exists O. replace (String.prefix "" t) with true by now destruct t.
      rewrite Nat.add_0_r. repeat split; try reflexivity. intros k Hk. lia.
    + assert (Hc : Ascii.eqb c Js.LF = false)
        by (apply Ascii.eqb_neq; congruence).
      destruct (IH (S p)) as [(Hs & Hn & Hg)|(j & Hs & Hj & Hlt & Hn)].
      * left. cbn [Position.countLF]. rewrite Hc, Hs, Hn.
        repeat split. intros [|k]; cbn; [congruence | apply Hg].
      * right. exists (S j). cbn [Position.countLF Js.drop String.get].
        rewrite Hc, Hs, Hn. repeat split; try (f_equal; lia); try assumption.
        intros [|k] Hk; cbn; [congruence | apply Hlt; lia].
Qed.

Lemma indexOf_nl (sub : string) (p : nat) :
  (p <= String.length sub)%nat ->
  Js.indexOf sub Js.nl (Z.of_nat p - 1 + 1) = Js.scanFor Js.nl (Js.drop p sub) p.
Proof.
  intros H. unfold Js.indexOf, Js.len.
  replace (Z.to_nat _) with p by lia. reflexivity.
Qed.

(** The loop, started just after a line feed at [p - 1] (or at 0), adds
    the line feeds that remain and stops with the offset of the last one. *)
Lemma countLines_spec (fuel : nat) (sub : string) (p : nat) (l : Z) :
  (p <= String.length sub)%nat ->
  (String.length sub - p < fuel)%nat ->
  exists start,
    EditorExtensions.countLines fuel sub l (Z.of_nat p - 1) (Z.of_nat p - 1)
    = Some (l + Z.of_nat (Position.countLF (Js.drop p sub)),
            Z.of_nat start - 1)
    /\ (p <= start <= String.length sub)%nat
    /\ (start = p \/ String.get (start - 1) sub = Some Js.LF)
    /\ forall k, (start <= k)%nat -> String.get k sub <> Some Js.LF.
Proof.
  revert p l; induction fuel as [|fuel IH]; intros p l Hp Hfuel; [lia|].
  cbn [EditorExtensions.countLines]. rewrite indexOf_nl by assumption.
  destruct (scanFor_nl (Js.drop p sub) p)
    as [(Hs & Hn & Hg)|(j & Hs & Hj & Hlt & Hn)]; rewrite Hs, Hn.
  - exists p. cbn [Z.eqb]. rewrite Z.add_0_r.
    repeat split; try lia; auto.
    intros k Hk. replace k with (p + (k - p))%nat by lia.
    rewrite <- get_drop. apply Hg.
  - pose proof (get_some_lt _ _ _ Hj) as Hjlen. rewrite length_drop in Hjlen.
    destruct (Z.eqb_spec (Z.of_nat (p + j)) (-1)); [lia|].
    replace (Z.of_nat (p + j)) with (Z.of_nat (S (p + j)) - 1) by lia.
    destruct (IH (S (p + j)) (l + 1)) as (start & Hrun & Hrange & Hstart & Hafter);
      [lia | lia |].
    exists start. rewrite Hrun, drop_drop.
    replace (p + S j)%nat with (S (p + j)) by lia.
    repeat split; try lia; try assumption.
    + do 2 f_equal. lia.
    + right. destruct Hstart as [->|Hstart]; [|assumption].
      cbn [Nat.sub]. rewrite Nat.sub_0_r, <- get_drop. exact Hj.
Qed.

(** C9. For an index between 0 and the length of the content, the line is
    the number of line feeds strictly before the index, and the column is
    the distance from the start of that line - the position just after the
    last line feed before the index, or 0 when there is none - to the
    index. *)
Theorem getEditorPositionFromIndex_spec (content : string) (index : Z) :
  0 <= index <= Js.len content ->
  exists start : nat,
    EditorExtensions.getEditorPositionFromIndex content index
    = Some {| line := Z.of_nat (Position.newlinesBefore content (Z.to_nat index));
              ch := index - Z.of_nat start |}
    /\ Z.of_nat start <= index
    /\ (start = O \/ String.get (start - 1) content = Some Js.LF)
    /\ forall k, (start <= k)%nat -> Z.of_nat k < index ->
                 String.get k content <> Some Js.LF.
Proof.
  intros Hindex.
  unfold EditorExtensions.getEditorPositionFromIndex.
  rewrite substr_prefix by assumption.
  set (n := Z.to_nat index).
  set (sub := Position.take n content).
  assert (Hn : (n <= String.length content)%nat)
    by (unfold Js.len in Hindex; lia).
  assert (Hlen : String.length sub = n) by now apply length_take.
  destruct (countLines_spec (S (String.length sub)) sub O 0)
    as (start & Hrun & Hrange & Hstart & Hafter); [lia | lia |].
  cbn [Z.of_nat Z.sub Z.opp Z.add] in Hrun. rewrite Hrun.
  exists start.
  replace (Z.of_nat start - 1 + 1) with (Z.of_nat start) by lia.
  rewrite substr_length by (unfold Js.len in *; lia).
  repeat split.
  - lia.
  - destruct start as [|start]; [now left | right].
    destruct Hstart as [Hstart|Hstart]; [discriminate|].
    unfold sub in Hstart. rewrite get_take in Hstart by lia. exact Hstart.
  - intros k Hk1 Hk2 Hget. apply (Hafter k Hk1).
    unfold sub. rewrite get_take by lia. exact Hget.
Qed.

Lemma getEditorPositionFromIndex_witness :
  0 <= 4 <= Js.len Sample.threeLines
  /\ exists start : nat,
       EditorExtensions.getEditorPositionFromIndex Sample.threeLines 4
       = Some {| line := 1; ch := 4 - Z.of_nat start |}
       /\ Z.of_nat start <= 4.
Proof.
  assert (H : 0 <= 4 <= Js.len Sample.threeLines) by (cbn; lia).
  split; [exact H|].
  destruct (getEditorPositionFromIndex_spec Sample.threeLines 4 H)
    as (start & Hrun & Hle & _).
  exists start. split; [exact Hrun | exact Hle].
Defined.

(** ** The URL classifier *)

Section MatcherFacts.

Import UrlGrammar.

Lemma canonicalize_upper (c : ascii) : Regex.canonicalize true c = upper c.
Proof. reflexivity. Qed.

Lemma alnum_class (d : ascii) :
  xorb false
       (Regex.inClass true [Regex.Range "a" "z"; Regex.Range "A" "Z";
                            Regex.Range "0" "9"] d)
  = isAlnum d.
Proof.
  destruct d as [[] [] [] [] [] [] [] []]; vm_compute; reflexivity.
Qed.

Lemma alnumHyphen_class (d : ascii) :
  xorb false
       (Regex.inClass true [Regex.Range "a" "z"; Regex.Range "A" "Z";
                            Regex.Range "0" "9"; Regex.Single "-"] d)
  = isLabelChar d.
Proof.
  destruct d as [[] [] [] [] [] [] [] []]; vm_compute; reflexivity.
Qed.

Lemma nonSpace_class (d : ascii) :
  xorb true (Regex.inClass true [Regex.WhiteSpace] d) = isNonSpace d.
Proof.
  destruct d as [[] [] [] [] [] [] [] []]; vm_compute; reflexivity.
Qed.

Lemma allOf_ext (p q : ascii -> bool) (s : string) :
  (forall c, p c = q c) -> allOf p s = allOf q s.
Proof.
  intros H; induction s as [|c s IH]; cbn; [reflexivity|].
  now rewrite H, IH.
Qed.

Lemma allOf_append (p : ascii -> bool) (a b : string) :
  allOf p (a ++ b) = allOf p a && allOf p b.
Proof.
  induction a as [|c a IH]; cbn; [reflexivity|].
  now rewrite IH, andb_assoc.
Qed.

Lemma upcase_nil (w : string) : upcase w = "" -> w = "".
Proof. now destruct w. Qed.

(** A literal consumes a spelling of itself. *)
Lemma matcher_lit (w : string) (i : nat) (s : string)
      (k : Regex.State -> bool) :
  Regex.matcher true (Regex.lit w) (i, s) k = true
  <-> exists w' rest,
        s = w' ++ rest /\ Spells w w'
        /\ k ((i + String.length w)%nat, rest) = true.
Proof.
  unfold Spells.
  revert i s; induction w as [|c w IH]; intros i s; cbn [Regex.lit].
  - cbn. rewrite Nat.add_0_r. split.
    + intros H. exists "", s. auto.
    + intros (w' & rest & -> & Hw & Hk). apply upcase_nil in Hw.
      now subst w'.
  - cbn [Regex.matcher fst snd]. destruct s as [|d s].
    + split; [discriminate|].
      intros (w' & rest & Hs & Hw & _). destruct w'; discriminate.
    + rewrite andb_true_iff, IH, Ascii.eqb_eq, !canonicalize_upper.
      cbn [String.length]. rewrite Nat.add_succ_r. split.
      * intros (Hc & w' & rest & -> & Hw & Hk).
        exists (String d w'), rest. cbn. rewrite Hw, Hc. auto.
      * intros (w' & rest & Hs & Hw & Hk).
        destruct w' as [|d' w']; [discriminate|].
        cbn in Hs, Hw. injection Hs as <- ->. injection Hw as Hc Hw.
        split; [now symmetry|]. exists w', rest. auto.
Qed.

Section ClassRepetition.

Variable negated : bool.
Variable items : list Regex.classItem.

Local Abbreviation member :=
  (fun d => xorb negated (Regex.inClass true items d)).
Local Abbreviation body :=
  (Regex.matcher true (Regex.Class negated items)).

Lemma matcher_class (i : nat) (s : string) (k : Regex.State -> bool) :
  body (i, s) k = true
  <-> exists d rest,
        s = String d rest /\ member d = true /\ k (S i, rest) = true.
Proof.
  cbn [Regex.matcher fst snd]. destruct s as [|d s].
  - split; [discriminate | intros (? & ? & ? & _); discriminate].
  - rewrite andb_true_iff. split.
    + intros [H1 H2]. exists d, s. auto.
    + intros (d' & rest & Hs & H1 & H2). inversion Hs; subst. auto.
Qed.

Lemma star_class (fuel i : nat) (s : string) (k : Regex.State -> bool) :
  (String.length s < fuel)%nat ->
  Regex.star body fuel (i, s) k = true
  <-> exists a rest,
        s = a ++ rest /\ allOf member a = true
        /\ k ((i + String.length a)%nat, rest) = true.
Proof.
  revert i s; induction fuel as [|fuel IH]; intros i s Hfuel; [lia|].
  cbn [Regex.star]. rewrite orb_true_iff, matcher_class. split.
  - intros [(d & rest & -> & Hd & Hk)|Hk].
    + cbn [snd String.length] in Hk. apply andb_true_iff in Hk as [_ Hk].
      apply IH in Hk as (a & rest' & -> & Ha & Hk); [|cbn in Hfuel; lia].
      exists (String d a), rest'.
      cbn [allOf String.append String.length].
      rewrite Hd, Ha, Nat.add_succ_r. auto.
    + exists "", s. cbn [allOf String.append String.length].
      rewrite Nat.add_0_r. auto.
  - intros ([|d a] & rest & -> & Ha & Hk).
    + right. cbn [String.append String.length] in Hk.
      now rewrite Nat.add_0_r in Hk.
    + left. cbn [allOf] in Ha. apply andb_true_iff in Ha as [Hd Ha].
      exists d, (a ++ rest). split; [reflexivity|]. split; [exact Hd|].
      cbn [snd String.length String.append]. apply andb_true_iff. split.
      * apply Nat.ltb_lt. lia.
      * apply IH; [cbn [String.length String.append] in Hfuel; lia|].
        exists a, rest. cbn [String.length] in Hk.
        rewrite Nat.add_succ_r in Hk. auto.
Qed.

(** [[...]{min,}] consumes [min] or more members of the class. *)
Lemma matcher_atLeast (min i : nat) (s : string)
      (k : Regex.State -> bool) :
  Regex.matcher true (Regex.AtLeast min (Regex.Class negated items)) (i, s) k
  = true
  <-> exists a rest,
        s = a ++ rest /\ (min <= String.length a)%nat
        /\ allOf member a = true
        /\ k ((i + String.length a)%nat, rest) = true.
Proof.
  change (Regex.matcher true (Regex.AtLeast min (Regex.Class negated items))
                        (i, s) k)
    with (Regex.atLeast body min (i, s) k).
  revert i s; induction min as [|min IH]; intros i s; cbn [Regex.atLeast].
  - cbn [snd]. rewrite star_class by lia. split.
    + intros (a & rest & H1 & H2 & H3). exists a, rest.
      repeat split; auto. lia.
    + intros (a & rest & H1 & _ & H2 & H3). exists a, rest. auto.
  - rewrite matcher_class. split.
    + intros (d & rest & -> & Hd & Hk).
      apply IH in Hk as (a & rest' & -> & Hlen & Ha & Hk).
      exists (String d a), rest'.
      cbn [allOf String.append String.length].
      rewrite Hd, Ha, Nat.add_succ_r.
      repeat split; auto. lia.
    + intros ([|d a] & rest & -> & Hlen & Ha & Hk); [cbn in Hlen; lia|].
      cbn [allOf String.length] in Ha, Hlen, Hk.
      apply andb_true_iff in Ha as [Hd Ha].
      exists d, (a ++ rest). repeat split; auto.
      apply IH. exists a, rest. rewrite Nat.add_succ_r in Hk.
      repeat split; auto. lia.
Qed.

End ClassRepetition.

End MatcherFacts.

Section Languages.

Import UrlGrammar Language.

Lemma Recognizes_ext (r : Regex.regex) (L L' : string -> Prop) :
  (forall a, L a <-> L' a) -> Recognizes r L -> Recognizes r L'.
Proof.
  intros Hext Hr i s k. rewrite (Hr i s k).
  split; intros (a & rest & H1 & H2 & H3); exists a, rest;
    repeat split; auto; now apply Hext.
Qed.

Lemma Recognizes_empty : Recognizes Regex.Empty Eps.
Proof.
  intros i s k. cbn [Regex.matcher]. unfold Eps. split.
  - intros H. exists "", s. cbn. rewrite Nat.add_0_r. auto.
  - intros (a & rest & -> & -> & H). cbn in H.
    now rewrite Nat.add_0_r in H.
Qed.

Lemma Spells_length (w a : string) :
  Spells w a -> String.length a = String.length w.
Proof.
  unfold Spells. revert a; induction w as [|c w IH]; intros [|d a] H;
    cbn in *; try discriminate; [reflexivity|].
  injection H as _ H. now rewrite (IH a H).
Qed.

Lemma Recognizes_lit (w : string) : Recognizes (Regex.lit w) (Spells w).
Proof.
  intros i s k. rewrite matcher_lit.
  split; intros (a & rest & H1 & H2 & H3); exists a, rest;
    pose proof (Spells_length _ _ H2) as Hlen;
    repeat split; auto; congruence.
Qed.

Lemma Recognizes_chr (c : ascii) :
  Recognizes (Regex.Chr c) (Spells (String c "")).
Proof.
  intros i s k.
  change (Regex.matcher true (Regex.Chr c) (i, s) k)
    with (Regex.matcher true (Regex.lit (String c "")) (i, s) k).
  apply Recognizes_lit.
Qed.

Lemma Recognizes_class (negated : bool) (items : list Regex.classItem)
      (p : ascii -> bool) :
  (forall d, xorb negated (Regex.inClass true items d) = p d) ->
  Recognizes (Regex.Class negated items) (One p).
Proof.
  intros Hp i s k. rewrite matcher_class. unfold One. split.
  - intros (d & rest & -> & Hd & Hk). exists (String d ""), rest.
    cbn. rewrite Nat.add_1_r. rewrite Hp in Hd. eauto 6.
  - intros (a & rest & -> & (d & -> & Hd) & Hk). exists d, rest.
    cbn in Hk. rewrite Nat.add_1_r in Hk. rewrite Hp. auto.
Qed.

Lemma Recognizes_atLeast (min : nat) (negated : bool)
      (items : list Regex.classItem) (p : ascii -> bool) :
  (forall d, xorb negated (Regex.inClass true items d) = p d) ->
  Recognizes (Regex.AtLeast min (Regex.Class negated items)) (Many min p).
Proof.
  intros Hp i s k. rewrite matcher_atLeast. unfold Many.
  split.
  - intros (a & rest & H1 & H2 & H3 & H4). exists a, rest.
    rewrite (allOf_ext _ p) in H3 by exact Hp. auto.
  - intros (a & rest & H1 & (H2 & H3) & H4). exists a, rest.
    rewrite (allOf_ext _ p) by exact Hp. auto.
Qed.

Lemma Recognizes_seq (r1 r2 : Regex.regex) (L1 L2 : string -> Prop) :
  Recognizes r1 L1 -> Recognizes r2 L2 ->
  Recognizes (Regex.Seq r1 r2) (Cat L1 L2).
Proof.
  intros H1 H2 i s k. cbn [Regex.matcher]. rewrite (H1 i s). split.
  - intros (a1 & rest1 & -> & Ha1 & Hk).
    apply H2 in Hk as (a2 & rest2 & -> & Ha2 & Hk).
    exists (a1 ++ a2), rest2. rewrite append_assoc, length_append, Nat.add_assoc.
    repeat split; auto. now exists a1, a2.
  - intros (a & rest & -> & (a1 & a2 & -> & Ha1 & Ha2) & Hk).
    exists a1, (a2 ++ rest). rewrite append_assoc. repeat split; auto.
    apply H2. exists a2, rest.
    rewrite length_append, Nat.add_assoc in Hk. auto.
Qed.

Lemma Recognizes_alt (r1 r2 : Regex.regex) (L1 L2 : string -> Prop) :
  Recognizes r1 L1 -> Recognizes r2 L2 ->
  Recognizes (Regex.Alt r1 r2) (Or L1 L2).
Proof.
  intros H1 H2 i s k. cbn [Regex.matcher].
  rewrite orb_true_iff, (H1 i s), (H2 i s). unfold Or. split.
  - intros [(a & rest & H)|(a & rest & H)]; exists a, rest; tauto.
  - intros (a & rest & Hs & [Ha|Ha] & Hk); [left | right];
      exists a, rest; auto.
Qed.

Lemma Recognizes_opt (r : Regex.regex) (L : string -> Prop) :
  Recognizes r L -> Recognizes (Regex.Opt r) (Or L Eps).
Proof.
  intros H i s k.
  change (Regex.matcher true (Regex.Opt r) (i, s) k)
    with (Regex.matcher true (Regex.Alt r Regex.Empty) (i, s) k).
  now apply Recognizes_alt; [|apply Recognizes_empty].
Qed.

End Languages.

Section UrlRegexFacts.

Import UrlGrammar Language.

Lemma upcase_append (a b : string) : upcase (a ++ b) = upcase a ++ upcase b.
Proof. induction a as [|c a IH]; cbn; [reflexivity | now rewrite IH]. Qed.

Lemma Spells_append (u v a b : string) :
  Spells u a -> Spells v b -> Spells (u ++ v) (a ++ b).
Proof. unfold Spells. intros Ha Hb. now rewrite !upcase_append, Ha, Hb. Qed.

Lemma Spells_split (u v p : string) :
  Spells (u ++ v) p -> exists a b, p = a ++ b /\ Spells u a /\ Spells v b.
Proof.
  unfold Spells. revert p; induction u as [|c u IH]; intros p H.
  - exists "", p. auto.
  - destruct p as [|d p]; [discriminate|]. cbn in H. injection H as Hd H.
    destruct (IH p H) as (a & b & -> & Ha & Hb).
    exists (String d a), b. cbn. rewrite Hd, Ha. auto.
Qed.

Lemma upper_dot (d : ascii) : upper d = "."%char -> d = "."%char.
Proof.
  destruct d as [[] [] [] [] [] [] [] []]; vm_compute; intros H;
    try reflexivity; discriminate.
Qed.

Lemma Spells_dot (x : string) : Spells "." x <-> x = ".".
Proof.
  unfold Spells. split; [|now intros ->].
  destruct x as [|d [|e x]]; cbn; intros H; try discriminate.
  injection H as H. now rewrite (upper_dot d H).
Qed.

(** *** The two host patterns *)

Lemma hyphenHost_words : Recognizes Regex.hyphenHost hyphenHostWords.
Proof.
  unfold Regex.hyphenHost, hyphenHostWords. cbn [Regex.seqs].
  repeat apply Recognizes_seq.
  - apply Recognizes_class, alnum_class.
  - apply Recognizes_atLeast, alnumHyphen_class.
  - apply Recognizes_class, alnum_class.
  - apply Recognizes_chr.
  - apply Recognizes_atLeast, nonSpace_class.
  - apply Recognizes_empty.
Qed.

Lemma simpleHost_words : Recognizes Regex.simpleHost simpleHostWords.
Proof.
  unfold Regex.simpleHost, simpleHostWords. cbn [Regex.seqs].
  repeat apply Recognizes_seq.
  - apply Recognizes_atLeast, alnum_class.
  - apply Recognizes_chr.
  - apply Recognizes_atLeast, nonSpace_class.
  - apply Recognizes_empty.
Qed.

Lemma dot_tail_words (a : string) :
  Cat (Spells ".") (Cat (Many 2 isNonSpace) Eps) a
  <-> exists t, a = "." ++ t /\ Tail t.
Proof.
  unfold Cat, Many, Eps, Tail. split.
  - intros (x & y & -> & Hx & t & e & -> & Ht & ->).
    apply (proj1 (Spells_dot x)) in Hx. subst x. exists t.
    now rewrite append_nil_r.
  - intros (t & -> & Ht). exists ".", t. split; [reflexivity|].
    split; [now apply Spells_dot|]. exists t, "".
    now rewrite append_nil_r.
Qed.

Lemma hyphenHost_iff (r : string) :
  hyphenHostWords r
  <-> exists l t, r = l ++ "." ++ t /\ HyphenLabel l /\ Tail t.
Proof.
  unfold hyphenHostWords, HyphenLabel. split.
  - intros (x & y & -> & (a & -> & Ha) & mid & z & -> & (Hlen & Hmid)
            & w & v & -> & (b & -> & Hb) & Hv).
    apply dot_tail_words in Hv as (t & -> & Ht).
    exists (String a (mid ++ String b "")), t. split.
    + cbn. now rewrite !append_assoc.
    + split; [|exact Ht]. exists a, mid, b. auto.
  - intros (l & t & -> & (a & mid & b & -> & Ha & Hlen & Hmid & Hb) & Ht).
    exists (String a ""), (mid ++ String b "" ++ "." ++ t). split.
    + cbn. now rewrite !append_assoc.
    + split; [now exists a|].
      exists mid, (String b "" ++ "." ++ t). split; [reflexivity|].
      split; [split; assumption|].
      exists (String b ""), ("." ++ t). split; [reflexivity|].
      split; [now exists b|]. apply dot_tail_words. now exists t.
Qed.

Lemma simpleHost_iff (r : string) :
  simpleHostWords r
  <-> exists l t, r = l ++ "." ++ t /\ SimpleLabel l /\ Tail t.
Proof.
  unfold simpleHostWords, SimpleLabel. split.
  - intros (l & y & -> & Hl & Hy).
    apply dot_tail_words in Hy as (t & -> & Ht). exists l, t. auto.
  - intros (l & t & -> & Hl & Ht). exists l, ("." ++ t).
    split; [reflexivity|]. split; [exact Hl|].
    apply dot_tail_words. now exists t.
Qed.

Lemma Host_iff (r : string) :
  Host r <-> hyphenHostWords r \/ simpleHostWords r.
Proof.
  rewrite hyphenHost_iff, simpleHost_iff. unfold Host, Label. split.
  - intros (l & t & Hr & [Hl|Hl] & Ht); [left | right]; exists l, t; auto.
  - intros [(l & t & Hr & Hl & Ht)|(l & t & Hr & Hl & Ht)];
      exists l, t; auto.
Qed.

(** *** The prefixes *)

Lemma scheme_words :
  Recognizes
    (Regex.seqs [Regex.lit "http"; Regex.Opt (Regex.Chr "s"); Regex.lit "://"])
    Scheme.
Proof.
  eapply Recognizes_ext;
    [|cbn [Regex.seqs];
      apply Recognizes_seq;
      [apply Recognizes_lit
      |apply Recognizes_seq;
       [apply Recognizes_opt, Recognizes_chr
       |apply Recognizes_seq;
        [apply Recognizes_lit | apply Recognizes_empty]]]].
  intros p. unfold Cat, Or, Eps, Scheme. split.
  - intros (a1 & x & -> & H1 & a2 & y & -> & H2 & a3 & e & -> & H3 & ->).
    rewrite append_nil_r. destruct H2 as [H2| ->].
    + right. apply (Spells_append "http" "s://"); [exact H1|].
      now apply (Spells_append "s" "://").
    + left. now apply (Spells_append "http" "://").
  - intros [H|H].
    + apply (Spells_split "http" "://") in H as (a1 & a3 & -> & H1 & H3).
      exists a1, a3. repeat split; auto.
      exists "", a3. repeat split; auto.
      exists a3, "". now rewrite append_nil_r.
    + apply (Spells_split "http" "s://") in H as (a1 & x & -> & H1 & H).
      apply (Spells_split "s" "://") in H as (a2 & a3 & -> & H2 & H3).
      exists a1, (a2 ++ a3). repeat split; auto.
      exists a2, a3. repeat split; auto.
      exists a3, "". now rewrite append_nil_r.
Qed.

Lemma notAhead_www (i : nat) (r : string) :
  Regex.matcher true (Regex.lit "www") (i, r) (fun _ => true) = true
  <-> StartsWww r.
Proof.
  rewrite (Recognizes_lit "www" i r (fun _ => true)). unfold StartsWww.
  split; intros (w & rest & H); exists w, rest; tauto.
Qed.

(** [https?:\/\/(?:www\.|(?!www))]: the scheme, then either [www.] or a
    rest that does not begin with [www]. *)
Lemma schemePrefix_iff (i : nat) (s : string) (k : Regex.State -> bool) :
  Regex.matcher true Regex.schemePrefix (i, s) k = true
  <-> exists p r,
        s = p ++ r
        /\ (Scheme p /\ ~ StartsWww r \/ SchemeWww p)
        /\ k ((i + String.length p)%nat, r) = true.
Proof.
  change (Regex.matcher true Regex.schemePrefix (i, s) k)
    with (Regex.matcher true
            (Regex.seqs [Regex.lit "http"; Regex.Opt (Regex.Chr "s");
                         Regex.lit "://"]) (i, s)
            (fun y =>
               Regex.matcher true (Regex.lit "www.") y k
               || negb (Regex.matcher true (Regex.lit "www") y (fun _ => true))
                  && k y)).
  rewrite (scheme_words i s). split.
  - intros (a & rest & -> & Ha & Hk).
    apply orb_true_iff in Hk as [Hk|Hk].
    + apply (Recognizes_lit "www.") in Hk as (b & r & -> & Hb & Hk).
      exists (a ++ b), r. rewrite append_assoc, length_append, Nat.add_assoc.
      repeat split; auto. right. now exists a, b.
    + apply andb_true_iff in Hk as [Hno Hk].
      exists a, rest. repeat split; auto. left. split; [exact Ha|].
      intros Hwww. apply (notAhead_www (i + String.length a)) in Hwww.
      now rewrite Hwww in Hno.
  - intros (p & r & -> & [[Hp Hno]|(a & b & -> & Ha & Hb)] & Hk).
    + exists p, r. repeat split; auto.
      apply orb_true_iff. right. apply andb_true_iff. split; [|exact Hk].
      apply negb_true_iff, not_true_iff_false.
      intros H. apply Hno. now apply (notAhead_www (i + String.length p)).
    + exists a, (b ++ r). rewrite append_assoc. repeat split; auto.
      apply orb_true_iff. left. apply (Recognizes_lit "www.").
      exists b, r. rewrite length_append, Nat.add_assoc in Hk. auto.
Qed.

(** *** The anchored pattern *)

Lemma atEnd_iff (j : nat) (r : string) : atEnd (j, r) = true <-> r = "".
Proof. destruct r; cbn; split; intros H; auto; discriminate. Qed.

Lemma whole_input (h : Regex.regex) (L : string -> Prop) (j : nat)
      (r : string) :
  Recognizes h L -> Regex.matcher true h (j, r) atEnd = true <-> L r.
Proof.
  intros Hh. rewrite (Hh j r). split.
  - intros (a & rest & -> & Ha & Hk). apply atEnd_iff in Hk. subst rest.
    now rewrite append_nil_r.
  - intros Hr. exists r, "". rewrite append_nil_r.
    repeat split; auto.
Qed.

Lemma execFrom_anchored (s : string) (i : nat) :
  Regex.execFrom Regex.urlRegex (S i) s = false.
Proof.
  revert i; induction s as [|c s IH]; intros i; cbn [Regex.execFrom].
  - reflexivity.
  - rewrite IH. reflexivity.
Qed.

Lemma isUrl_alternatives (s : string) :
  CheckIf.isUrl s
  = Regex.matcher true Regex.urlAlternatives (O, s) atEnd.
Proof.
  unfold CheckIf.isUrl, Regex.test.
  destruct s as [|c s]; cbn [Regex.execFrom];
    rewrite ?execFrom_anchored, ?orb_false_r; reflexivity.
Qed.

(** From an alternative that matched to the host it read, and back. *)
Ltac read_host words side :=
  match goal with
  | Hr : Regex.matcher true _ _ Language.atEnd = true |- _ =>
      apply (whole_input _ _ _ _ words) in Hr;
      split; [tauto | apply Host_iff; side; exact Hr]
  end.

Ltac write_host p r words :=
  exists p, r; repeat split;
  [tauto | now apply (whole_input _ _ _ _ words)].

Lemma isUrl_iff_Accepted (s : string) :
  CheckIf.isUrl s = true <-> Accepted s.
Proof.
  rewrite isUrl_alternatives.
  unfold Regex.urlAlternatives. cbn [Regex.alts Regex.matcher].
  rewrite !orb_true_iff, !schemePrefix_iff, !(Recognizes_lit "www." O s).
  unfold Accepted. split.
  - intros [H|[H|[H|H]]]; destruct H as (p & r & -> & Hp & Hr);
      exists p, r; (split; [reflexivity|]).
    + read_host hyphenHost_words ltac:(left).
    + read_host hyphenHost_words ltac:(left).
    + read_host simpleHost_words ltac:(right).
    + read_host simpleHost_words ltac:(right).
  - intros (p & r & -> & Hp & Hr). apply Host_iff in Hr as [Hr|Hr].
    + destruct Hp as [Hp|[Hp|Hp]].
      * left. write_host p r hyphenHost_words.
      * left. write_host p r hyphenHost_words.
      * right; left. write_host p r hyphenHost_words.
    + destruct Hp as [Hp|[Hp|Hp]].
      * right; right; left. write_host p r simpleHost_words.
      * right; right; left. write_host p r simpleHost_words.
      * right; right; right. write_host p r simpleHost_words.
Qed.

End UrlRegexFacts.

Section UrlEnds.

Import UrlGrammar.

Lemma take_append_exact (h rest : string) :
  Position.take (String.length h) (h ++ rest) = h.
Proof. induction h as [|c h IH]; cbn; [now destruct rest | now rewrite IH]. Qed.

Lemma upcase_take (n : nat) (s : string) :
  upcase (Position.take n s) = Position.take n (upcase s).
Proof.
  revert s; induction n as [|n IH]; intros [|c s]; cbn; try reflexivity.
  now rewrite IH.
Qed.

Lemma take_take (n m : nat) (s : string) :
  (n <= m)%nat -> Position.take n (Position.take m s) = Position.take n s.
Proof.
  revert m s; induction n as [|n IH]; intros [|m] [|c s] H; cbn;
    try reflexivity; try lia.
  rewrite IH; [reflexivity | lia].
Qed.

(** The first four characters of [h ++ rest] when [h] spells a word that
    begins with the four-letter word [word4]. *)
Lemma head_of_spelling (word4 more h rest : string) :
  String.length word4 = 4%nat ->
  Spells (word4 ++ more) h ->
  upcase (Position.take 4 (h ++ rest)) = upcase word4.
Proof.
  intros Hlen Hh.
  apply Spells_split in Hh as (a & b & -> & Ha & Hb).
  pose proof (Spells_length _ _ Ha) as Hla. rewrite Hlen in Hla.
  rewrite append_assoc, <- Hla, take_append_exact. exact Ha.
Qed.

Lemma Scheme_head (p rest : string) :
  Scheme p -> upcase (Position.take 4 (p ++ rest)) = "HTTP".
Proof.
  intros [H|H].
  - exact (head_of_spelling "http" "://" p rest eq_refl H).
  - exact (head_of_spelling "http" "s://" p rest eq_refl H).
Qed.

(** An accepted string begins with [http] or [www.], ignoring case. *)
Lemma Accepted_head (s : string) :
  Accepted s ->
  upcase (Position.take 4 s) = "HTTP" \/ upcase (Position.take 4 s) = "WWW.".
Proof.
  intros (p & r & -> & [[Hp _]|[(a & b & -> & Ha & _)|Hp]] & _).
  - left. now apply Scheme_head.
  - left. rewrite append_assoc. now apply Scheme_head.
  - right. exact (head_of_spelling "www." "" p r eq_refl Hp).
Qed.

Lemma isUrl_no_leading (s : string) (c : ascii) :
  CheckIf.isUrl s = true -> CheckIf.isUrl (String c s) = false.
Proof.
  intros Hs. apply not_true_iff_false. intros Hcs.
  apply isUrl_iff_Accepted, Accepted_head in Hs, Hcs.
  change (Position.take 4 (String c s))
    with (String c (Position.take 3 s)) in Hcs.
  change (upcase (String c (Position.take 3 s)))
    with (String (upper c) (upcase (Position.take 3 s))) in Hcs.
  rewrite <- (take_take 3 4 s), upcase_take in Hcs by lia.
  destruct Hs as [Hs|Hs]; rewrite Hs in Hcs;
    destruct Hcs as [Hcs|Hcs]; discriminate.
Qed.

Lemma last_of_append (x t s : string) (c : ascii) :
  t <> "" -> x ++ t = s ++ String c "" -> exists t', t = t' ++ String c "".
Proof.
  revert s; induction x as [|d x IH]; intros s Ht H.
  - now exists s.
  - destruct s as [|e s]; cbn in H; injection H as _ H.
    + destruct x; [contradiction | discriminate].
    + now apply (IH s).
Qed.

Lemma isUrl_no_trailing_space (s : string) (c : ascii) :
  Js.isWhiteSpace c = true -> CheckIf.isUrl (s ++ String c "") = false.
Proof.
  intros Hc. apply not_true_iff_false. intros Hurl.
  apply isUrl_iff_Accepted in Hurl
    as (p & r & Hs & _ & l & t & -> & _ & Hlen & Ht).
  rewrite <- !append_assoc in Hs. symmetry in Hs.
  apply last_of_append in Hs as (t' & ->);
    [|intros ->; cbn in Hlen; lia].
  rewrite allOf_append in Ht. apply andb_true_iff in Ht as [_ Ht].
  cbn in Ht. unfold isNonSpace in Ht. now rewrite Hc in Ht.
Qed.

Lemma Accepted_Described (s : string) : Accepted s -> Described s.
Proof.
  intros (p & r & Hs & Hp & Hr). exists p, r. repeat split; auto. tauto.
Qed.

End UrlEnds.

(** C8, amended. [isUrl] is true exactly for the strings of the grammar of
    regex.ts, all of which belong to the grammar as the specification words
    it: ignoring case, the scheme [http://] or [https://] followed by a host
    that does not begin with [www], or the scheme followed by [www.] and a
    host, or a bare [www.] and a host; a host being a label (letters and
    digits, or three or more characters with hyphens allowed inside), a dot
    and two or more characters that are not white space.  A string that
    [isUrl] accepts is no longer accepted with any character put in front
    of it, and no string that ends with a white-space character is
    accepted. *)
Theorem isUrl_grammar :
  (forall s, CheckIf.isUrl s = true <-> UrlGrammar.Accepted s)
  /\ (forall s, UrlGrammar.Accepted s -> UrlGrammar.Described s)
  /\ (forall s c, CheckIf.isUrl s = true -> CheckIf.isUrl (String c s) = false)
  /\ (forall s c, Js.isWhiteSpace c = true ->
                  CheckIf.isUrl (s ++ String c "") = false).
Proof.
  split; [exact isUrl_iff_Accepted|].
  split; [exact Accepted_Described|].
  split; [exact isUrl_no_leading | exact isUrl_no_trailing_space].
Qed.

(** C8, as stated, fails: [http://wwwx.com] is a scheme, a domain label, a
    dot and three characters that are not white space, and [isUrl] rejects
    it. *)
Lemma isUrl_rejects_www_label :
  UrlGrammar.Described "http://wwwx.com"
  /\ CheckIf.isUrl "http://wwwx.com" = false.
Proof.
  split; [|reflexivity].
  exists "http://", "wwwx.com". split; [reflexivity|].
  split; [left; left; reflexivity|].
  exists "wwwx", "com". split; [reflexivity|].
  split; [right | ]; split; try reflexivity; cbn; lia.
Qed.

Lemma isUrl_grammar_witness :
  CheckIf.isUrl "https://example.com/a?b=1" = true
  /\ UrlGrammar.Accepted "https://example.com/a?b=1"
  /\ CheckIf.isUrl (String "x" "https://example.com/a?b=1") = false
  /\ CheckIf.isUrl ("https://example.com/a?b=1" ++ String Js.LF "") = false.
Proof.
  destruct isUrl_grammar as (Hiff & _ & Hlead & Htrail).
  assert (H : CheckIf.isUrl "https://example.com/a?b=1" = true)
    by reflexivity.
  split; [exact H|]. split; [apply Hiff; exact H|].
  split; [apply Hlead; exact H | apply Htrail; reflexivity].
Defined.

(** ** The block codec: what a round trip can keep *)

(** The escaping of the extractor is undone, without loss, by decoding the
    two escapes. *)
Lemma unescape_escape (s : string) :
  Escaping.unescape (Escaping.escape s) = s.
Proof.
  unfold Escaping.escape.
  induction s as [|c s IH]; [reflexivity|].
  cbn [Js.replaceChar].
  destruct (Ascii.eqb c Js.BACKSLASH) eqn:Hb.
  - apply Ascii.eqb_eq in Hb. subst c. cbn. now rewrite IH.
  - cbn [Js.replaceChar].
    destruct (Ascii.eqb c Js.DQUOTE) eqn:Hq.
    + apply Ascii.eqb_eq in Hq. subst c. cbn. now rewrite IH.
    + cbn [Escaping.unescape]. now rewrite Hb, IH.
Qed.

(** The normalization of the extractor is that escaping, between the
    removal of the line breaks and the trimming. *)
Lemma normalize_escape (s : string) :
  LinkMetadataParser.normalize (Some s)
  = Some (Js.trim (Escaping.escape (Js.removeNewlines s))).
Proof. reflexivity. Qed.

(** An optional field that holds the empty string is serialized like an
    absent one. *)
Lemma genCodeBlock_empty_description (m : LinkMetadata) :
  description m = Some "" ->
  CodeBlockGenerator.genCodeBlock m
  = CodeBlockGenerator.genCodeBlock
      {| url := url m; title := title m; description := None;
         host := host m; favicon := favicon m; image := image m;
         indent := indent m |}.
Proof.
  intros H. unfold CodeBlockGenerator.genCodeBlock. cbn [description url title
    host favicon image]. now rewrite H.
Qed.

Lemma concat_cons (sep x y : string) (ys : list string) :
  String.concat sep (x :: y :: ys) = x ++ sep ++ String.concat sep (y :: ys).
Proof. reflexivity. Qed.

Lemma noBreak_eqb (c : ascii) :
  Escaping.noBreak c = true ->
  Ascii.eqb c Js.CR = false /\ Ascii.eqb c Js.LF = false.
Proof.
  unfold Escaping.noBreak. rewrite andb_true_iff, !negb_true_iff. tauto.
Qed.

Lemma splitLines_line (l rest : string) :
  Escaping.oneLine l = true ->
  CodeBlockProcessor.splitLines (l ++ Js.nl ++ rest)
  = l :: CodeBlockProcessor.splitLines rest.
Proof.
  unfold Escaping.oneLine.
  induction l as [|c l IH]; intros Hl; [reflexivity|].
  cbn [UrlGrammar.allOf] in Hl. apply andb_true_iff in Hl as [Hc Hl].
  apply noBreak_eqb in Hc as [Hcr Hlf].
  cbn [String.append CodeBlockProcessor.splitLines].
  now rewrite Hcr, Hlf, (IH Hl).
Qed.

Lemma splitLines_last (l : string) :
  Escaping.oneLine l = true -> CodeBlockProcessor.splitLines l = [l].
Proof.
  unfold Escaping.oneLine.
  induction l as [|c l IH]; intros Hl; [reflexivity|].
  cbn [UrlGrammar.allOf] in Hl. apply andb_true_iff in Hl as [Hc Hl].
  apply noBreak_eqb in Hc as [Hcr Hlf].
  cbn [CodeBlockProcessor.splitLines]. now rewrite Hcr, Hlf, (IH Hl).
Qed.

(** Splitting undoes joining when no line holds a line break. *)
Lemma splitLines_concat (ls : list string) (last : string) :
  Forall (fun l => Escaping.oneLine l = true) ls ->
  Escaping.oneLine last = true ->
  CodeBlockProcessor.splitLines (String.concat Js.nl (ls ++ [last]))
  = (ls ++ [last])%list.
Proof.
  intros Hls Hlast. induction Hls as [|l ls Hl Hls IH]; cbn [app].
  - cbn. now apply splitLines_last.
  - destruct (ls ++ [last])%list as [|y ys] eqn:Htail;
      [now destruct ls|].
    rewrite concat_cons, splitLines_line by assumption. now rewrite IH.
Qed.

Lemma mapLines_untabbed (indent : Z) (lines : list string) :
  Forall (fun l => CodeBlockProcessor.leadingTabs l = O) lines ->
  CodeBlockProcessor.mapLines indent lines = (indent, lines).
Proof.
  intros H. induction H as [|l ls Hl Hls IH]; [reflexivity|].
  cbn [CodeBlockProcessor.mapLines]. unfold CodeBlockProcessor.replaceTabs.
  now rewrite Hl, IH.
Qed.

Lemma concat_closing_fence (xs : list string) :
  String.concat Js.nl (xs ++ ["```" ++ Js.nl])
  = String.concat Js.nl (xs ++ ["```"; ""]).
Proof.
  induction xs as [|x xs IH]; [reflexivity|]. cbn [app].
  destruct xs as [|y ys]; [reflexivity|]. cbn [app] in *.
  now rewrite !concat_cons, IH.
Qed.

Lemma oneLine_append (a b : string) :
  Escaping.oneLine (a ++ b) = Escaping.oneLine a && Escaping.oneLine b.
Proof. apply allOf_append. Qed.

Lemma fieldLine_plain (key : string) (render : string -> string)
      (v : option string) :
  Escaping.oneLine key = true ->
  CodeBlockProcessor.leadingTabs (key ++ ": ") = O ->
  (forall s, Escaping.oneLine s = true -> Escaping.oneLine (render s) = true) ->
  Escaping.oneLineOpt v = true ->
  Forall (fun l => Escaping.oneLine l = true
                   /\ CodeBlockProcessor.leadingTabs l = O)
         (BlockFormat.fieldLine key render v).
Proof.
  intros Hkey Htab Hrender Hv.
  destruct v as [[|c s]|]; cbn [BlockFormat.fieldLine]; constructor; [|constructor].
  split.
  - rewrite !oneLine_append, Hkey, (Hrender _ Hv). reflexivity.
  - destruct key as [|k key]; [reflexivity|].
    cbn [String.append CodeBlockProcessor.leadingTabs] in *.
    now destruct (Ascii.eqb k Js.TAB).
Qed.

Lemma oneLine_quoted (s : string) :
  Escaping.oneLine s = true -> Escaping.oneLine (BlockFormat.quoted s) = true.
Proof.
  intros H. unfold BlockFormat.quoted.
  change (String Js.DQUOTE (s ++ String Js.DQUOTE ""))
    with (String Js.DQUOTE "" ++ s ++ String Js.DQUOTE "").
  now rewrite !oneLine_append, H.
Qed.

Lemma fieldLines_plain (m : LinkMetadata) :
  Escaping.oneLineRecord m = true ->
  Forall (fun l => Escaping.oneLine l = true
                   /\ CodeBlockProcessor.leadingTabs l = O)
         (BlockFormat.fieldLines m).
Proof.
  unfold Escaping.oneLineRecord. rewrite !andb_true_iff.
  intros [[[[[Hu Ht] Hd] Hh] Hf] Hi].
  unfold BlockFormat.fieldLines. cbn [List.concat].
  apply Forall_app; split.
  { constructor; [|constructor]. split; [|reflexivity].
    now rewrite oneLine_append, Hu. }
  apply Forall_app; split.
  { constructor; [|constructor]. split; [|reflexivity].
    now rewrite oneLine_append, (oneLine_quoted _ Ht). }
  apply Forall_app; split.
  { apply fieldLine_plain; auto using oneLine_quoted. }
  apply Forall_app; split.
  { apply fieldLine_plain; auto. }
  apply Forall_app; split.
  { apply fieldLine_plain; auto. }
  apply Forall_app; split.
  { apply fieldLine_plain; auto. }
  constructor.
Qed.

(** The pre-processing of parse leaves a serialized block as it is, and
    finds no tab indentation in it. *)
Lemma preprocess_genCodeBlock (m : LinkMetadata) :
  Escaping.oneLineRecord m = true ->
  CodeBlockProcessor.preprocess (CodeBlockGenerator.genCodeBlock m)
  = (-1, CodeBlockGenerator.genCodeBlock m).
Proof.
  intros Hm. pose proof (fieldLines_plain m Hm) as Hlines.
  set (fl := BlockFormat.fieldLines m) in *.
  assert (Htext : CodeBlockGenerator.genCodeBlock m
                  = String.concat Js.nl
                      (("" :: "```cardlink" :: fl ++ ["```"]) ++ [""])).
  { rewrite genCodeBlock_lines. fold fl.
    change ((Js.nl ++ "```cardlink") :: fl ++ ["```" ++ Js.nl])
      with (List.app ((Js.nl ++ "```cardlink") :: fl) ["```" ++ Js.nl]).
    rewrite concat_closing_fence. cbn [app].
    rewrite <- app_assoc. cbn [app].
    destruct (fl ++ ["```"; ""])%list eqn:Hl; [now destruct fl|].
    rewrite !concat_cons. reflexivity. }
  assert (Hone : Forall (fun l => Escaping.oneLine l = true)
                        ("" :: "```cardlink" :: fl ++ ["```"])).
  { constructor; [reflexivity|]. constructor; [reflexivity|].
    apply Forall_app; split.
    - eapply Forall_impl; [|exact Hlines]. now intros l [H _].
    - constructor; [reflexivity | constructor]. }
  assert (Htab : Forall (fun l => CodeBlockProcessor.leadingTabs l = O)
                        (("" :: "```cardlink" :: fl ++ ["```"]) ++ [""])).
  { apply Forall_app; split; [|constructor; [reflexivity | constructor]].
    constructor; [reflexivity|]. constructor; [reflexivity|].
    apply Forall_app; split.
    - eapply Forall_impl; [|exact Hlines]. now intros l [_ H].
    - constructor; [reflexivity | constructor]. }
  unfold CodeBlockProcessor.preprocess.
  rewrite Htext at 1.
  rewrite (splitLines_concat _ "" Hone eq_refl).
  rewrite (mapLines_untabbed _ _ Htab).
  unfold Js.join. now rewrite <- Htext.
Qed.

(** Parsing a serialized block: the mapping parser is given the block as
    serialized, and its answer alone decides the outcome; the indent is the
    sentinel. *)
Lemma parse_genCodeBlock (parseYaml : string -> YamlOutcome)
      (m : LinkMetadata) (yaml : JsValue) :
  Escaping.oneLineRecord m = true ->
  parseYaml (CodeBlockGenerator.genCodeBlock m) = YamlReturns yaml ->
  ~ Required.Rejected yaml ->
  CodeBlockProcessor.parseLinkMetadataFromYaml
    parseYaml (CodeBlockGenerator.genCodeBlock m)
  = Return {| Parsed.url := Value.get yaml "url";
              Parsed.title := Value.get yaml "title";
              Parsed.description := Value.get yaml "description";
              Parsed.host := Value.get yaml "host";
              Parsed.favicon := Value.get yaml "favicon";
              Parsed.image := Value.get yaml "image";
              Parsed.indent := -1 |}.
Proof.
  intros Hm Hyaml Hnot.
  destruct (parse_cases_of parseYaml (CodeBlockGenerator.genCodeBlock m))
    as [(Hy & _)|[(y & Hy & Hrej & _)|(y & Hy & _ & Hp)]];
    rewrite (preprocess_genCodeBlock m Hm) in *; cbn [fst snd] in *;
    rewrite Hyaml in Hy; try discriminate; injection Hy as <-.
  - contradiction.
  - exact Hp.
Qed.

(** ** The extractor: normalization of titles and descriptions *)

Lemma escape_cons (c : ascii) (s : string) :
  Escaping.escape (String c s) = Escaped.escapeChar c ++ Escaping.escape s.
Proof.
  unfold Escaping.escape, Escaped.escapeChar. cbn [Js.replaceChar].
  destruct (Ascii.eqb c Js.BACKSLASH) eqn:Hb; [reflexivity|].
  cbn [Js.replaceChar].
  destruct (Ascii.eqb c Js.DQUOTE); reflexivity.
Qed.

Lemma escapeChar_blank (c : ascii) :
  Js.isWhiteSpace c = true -> Escaped.escapeChar c = String c "".
Proof.
  intros Hc. unfold Escaped.escapeChar.
  destruct (Ascii.eqb c Js.BACKSLASH) eqn:Hb.
  - apply Ascii.eqb_eq in Hb. subst c. discriminate.
  - destruct (Ascii.eqb c Js.DQUOTE) eqn:Hq; [|reflexivity].
    apply Ascii.eqb_eq in Hq. subst c. discriminate.
Qed.

(** The escape of a character that is not white space neither starts nor
    ends with white space, and is not empty. *)
Lemma escapeChar_solid (c : ascii) :
  Js.isWhiteSpace c = false ->
  exists d e, Escaped.escapeChar c = String d e
              /\ Js.isWhiteSpace d = false
              /\ Js.trimEnd (Escaped.escapeChar c) = Escaped.escapeChar c.
Proof.
  intros Hc. unfold Escaped.escapeChar.
  destruct (Ascii.eqb c Js.BACKSLASH) eqn:Hb.
  - exists Js.BACKSLASH, (String Js.BACKSLASH ""). repeat split.
  - destruct (Ascii.eqb c Js.DQUOTE) eqn:Hq.
    + exists Js.BACKSLASH, (String Js.DQUOTE ""). repeat split.
    + exists c, "". cbn. now rewrite Hc.
Qed.

Lemma trimStart_escape (s : string) :
  Js.trimStart (Escaping.escape s) = Escaping.escape (Js.trimStart s).
Proof.
  induction s as [|c s IH]; [reflexivity|].
  rewrite escape_cons. cbn [Js.trimStart].
  destruct (Js.isWhiteSpace c) eqn:Hc.
  - rewrite (escapeChar_blank c Hc). cbn. now rewrite Hc.
  - destruct (escapeChar_solid c Hc) as (d & e & He & Hd & _).
    rewrite escape_cons, He. cbn. now rewrite Hd.
Qed.

Lemma trimEnd_append_blank (a b : string) :
  Js.trimEnd b = "" -> Js.trimEnd (a ++ b) = Js.trimEnd a.
Proof.
  intros Hb. induction a as [|c a IH]; cbn; [exact Hb | now rewrite IH].
Qed.

Lemma trimEnd_append_solid (a b : string) :
  Js.trimEnd b <> "" -> Js.trimEnd (a ++ b) = a ++ Js.trimEnd b.
Proof.
  intros Hb. induction a as [|c a IH]; cbn; [reflexivity|].
  rewrite IH. destruct (a ++ Js.trimEnd b) eqn:Hab; [|reflexivity].
  destruct a; cbn in Hab; [contradiction | discriminate].
Qed.

Lemma escape_nil (s : string) : Escaping.escape s = "" -> s = "".
Proof.
  destruct s as [|c s]; [reflexivity|]. rewrite escape_cons.
  unfold Escaped.escapeChar.
  destruct (Ascii.eqb c Js.BACKSLASH); [discriminate|].
  destruct (Ascii.eqb c Js.DQUOTE); discriminate.
Qed.

Lemma trimEnd_escape (s : string) :
  Js.trimEnd (Escaping.escape s) = Escaping.escape (Js.trimEnd s).
Proof.
  induction s as [|c s IH]; [reflexivity|].
  rewrite escape_cons. cbn [Js.trimEnd].
  destruct (Js.trimEnd s) as [|d t] eqn:Ht.
  - rewrite trimEnd_append_blank by exact IH.
    destruct (Js.isWhiteSpace c) eqn:Hc.
    + rewrite (escapeChar_blank c Hc). cbn. now rewrite Hc.
    + destruct (escapeChar_solid c Hc) as (_ & _ & _ & _ & Hsolid).
      rewrite Hsolid, escape_cons. cbn. now rewrite append_nil_r.
  - rewrite trimEnd_append_solid, IH, (escape_cons c); [reflexivity|].
    rewrite IH. intros H. apply escape_nil in H. discriminate.
Qed.

(** Trimming after escaping is escaping after trimming: no escape is cut. *)
Lemma trim_escape (s : string) :
  Js.trim (Escaping.escape s) = Escaping.escape (Js.trim s).
Proof. unfold Js.trim. now rewrite trimStart_escape, trimEnd_escape. Qed.

Lemma escape_inj (a b : string) :
  Escaping.escape a = Escaping.escape b -> a = b.
Proof.
  intros H. apply (f_equal Escaping.unescape) in H.
  now rewrite !unescape_escape in H.
Qed.

(** X1. Normalization keeps everything of a title or description but its
    line breaks and the white space around it: two texts normalize to the
    same value exactly when they agree once their line breaks are removed
    and they are trimmed.  The escaping of backslashes and double quotes
    never merges two texts. *)
Theorem normalize_eq_iff (a b : string) :
  LinkMetadataParser.normalize (Some a) = LinkMetadataParser.normalize (Some b)
  <-> Js.trim (Js.removeNewlines a) = Js.trim (Js.removeNewlines b).
Proof.
  rewrite !normalize_escape, !trim_escape. split.
  - intros H. injection H as H. now apply escape_inj.
  - intros H. now rewrite H.
Qed.

Lemma removeNewlines_cons (c : ascii) (s : string) :
  Js.removeNewlines (String c s)
  = if Ascii.eqb c Js.CR then
      match s with
      | String d s' =>
          if Ascii.eqb d Js.LF then Js.removeNewlines s'
          else Js.removeNewlines s
      | EmptyString => EmptyString
      end
    else if Ascii.eqb c Js.LF then Js.removeNewlines s
    else String c (Js.removeNewlines s).
Proof. reflexivity. Qed.

Lemma removeNewlines_oneLine (s : string) :
  Escaping.oneLine (Js.removeNewlines s) = true.
Proof.
  unfold Escaping.oneLine.
  assert (H : UrlGrammar.allOf Escaping.noBreak (Js.removeNewlines s) = true
              /\ forall c, UrlGrammar.allOf Escaping.noBreak
                             (Js.removeNewlines (String c s)) = true);
    [|exact (proj1 H)].
  induction s as [|d s [IH1 IH2]]; split; try reflexivity.
  - intros c. cbn.
    destruct (Ascii.eqb c Js.CR) eqn:Hcr; [reflexivity|].
    destruct (Ascii.eqb c Js.LF) eqn:Hlf; [reflexivity|].
    cbn. unfold Escaping.noBreak. now rewrite Hcr, Hlf.
  - apply IH2.
  - intros c. rewrite removeNewlines_cons.
    destruct (Ascii.eqb c Js.CR) eqn:Hcr.
    + destruct (Ascii.eqb d Js.LF); [exact IH1 | apply IH2].
    + destruct (Ascii.eqb c Js.LF) eqn:Hlf; [apply IH2|].
      cbn [UrlGrammar.allOf]. unfold Escaping.noBreak at 1.
      rewrite Hcr, Hlf. apply IH2.
Qed.

Lemma escape_allOf (p : ascii -> bool) (s : string) :
  p Js.BACKSLASH = true -> p Js.DQUOTE = true ->
  UrlGrammar.allOf p s = true ->
  UrlGrammar.allOf p (Escaping.escape s) = true.
Proof.
  intros Hb Hq. induction s as [|c s IH]; intros Hs; [reflexivity|].
  cbn [UrlGrammar.allOf] in Hs. apply andb_true_iff in Hs as [Hc Hs].
  rewrite escape_cons, allOf_append, (IH Hs), andb_true_r.
  unfold Escaped.escapeChar.
  destruct (Ascii.eqb c Js.BACKSLASH);
    [change (p Js.BACKSLASH && (p Js.BACKSLASH && true) = true);
     now rewrite Hb|].
  destruct (Ascii.eqb c Js.DQUOTE).
  - change (p Js.BACKSLASH && (p Js.DQUOTE && true) = true).
    now rewrite Hb, Hq.
  - cbn. now rewrite Hc.
Qed.

Lemma trimStart_allOf (p : ascii -> bool) (s : string) :
  UrlGrammar.allOf p s = true -> UrlGrammar.allOf p (Js.trimStart s) = true.
Proof.
  induction s as [|c s IH]; intros Hs; [reflexivity|].
  cbn [Js.trimStart]. destruct (Js.isWhiteSpace c); [|exact Hs].
  cbn in Hs. apply andb_true_iff in Hs as [_ Hs]. now apply IH.
Qed.

Lemma trimEnd_allOf (p : ascii -> bool) (s : string) :
  UrlGrammar.allOf p s = true -> UrlGrammar.allOf p (Js.trimEnd s) = true.
Proof.
  induction s as [|c s IH]; intros Hs; [reflexivity|].
  cbn in Hs. apply andb_true_iff in Hs as [Hc Hs]. specialize (IH Hs).
  cbn [Js.trimEnd]. destruct (Js.trimEnd s) as [|d t].
  - destruct (Js.isWhiteSpace c); cbn; now rewrite ?Hc.
  - change (p c && UrlGrammar.allOf p (String d t) = true).
    now rewrite Hc, IH.
Qed.

(** A normalized text fits on one line. *)
Lemma normalize_oneLine (v : option string) :
  Escaping.oneLineOpt (LinkMetadataParser.normalize v) = true.
Proof.
  destruct v as [s|]; [|reflexivity].
  rewrite normalize_escape. cbn [Escaping.oneLineOpt].
  unfold Escaping.oneLine, Js.trim.
  apply trimEnd_allOf, trimStart_allOf, escape_allOf; try reflexivity.
  apply removeNewlines_oneLine.
Qed.

(** A title counts when something is left of it after normalization. *)
Lemma normalize_truthy (raw : string) :
  Js.truthy (LinkMetadataParser.normalize (Some raw)) = true
  <-> Js.trim (Js.removeNewlines raw) <> "".
Proof.
  rewrite normalize_escape, trim_escape. cbn [Js.truthy].
  destruct (Escaping.escape _) as [|c e] eqn:He.
  - apply escape_nil in He. rewrite He. split; [discriminate | contradiction].
  - split; [|reflexivity]. intros _ H. rewrite H in He. discriminate.
Qed.

(** ** The extractor: outcomes and the record it builds *)

Section ExtractorOutcomes.

Variables Document Element : Type.
Variable querySelector : Document -> string -> option Element.
Variable getAttr : Element -> string -> option string.
Variable textContent : Element -> option string.
Variable hostnameOf : string -> option string.
Variable checkUrlAccessibility : string -> bool.

Local Abbreviation parse :=
  (LinkMetadataParser.parse querySelector getAttr textContent
                            hostnameOf checkUrlAccessibility).
Local Abbreviation getTitle :=
  (LinkMetadataParser.getTitle Document Element querySelector getAttr
                               textContent).
Local Abbreviation getFavicon :=
  (LinkMetadataParser.getFavicon Document Element querySelector getAttr
                                 hostnameOf checkUrlAccessibility).
Local Abbreviation getImage :=
  (LinkMetadataParser.getImage Document Element querySelector getAttr
                               hostnameOf checkUrlAccessibility).
Local Abbreviation fixImageUrl :=
  (LinkMetadataParser.fixImageUrl (Document := Document)
                                  hostnameOf checkUrlAccessibility).

(** With a page URL that parses, the resolver returns: the reference as
    given, or one of the four candidates, and then one whose probe
    succeeded. *)
Lemma fixImageUrl_cases (this : LinkMetadataParser.t Document)
      (hostname ref : string) :
  hostnameOf (LinkMetadataParser.this_url this) = Some hostname ->
  exists r,
    fixImageUrl this (Some ref) = Return r
    /\ (r = ref
        \/ checkUrlAccessibility r = true
           /\ (r = "https:" ++ ref \/ r = "http:" ++ ref
               \/ r = "https://" ++ hostname ++ ref
               \/ r = "http://" ++ hostname ++ ref)).
Proof.
  intros Hhost.
  unfold LinkMetadataParser.fixImageUrl, LinkMetadataParser.newURL.
  rewrite Hhost. cbn [bind].
  destruct (Js.startsWith ref "//").
  - destruct (checkUrlAccessibility ("https:" ++ ref)) eqn:H1;
      [eexists; split; [reflexivity | right; auto]|].
    destruct (checkUrlAccessibility ("http:" ++ ref)) eqn:H2;
      eexists; split; try reflexivity; auto.
  - destruct (Js.startsWith ref "/" && Js.truthy (Some hostname));
      [|eexists; split; [reflexivity | now left]].
    destruct (checkUrlAccessibility ("https://" ++ hostname ++ ref)) eqn:H1;
      [eexists; split; [reflexivity | right; auto 6]|].
    destruct (checkUrlAccessibility ("http://" ++ hostname ++ ref)) eqn:H2;
      eexists; split; try reflexivity; auto 6.
Qed.

Lemma fixImageUrl_nonempty (this : LinkMetadataParser.t Document)
      (hostname ref r : string) :
  hostnameOf (LinkMetadataParser.this_url this) = Some hostname ->
  ref <> "" -> fixImageUrl this (Some ref) = Return r -> r <> "".
Proof.
  intros Hhost Href Hr.
  destruct (fixImageUrl_cases this hostname ref Hhost) as (r' & Hr' & Hcases).
  rewrite Hr' in Hr. injection Hr as <-.
  destruct Hcases as [H|(_ & [H|[H|[H|H]]])]; subst r';
    try assumption; discriminate.
Qed.

Lemma startsWith_slash (ref : string) :
  Js.startsWith ref "/" = false -> Js.startsWith ref "//" = false.
Proof.
  unfold Js.startsWith. destruct ref as [|c ref]; [reflexivity|].
  cbn [String.prefix]. destruct (ascii_dec "/" c); [|reflexivity].
  now destruct ref.
Qed.

(** X2. The resolver never hands back a candidate whose probe failed: what
    it returns is the reference as given or a URL that was probed
    reachable; and a reference that does not begin with a slash comes back
    unchanged, whatever the probes say. *)
Theorem fixImageUrl_only_reachable (this : LinkMetadataParser.t Document)
        (ref r : string) :
  fixImageUrl this (Some ref) = Return r ->
  (r = ref \/ checkUrlAccessibility r = true)
  /\ (Js.startsWith ref "/" = false -> r = ref).
Proof.
  intros Hr.
  destruct (hostnameOf (LinkMetadataParser.this_url this)) as [h|] eqn:Hhost.
  - split.
    + destruct (fixImageUrl_cases this h ref Hhost) as (r' & Hr' & Hcases).
      rewrite Hr' in Hr. injection Hr as <-. tauto.
    + intros Hslash. revert Hr.
      unfold LinkMetadataParser.fixImageUrl, LinkMetadataParser.newURL.
      rewrite Hhost, (startsWith_slash ref Hslash), Hslash. cbn.
      now intros [= <-].
  - revert Hr. unfold LinkMetadataParser.fixImageUrl, LinkMetadataParser.newURL.
    rewrite Hhost. discriminate.
Qed.

Lemma getFavicon_returns (this : LinkMetadataParser.t Document)
      (hostname : string) :
  hostnameOf (LinkMetadataParser.this_url this) = Some hostname ->
  exists v, getFavicon this = Return v /\ v <> Some "".
Proof.
  intros Hhost. unfold LinkMetadataParser.getFavicon.
  destruct (LinkMetadataParser.queryAttr _ _ _ _ _ _ _) as [[|c ref]|];
    cbn [Js.truthy]; try (exists None; split; [reflexivity | discriminate]).
  destruct (fixImageUrl_cases this hostname (String c ref) Hhost)
    as (r & Hr & _).
  rewrite Hr. cbn [bind]. exists (Some r). split; [reflexivity|].
  intros [= ->].
  now apply (fixImageUrl_nonempty this hostname (String c ref) "" Hhost).
Qed.

Lemma getImage_returns (this : LinkMetadataParser.t Document)
      (hostname : string) :
  hostnameOf (LinkMetadataParser.this_url this) = Some hostname ->
  exists v, getImage this = Return v /\ v <> Some "".
Proof.
  intros Hhost. unfold LinkMetadataParser.getImage.
  destruct (LinkMetadataParser.queryAttr _ _ _ _ _ _ _) as [[|c ref]|];
    cbn [Js.truthy]; try (exists None; split; [reflexivity | discriminate]).
  destruct (fixImageUrl_cases this hostname (String c ref) Hhost)
    as (r & Hr & _).
  rewrite Hr. cbn [bind]. exists (Some r). split; [reflexivity|].
  intros [= ->].
  now apply (fixImageUrl_nonempty this hostname (String c ref) "" Hhost).
Qed.

(** The three ways [parse] ends, by the title found and the page URL. *)
Lemma parse_cases (this : LinkMetadataParser.t Document) :
  let title := LinkMetadataParser.normalize (getTitle this) in
  (Js.truthy title = false /\ parse this = Return None)
  \/ (Js.truthy title = true
      /\ hostnameOf (LinkMetadataParser.this_url this) = None
      /\ parse this = Throw TypeError)
  \/ (Js.truthy title = true
      /\ exists hostname favicon image,
           hostnameOf (LinkMetadataParser.this_url this) = Some hostname
           /\ favicon <> Some "" /\ image <> Some ""
           /\ parse this
              = Return (Some {| url := LinkMetadataParser.this_url this;
                                title := Js.narrowed title;
                                description :=
                                  LinkMetadataParser.normalize
                                    (LinkMetadataParser.getDescription
                                       Document Element querySelector getAttr
                                       this);
                                host := Some hostname;
                                favicon := favicon;
                                image := image;
                                indent := 0 |})).
Proof.
  intros title. unfold LinkMetadataParser.parse. fold title.
  destruct (Js.truthy title) eqn:Ht; [|left; split; reflexivity].
  right. cbn [negb]. unfold LinkMetadataParser.newURL.
  destruct (hostnameOf (LinkMetadataParser.this_url this)) as [h|] eqn:Hhost;
    [right | left; repeat split; reflexivity].
  split; [reflexivity|]. cbn [bind].
  destruct (getFavicon_returns this h Hhost) as (f & Hf & Hfne).
  destruct (getImage_returns this h Hhost) as (i & Hi & Hine).
  rewrite Hf. cbn [bind]. rewrite Hi. cbn [bind].
  exists h, f, i. repeat split; try reflexivity; assumption.
Qed.

(** X3. Extraction fails in one way only.  A page with no title, or with a
    title of which nothing is left once line breaks are removed and it is
    trimmed, yields [undefined], whatever the page URL is; otherwise the
    page URL is parsed, and extraction throws - a [TypeError] - exactly
    when the URL parser rejects it. *)
Theorem parse_failure_modes (this : LinkMetadataParser.t Document) :
  (getTitle this = None -> parse this = Return None)
  /\ (forall raw,
        getTitle this = Some raw ->
        Js.trim (Js.removeNewlines raw) = "" ->
        parse this = Return None)
  /\ (forall e,
        parse this = Throw e
        <-> e = TypeError
            /\ hostnameOf (LinkMetadataParser.this_url this) = None
            /\ exists raw, getTitle this = Some raw
                           /\ Js.trim (Js.removeNewlines raw) <> "").
Proof.
  pose proof (parse_cases this) as Hcases. cbv zeta in Hcases.
  destruct (getTitle this) as [raw|] eqn:Htitle.
  - pose proof (normalize_truthy raw) as Htruthy.
    split; [discriminate|]. split.
    + intros raw' [= <-] Hblank.
      destruct Hcases as [[_ H]|[(Ht & _)|(Ht & _)]]; [exact H| |];
        apply Htruthy in Ht; contradiction.
    + intros e. split.
      * intros He.
        destruct Hcases as [[_ H]|[(Ht & Hh & H)|(_ & h & f & i & _ & _ & _ & H)]];
          rewrite H in He; try discriminate.
        injection He as <-. apply Htruthy in Ht. eauto.
      * intros (-> & Hh & raw' & [= <-] & Hsolid).
        apply Htruthy in Hsolid.
        destruct Hcases as [[Ht _]|[(_ & _ & H)|(_ & h & _ & _ & Hh' & _)]];
          [congruence | exact H | congruence].
  - split; [|split].
    + intros _. destruct Hcases as [[_ H]|[(Ht & _)|(Ht & _)]];
        [exact H | discriminate | discriminate].
    + discriminate.
    + intros e. split.
      * intros He.
        destruct Hcases as [[_ H]|[(Ht & _)|(Ht & _)]];
          [rewrite H in He | |]; discriminate.
      * intros (_ & _ & raw & Hraw & _). discriminate.
Qed.

(** X4. The record that extraction builds: it carries the page URL and its
    hostname, has indent 0, a title that is not empty, and a title and a
    description that hold no line break - the title being the escaped form
    of the page's title with its line breaks removed and trimmed; its
    favicon and image are absent or not empty. *)
Theorem parse_record_invariants (this : LinkMetadataParser.t Document)
        (m : LinkMetadata) :
  parse this = Return (Some m) ->
  url m = LinkMetadataParser.this_url this
  /\ host m = hostnameOf (LinkMetadataParser.this_url this)
  /\ indent m = 0
  /\ title m <> ""
  /\ (exists raw, getTitle this = Some raw
                  /\ title m = Escaping.escape (Js.trim (Js.removeNewlines raw)))
  /\ Escaping.oneLine (title m) = true
  /\ Escaping.oneLineOpt (description m) = true
  /\ favicon m <> Some "" /\ image m <> Some "".
Proof.
  intros Hm. pose proof (parse_cases this) as Hcases. cbv zeta in Hcases.
  destruct Hcases as [[_ H]|[(_ & _ & H)|(Ht & h & f & i & Hh & Hf & Hi & H)]];
    rewrite H in Hm; try discriminate.
  injection Hm as <-. cbn [url host indent title description favicon image].
  pose proof (normalize_oneLine (getTitle this)) as Hone.
  destruct (getTitle this) as [raw|] eqn:Hraw; [|discriminate].
  rewrite normalize_escape in *. cbn [Js.narrowed Escaping.oneLineOpt] in *.
  repeat split; auto using normalize_oneLine.
  - intros Hempty. rewrite Hempty in Ht. discriminate.
  - exists raw. split; [reflexivity | apply trim_escape].
Qed.

End ExtractorOutcomes.

Lemma fixImageUrl_only_reachable_witness :
  let this := LinkMetadataParser.mk "https://example.com" tt in
  LinkMetadataParser.fixImageUrl Sample.hostnameOf Sample.onlyHttp
    this (Some "/img.png") = Return "http://example.com/img.png"
  /\ ("http://example.com/img.png" = "/img.png"
      \/ Sample.onlyHttp "http://example.com/img.png" = true).
Proof.
  cbv zeta.
  assert (H : LinkMetadataParser.fixImageUrl Sample.hostnameOf Sample.onlyHttp
                (LinkMetadataParser.mk "https://example.com" tt)
                (Some "/img.png") = Return "http://example.com/img.png")
    by reflexivity.
  split; [exact H|].
  exact (proj1 (fixImageUrl_only_reachable unit Sample.hostnameOf
                  Sample.onlyHttp _ _ _ H)).
Defined.

Lemma parse_failure_modes_witness :
  LinkMetadataParser.parse Sample.querySelector Sample.getAttr
    Sample.textContent Sample.hostnameOf Sample.unreachable
    (LinkMetadataParser.mk "not a url" Pages.blankTitlePage)
  = Return None.
Proof.
  destruct (parse_failure_modes Sample.Document Sample.Element
              Sample.querySelector Sample.getAttr Sample.textContent
              Sample.hostnameOf Sample.unreachable
              (LinkMetadataParser.mk "not a url" Pages.blankTitlePage))
    as (_ & Hblank & _).
  apply (Hblank "   "); reflexivity.
Defined.

Lemma parse_record_invariants_witness :
  exists m,
    LinkMetadataParser.parse Sample.querySelector Sample.getAttr
      Sample.textContent Sample.hostnameOf Sample.onlyHttp
      (LinkMetadataParser.mk "https://example.com" Pages.fullPage)
    = Return (Some m)
    /\ title m = "Home"
    /\ favicon m = Some "http://example.com/favicon.ico"
    /\ Escaping.oneLineOpt (description m) = true.
Proof.
  eexists. split; [reflexivity|]. split; [reflexivity|].
  split; [reflexivity|].
  refine (proj1 (proj2 (proj2 (proj2 (proj2 (proj2 (proj2
            (parse_record_invariants Sample.Document Sample.Element
               Sample.querySelector Sample.getAttr Sample.textContent
               Sample.hostnameOf Sample.onlyHttp
               (LinkMetadataParser.mk "https://example.com" Pages.fullPage)
               _ eq_refl)))))))).
Defined.

(** ** The block parser: what pre-processing leaves *)

Lemma splitLines_oneLine (s : string) :
  Forall (fun l => Escaping.oneLine l = true) (CodeBlockProcessor.splitLines s).
Proof.
  assert (H : Forall (fun l => Escaping.oneLine l = true)
                     (CodeBlockProcessor.splitLines s)
              /\ forall c, Forall (fun l => Escaping.oneLine l = true)
                             (CodeBlockProcessor.splitLines (String c s)));
    [|exact (proj1 H)].
  assert (Hcons : forall c t,
             Ascii.eqb c Js.CR = false -> Ascii.eqb c Js.LF = false ->
             Forall (fun l => Escaping.oneLine l = true)
                    (CodeBlockProcessor.splitLines t) ->
             Forall (fun l => Escaping.oneLine l = true)
                    (match CodeBlockProcessor.splitLines t with
                     | l :: ls => String c l :: ls
                     | [] => [String c ""]
                     end)).
  { intros c t Hcr Hlf Ht.
    destruct (CodeBlockProcessor.splitLines t) as [|l ls].
    - constructor; [|constructor]. unfold Escaping.oneLine. cbn.
      unfold Escaping.noBreak. now rewrite Hcr, Hlf.
    - inversion Ht as [|? ? Hl Hls]; subst. constructor; [|exact Hls].
      unfold Escaping.oneLine in *. cbn. unfold Escaping.noBreak at 1.
      now rewrite Hcr, Hlf. }
  induction s as [|d s [IH1 IH2]]; split.
  - repeat constructor.
  - intros c. cbn [CodeBlockProcessor.splitLines].
    destruct (Ascii.eqb c Js.CR) eqn:Hcr; [repeat constructor|].
    destruct (Ascii.eqb c Js.LF) eqn:Hlf; [repeat constructor|].
    repeat constructor. unfold Escaping.oneLine. cbn.
    unfold Escaping.noBreak. now rewrite Hcr, Hlf.
  - apply IH2.
  - intros c.
    change (CodeBlockProcessor.splitLines (String c (String d s)))
      with (if Ascii.eqb c Js.CR then
              if Ascii.eqb d Js.LF then "" :: CodeBlockProcessor.splitLines s
              else "" :: CodeBlockProcessor.splitLines (String d s)
            else if Ascii.eqb c Js.LF
                 then "" :: CodeBlockProcessor.splitLines (String d s)
                 else match CodeBlockProcessor.splitLines (String d s) with
                      | l :: ls => String c l :: ls
                      | [] => [String c ""]
                      end).
    destruct (Ascii.eqb c Js.CR) eqn:Hcr.
    + destruct (Ascii.eqb d Js.LF); constructor; auto.
    + destruct (Ascii.eqb c Js.LF) eqn:Hlf; [constructor; auto|].
      apply Hcons; auto.
Qed.

Lemma splitLines_nonempty (s : string) : CodeBlockProcessor.splitLines s <> [].
Proof.
  assert (H : CodeBlockProcessor.splitLines s <> []
              /\ forall c, CodeBlockProcessor.splitLines (String c s) <> []);
    [|exact (proj1 H)].
  induction s as [|d s [IH1 IH2]]; split; try discriminate.
  - intros c. cbn.
    destruct (Ascii.eqb c Js.CR); [discriminate|].
    destruct (Ascii.eqb c Js.LF); discriminate.
  - apply IH2.
  - intros c.
    change (CodeBlockProcessor.splitLines (String c (String d s)))
      with (if Ascii.eqb c Js.CR then
              if Ascii.eqb d Js.LF then "" :: CodeBlockProcessor.splitLines s
              else "" :: CodeBlockProcessor.splitLines (String d s)
            else if Ascii.eqb c Js.LF
                 then "" :: CodeBlockProcessor.splitLines (String d s)
                 else match CodeBlockProcessor.splitLines (String d s) with
                      | l :: ls => String c l :: ls
                      | [] => [String c ""]
                      end).
    destruct (Ascii.eqb c Js.CR); [destruct (Ascii.eqb d Js.LF); discriminate|].
    destruct (Ascii.eqb c Js.LF); [discriminate|].
    destruct (CodeBlockProcessor.splitLines (String d s)); discriminate.
Qed.

Lemma allOf_drop (p : ascii -> bool) (n : nat) (s : string) :
  UrlGrammar.allOf p s = true -> UrlGrammar.allOf p (Js.drop n s) = true.
Proof.
  revert s; induction n as [|n IH]; intros [|c s] H; cbn; auto.
  cbn in H. apply andb_true_iff in H as [_ H]. now apply IH.
Qed.

Lemma allOf_repeat (p : ascii -> bool) (c : ascii) (n : nat) :
  p c = true -> UrlGrammar.allOf p (Js.repeat (String c "") n) = true.
Proof. intros Hc. induction n as [|n IH]; cbn; [reflexivity | now rewrite Hc]. Qed.

(** A line after the replacement: still one line, and no tab in front. *)
Lemma replaceTabs_plain (indent : Z) (line : string) :
  Escaping.oneLine line = true ->
  Escaping.oneLine (snd (CodeBlockProcessor.replaceTabs indent line)) = true
  /\ CodeBlockProcessor.leadingTabs
       (snd (CodeBlockProcessor.replaceTabs indent line)) = O.
Proof.
  intros Hline. unfold CodeBlockProcessor.replaceTabs.
  destruct (CodeBlockProcessor.leadingTabs line) as [|n] eqn:Hn; cbn [snd].
  - auto.
  - split; [|reflexivity].
    unfold Escaping.oneLine in *. rewrite allOf_append.
    rewrite (allOf_repeat _ " " (S n)) by reflexivity.
    now rewrite allOf_drop.
Qed.

Lemma mapLines_plain (indent : Z) (lines : list string) :
  Forall (fun l => Escaping.oneLine l = true) lines ->
  Forall (fun l => Escaping.oneLine l = true
                   /\ CodeBlockProcessor.leadingTabs l = O)
         (snd (CodeBlockProcessor.mapLines indent lines))
  /\ (lines <> [] -> snd (CodeBlockProcessor.mapLines indent lines) <> []).
Proof.
  intros H. revert indent. induction H as [|l ls Hl Hls IH]; intros indent.
  - split; [constructor | contradiction].
  - rewrite mapLines_cons. cbn [snd]. split; [|discriminate].
    constructor; [now apply replaceTabs_plain | apply IH].
Qed.

(** The indent that pre-processing computes is the sentinel or positive. *)
Lemma mapLines_indent_range (indent : Z) (lines : list string) :
  indent = -1 \/ 1 <= indent ->
  fst (CodeBlockProcessor.mapLines indent lines) = -1
  \/ 1 <= fst (CodeBlockProcessor.mapLines indent lines).
Proof.
  revert indent; induction lines as [|l ls IH]; intros indent Hi; [exact Hi|].
  rewrite mapLines_cons. cbn [fst]. apply IH.
  rewrite replaceTabs_indent.
  destruct (CodeBlockProcessor.leadingTabs l); [exact Hi|].
  destruct (Z.ltb_spec indent 0); lia.
Qed.

Lemma concat_allOf (p : ascii -> bool) (lines : list string) :
  p Js.LF = true ->
  Forall (fun l => UrlGrammar.allOf p l = true) lines ->
  UrlGrammar.allOf p (String.concat Js.nl lines) = true.
Proof.
  intros Hlf H. induction H as [|l ls Hl Hls IH]; [reflexivity|].
  destruct ls as [|l' ls]; [exact Hl|].
  rewrite concat_cons, !allOf_append, Hl, IH. cbn. now rewrite Hlf.
Qed.

Lemma noBreak_noCR (l : string) :
  Escaping.oneLine l = true ->
  UrlGrammar.allOf (fun c => negb (Ascii.eqb c Js.CR)) l = true.
Proof.
  unfold Escaping.oneLine. induction l as [|c l IH]; cbn; [reflexivity|].
  rewrite !andb_true_iff. unfold Escaping.noBreak.
  rewrite andb_true_iff. intros [[Hc _] Hl]. auto.
Qed.

Lemma preprocess_eq (source : string) :
  CodeBlockProcessor.preprocess source
  = (fst (CodeBlockProcessor.mapLines (-1)
            (CodeBlockProcessor.splitLines source)),
     Js.join (snd (CodeBlockProcessor.mapLines (-1)
                     (CodeBlockProcessor.splitLines source))) Js.nl).
Proof.
  unfold CodeBlockProcessor.preprocess.
  now destruct (CodeBlockProcessor.mapLines _ _).
Qed.

(** X5. What pre-processing hands to the mapping parser: a text with no
    carriage return in which no line starts with a tab.  Pre-processing it
    again changes nothing and finds no indentation.  The indent computed is
    -1 or at least 1, never 0. *)
Theorem preprocess_normal_form (source : string) :
  let indent := fst (CodeBlockProcessor.preprocess source) in
  let text := snd (CodeBlockProcessor.preprocess source) in
  UrlGrammar.allOf (fun c => negb (Ascii.eqb c Js.CR)) text = true
  /\ Forall (Indentation.LeadingTabs 0) (CodeBlockProcessor.splitLines text)
  /\ CodeBlockProcessor.preprocess text = (-1, text)
  /\ (indent = -1 \/ 1 <= indent).
Proof.
  cbv zeta. rewrite (preprocess_eq source).
  pose proof (splitLines_oneLine source) as Hone.
  pose proof (splitLines_nonempty source) as Hne.
  pose proof (mapLines_indent_range (-1) (CodeBlockProcessor.splitLines source)
                (or_introl eq_refl)) as Hrange.
  destruct (mapLines_plain (-1) _ Hone) as [Hplain Hne'].
  specialize (Hne' Hne).
  destruct (CodeBlockProcessor.mapLines (-1) (CodeBlockProcessor.splitLines source))
    as [indent lines] eqn:Hmap.
  cbn [fst snd] in *.
  assert (Hone' : Forall (fun l => Escaping.oneLine l = true) lines)
    by (eapply Forall_impl; [|exact Hplain]; now intros l [H _]).
  assert (Htab : Forall (fun l => CodeBlockProcessor.leadingTabs l = O) lines)
    by (eapply Forall_impl; [|exact Hplain]; now intros l [_ H]).
  assert (Hsplit : CodeBlockProcessor.splitLines (Js.join lines Js.nl) = lines).
  { destruct (exists_last Hne') as (init & last & ->).
    apply Forall_app in Hone' as [Hinit Hlast].
    inversion Hlast; subst. now apply splitLines_concat. }
  split; [|split; [|split]].
  - apply concat_allOf; [reflexivity|].
    eapply Forall_impl; [|exact Hone']. apply noBreak_noCR.
  - rewrite Hsplit. eapply Forall_impl; [|exact Htab].
    intros l Hl. destruct (leadingTabs_split l) as [H1 H2].
    cbv zeta in H1, H2. rewrite Hl in H1, H2.
    exists l. split; [exact H1 | exact H2].
  - unfold CodeBlockProcessor.preprocess.
    now rewrite Hsplit, (mapLines_untabbed _ _ Htab).
  - exact Hrange.
Qed.

(** ** The block codec: the lines of a serialized block *)

Lemma genCodeBlock_as_lines (m : LinkMetadata) :
  CodeBlockGenerator.genCodeBlock m
  = String.concat Js.nl
      (List.app ("" :: "```cardlink"
                    :: List.app (BlockFormat.fieldLines m) ["```"]) [""]).
Proof.
  rewrite genCodeBlock_lines.
  set (fl := BlockFormat.fieldLines m).
  change ((Js.nl ++ "```cardlink") :: fl ++ ["```" ++ Js.nl])
    with (List.app ((Js.nl ++ "```cardlink") :: fl) ["```" ++ Js.nl]).
  rewrite concat_closing_fence. cbn [app].
  rewrite <- app_assoc. cbn [app].
  destruct (List.app fl ["```"; ""]) eqn:Hl; [now destruct fl|].
  rewrite !concat_cons. reflexivity.
Qed.

Lemma splitLines_genCodeBlock (m : LinkMetadata) :
  Escaping.oneLineRecord m = true ->
  CodeBlockProcessor.splitLines (CodeBlockGenerator.genCodeBlock m)
  = List.app ("" :: "```cardlink" :: BlockFormat.fieldLines m) ["```"; ""].
Proof.
  intros Hm. rewrite genCodeBlock_as_lines.
  rewrite splitLines_concat; [ | | reflexivity].
  - cbn [app]. now rewrite <- app_assoc.
  - constructor; [reflexivity|]. constructor; [reflexivity|].
    apply Forall_app; split.
    + eapply Forall_impl; [|exact (fieldLines_plain m Hm)]. now intros l [H _].
    + constructor; [reflexivity | constructor].
Qed.

(** X6. A serialized block splits back into exactly the lines it was built
    from - a blank line, the opening fence, the field lines, the closing
    fence, a blank line - when no field holds a line break; and the
    pre-processing of parse leaves such a block as it is, finding no
    indentation in it. *)
Theorem serialized_block_lines (m : LinkMetadata) :
  Escaping.oneLineRecord m = true ->
  CodeBlockProcessor.splitLines (CodeBlockGenerator.genCodeBlock m)
  = List.app ("" :: "```cardlink" :: BlockFormat.fieldLines m) ["```"; ""]
  /\ CodeBlockProcessor.preprocess (CodeBlockGenerator.genCodeBlock m)
     = (-1, CodeBlockGenerator.genCodeBlock m).
Proof.
  intros Hm. split.
  - now apply splitLines_genCodeBlock.
  - now apply preprocess_genCodeBlock.
Qed.

Lemma serialized_block_lines_witness :
  Escaping.oneLineRecord Records.plain = true
  /\ CodeBlockProcessor.preprocess (CodeBlockGenerator.genCodeBlock Records.plain)
     = (-1, CodeBlockGenerator.genCodeBlock Records.plain).
Proof.
  split; [reflexivity|].
  exact (proj2 (serialized_block_lines Records.plain eq_refl)).
Defined.

Lemma append_inv_head (k a b : string) : k ++ a = k ++ b -> a = b.
Proof. induction k as [|c k IH]; cbn; [auto | intros [= H]; auto]. Qed.

Lemma append_inv_last (a b : string) (c : ascii) :
  a ++ String c "" = b ++ String c "" -> a = b.
Proof.
  revert b; induction a as [|x a IH]; intros [|y b] H; cbn in H.
  - reflexivity.
  - injection H as _ H. destruct b; discriminate.
  - injection H as _ H. destruct a; discriminate.
  - injection H as -> H. f_equal. now apply IH.
Qed.

Lemma quoted_inj (a b : string) :
  BlockFormat.quoted a = BlockFormat.quoted b -> a = b.
Proof.
  unfold BlockFormat.quoted. intros [= H]. now apply append_inv_last in H.
Qed.

Lemma fieldLine_present (key : string) (render : string -> string)
      (v : option string) :
  BlockFormat.fieldLine key render v
  = match Fields.present v with
    | Some s => [key ++ ": " ++ render s]
    | None => []
    end.
Proof. now destruct v as [[|c s]|]. Qed.

Lemma cons_eq_inv {A : Type} (x y : A) (l l' : list A) :
  x :: l = y :: l' -> x = y /\ l = l'.
Proof. intros [= Hx Hl]. now split. Qed.

(** Two lists of field lines are equal only for equal fields. *)
Lemma fieldLines_inj (m1 m2 : LinkMetadata) :
  BlockFormat.fieldLines m1 = BlockFormat.fieldLines m2 ->
  url m1 = url m2 /\ title m1 = title m2
  /\ Fields.present (description m1) = Fields.present (description m2)
  /\ Fields.present (host m1) = Fields.present (host m2)
  /\ Fields.present (favicon m1) = Fields.present (favicon m2)
  /\ Fields.present (image m1) = Fields.present (image m2).
Proof.
  unfold BlockFormat.fieldLines. rewrite !fieldLine_present.
  destruct (Fields.present (description m1)) as [d1|],
           (Fields.present (host m1)) as [h1|],
           (Fields.present (favicon m1)) as [f1|],
           (Fields.present (image m1)) as [i1|],
           (Fields.present (description m2)) as [d2|],
           (Fields.present (host m2)) as [h2|],
           (Fields.present (favicon m2)) as [f2|],
           (Fields.present (image m2)) as [i2|];
    cbn [List.concat app]; intros H;
    apply cons_eq_inv in H; destruct H as [Hu H];
    apply cons_eq_inv in H; destruct H as [Ht H];
    apply append_inv_head in Hu; apply append_inv_head, quoted_inj in Ht;
    repeat match goal with
           | E : _ :: _ = _ :: _ |- _ =>
               let E' := fresh "Hline" in
               apply cons_eq_inv in E; destruct E as [E' E];
               first [ apply append_inv_head, append_inv_head in E'
                     | discriminate E' ]
           | E : BlockFormat.quoted _ = BlockFormat.quoted _ |- _ =>
               apply quoted_inj in E
           end;
    try discriminate H; subst; repeat split; congruence.
Qed.

(** X7. Serialization loses nothing but the difference between an absent
    and an empty optional field: two records whose fields hold no line break
    and that serialize to the same block have the same url and title, and
    the same description, host, favicon and image wherever these are not
    empty. *)
Theorem genCodeBlock_injective (m1 m2 : LinkMetadata) :
  Escaping.oneLineRecord m1 = true ->
  Escaping.oneLineRecord m2 = true ->
  CodeBlockGenerator.genCodeBlock m1 = CodeBlockGenerator.genCodeBlock m2 ->
  url m1 = url m2 /\ title m1 = title m2
  /\ Fields.present (description m1) = Fields.present (description m2)
  /\ Fields.present (host m1) = Fields.present (host m2)
  /\ Fields.present (favicon m1) = Fields.present (favicon m2)
  /\ Fields.present (image m1) = Fields.present (image m2).
Proof.
  intros H1 H2 Heq.
  apply (f_equal CodeBlockProcessor.splitLines) in Heq.
  rewrite (splitLines_genCodeBlock m1 H1), (splitLines_genCodeBlock m2 H2) in Heq.
  cbn [app] in Heq.
  apply cons_eq_inv in Heq. destruct Heq as [_ Heq].
  apply cons_eq_inv in Heq. destruct Heq as [_ Heq].
  apply app_inv_tail in Heq.
  now apply fieldLines_inj.
Qed.

Lemma genCodeBlock_injective_witness :
  Fields.present (description Records.plain)
  = Fields.present (description Records.emptyDescription).
Proof.
  exact (proj1 (proj2 (proj2
    (genCodeBlock_injective Records.plain Records.emptyDescription
       eq_refl eq_refl eq_refl)))).
Defined.

(** ** Offsets out of range *)

Lemma substr_clamp (s : string) (start length : Z) :
  0 <= start <= Js.len s ->
  Js.substr s start length
  = Js.substr s start (Z.max 0 (Z.min length (Js.len s - start))).
Proof.
  intros H. unfold Js.substr. cbv zeta.
  set (size := Js.len s) in *.
  destruct (Z.ltb_spec start 0); [lia|].
  replace (Z.min (Z.min start size
                  + Z.min (Z.max (Z.max 0 (Z.min length (size - start))) 0)
                          size) size)
    with (Z.min (Z.min start size + Z.min (Z.max length 0) size) size)
    by lia.
  reflexivity.
Qed.

Lemma countLines_offset (sub : string) :
  exists l start,
    EditorExtensions.countLines (S (String.length sub)) sub 0 (-1) (-1)
    = Some (l, Z.of_nat start - 1)
    /\ (start <= String.length sub)%nat.
Proof.
  destruct (countLines_spec (S (String.length sub)) sub O 0)
    as (start & Hrun & Hrange & _); [lia | lia |].
  cbn [Z.of_nat Z.sub Z.opp Z.add] in Hrun.
  eexists _, start. split; [exact Hrun | lia].
Qed.

Lemma substr_prefix_length (content : string) (index : Z) :
  Js.len (Js.substr content 0 index) = Offsets.clamp content index.
Proof.
  unfold Offsets.clamp.
  rewrite (substr_clamp content 0 index) by (unfold Js.len; lia).
  rewrite Z.sub_0_r.
  set (c := Z.max 0 (Z.min index (Js.len content))).
  replace c with (c - 0) at 1 by lia.
  rewrite substr_length; unfold c, Js.len; lia.
Qed.

(** X8. The conversion is defined for every index, and an index outside
    the content counts as the nearest end of it: a negative index gives the
    position of offset 0, line 0 and column 0, and an index beyond the end
    gives the position of the end. *)
Theorem getEditorPositionFromIndex_clamped (content : string) (index : Z) :
  exists p,
    EditorExtensions.getEditorPositionFromIndex content index = Some p
    /\ EditorExtensions.getEditorPositionFromIndex
         content (Offsets.clamp content index) = Some p
    /\ 0 <= line p /\ 0 <= ch p <= Offsets.clamp content index
    /\ (index <= 0 -> p = {| line := 0; ch := 0 |}).
Proof.
  pose proof (substr_prefix_length content index) as Hlen.
  assert (Hsub : Js.substr content 0 (Offsets.clamp content index)
                 = Js.substr content 0 index).
  { unfold Offsets.clamp.
    rewrite (substr_clamp content 0 index) by (unfold Js.len; lia).
    now rewrite Z.sub_0_r. }
  unfold EditorExtensions.getEditorPositionFromIndex. rewrite Hsub.
  set (sub := Js.substr content 0 index) in *.
  destruct (countLines_spec (S (String.length sub)) sub O 0)
    as (start & Hrun & Hrange & _); [lia | lia |].
  cbn [Z.of_nat Z.sub Z.opp Z.add] in Hrun. rewrite Hrun.
  replace (Z.of_nat start - 1 + 1) with (Z.of_nat start) by lia.
  set (c := Offsets.clamp content index) in *.
  assert (Hc : 0 <= c <= Js.len content) by (unfold c, Offsets.clamp, Js.len; lia).
  assert (Hstart : 0 <= Z.of_nat start <= c) by (unfold Js.len in Hlen; lia).
  assert (Hch : Js.substr content (Z.of_nat start) (index - Z.of_nat start)
                = Js.substr content (Z.of_nat start) (c - Z.of_nat start)).
  { rewrite (substr_clamp content _ (index - Z.of_nat start)) by lia.
    rewrite (substr_clamp content _ (c - Z.of_nat start)) by lia.
    f_equal. unfold c, Offsets.clamp in *. lia. }
  rewrite Hch. eexists. split; [reflexivity|]. split; [reflexivity|].
  cbn [line ch]. rewrite substr_length by lia.
  split; [lia|]. split; [lia|].
  intros Hneg. assert (c = 0) by (unfold c, Offsets.clamp; lia).
  assert (start = O) by lia. subst start.
  f_equal; [|lia].
  assert (Hnil : sub = "").
  { destruct sub; [reflexivity|]. unfold Js.len in Hlen. cbn in Hlen. lia. }
  rewrite Hnil. reflexivity.
Qed.

(** ** Positions and offsets *)

Lemma countLF_take_same (s : string) (a b : nat) :
  (a <= b)%nat ->
  (forall k, (a <= k < b)%nat -> String.get k s <> Some Js.LF) ->
  Position.countLF (Position.take b s) = Position.countLF (Position.take a s).
Proof.
  revert a b; induction s as [|c s IH]; intros a b Hab Hno.
  - now rewrite !take_nil.
  - destruct b as [|b]; [now replace a with O by lia|].
    destruct a as [|a].
    + cbn [Position.take Position.countLF].
      destruct (Ascii.eqb_spec c Js.LF) as [->|_].
      * exfalso. apply (Hno O); [lia | reflexivity].
      * rewrite (IH O b); [now destruct s | lia |].
        intros k Hk. apply (Hno (S k)). lia.
    + cbn [Position.take Position.countLF]. f_equal.
      apply IH; [lia|]. intros k Hk. apply (Hno (S k)). lia.
Qed.

Lemma countLF_take_pos (s : string) (j n : nat) :
  String.get j s = Some Js.LF -> (j < n)%nat ->
  (1 <= Position.countLF (Position.take n s))%nat.
Proof.
  revert j n; induction s as [|c s IH]; intros j n Hj Hn; [discriminate|].
  destruct n as [|n]; [lia|]. cbn [Position.take Position.countLF].
  destruct j as [|j]; cbn [String.get] in Hj.
  - injection Hj as ->. cbn. lia.
  - pose proof (IH j n Hj). lia.
Qed.

Lemma lineOffset_zero (s : string) : Offsets.lineOffset s O = Some O.
Proof. now destruct s. Qed.

(** The line that begins at [start] is the line numbered by the line feeds
    before [start]. *)
Lemma lineOffset_start (s : string) (start : nat) :
  (start = O \/ String.get (start - 1) s = Some Js.LF) ->
  Offsets.lineOffset s (Position.countLF (Position.take start s))
  = Some start.
Proof.
  revert start; induction s as [|c s IH]; intros start Hstart.
  - destruct Hstart as [->|H]; [reflexivity | discriminate].
  - destruct start as [|k]; [reflexivity|].
    destruct Hstart as [H|H]; [discriminate|].
    cbn [Nat.sub] in H. rewrite Nat.sub_0_r in H.
    cbn [Position.take Position.countLF].
    destruct k as [|k'].
    + cbn [String.get] in H. injection H as ->.
      cbn. now rewrite lineOffset_zero.
    + cbn [String.get] in H.
      assert (IHk : Offsets.lineOffset
                      s (Position.countLF (Position.take (S k') s))
                    = Some (S k')).
      { apply IH. right. cbn [Nat.sub]. now rewrite Nat.sub_0_r. }
      pose proof (countLF_take_pos s k' (S k') H (Nat.lt_succ_diag_r k')) as Hpos.
      destruct (Position.countLF (Position.take (S k') s)) as [|m] eqn:Hm;
        [lia|].
      destruct (Ascii.eqb_spec c Js.LF) as [->|Hc].
      * cbn [Nat.add Offsets.lineOffset]. rewrite Ascii.eqb_refl.
        now rewrite IHk.
      * cbn [Nat.add Offsets.lineOffset].
        apply Ascii.eqb_neq in Hc. rewrite Hc. now rewrite IHk.
Qed.

(** Conversely, the offset of a line is where the line begins. *)
Lemma lineOffset_inv (s : string) (l o : nat) :
  Offsets.lineOffset s l = Some o ->
  (o <= String.length s)%nat
  /\ (o = O \/ String.get (o - 1) s = Some Js.LF)
  /\ Position.countLF (Position.take o s) = l.
Proof.
  revert l o; induction s as [|c s IH]; intros l o H.
  - destruct l; [|discriminate]. injection H as <-. cbn. auto.
  - destruct l as [|l'].
    + injection H as <-. cbn. split; [lia|]. auto.
    + cbn [Offsets.lineOffset] in H.
      destruct (Offsets.lineOffset s (if Ascii.eqb c Js.LF then l' else S l'))
        as [o'|] eqn:Ho'; [|discriminate].
      injection H as <-. apply IH in Ho' as (Hlen & Hprev & Hcount).
      cbn [String.length Position.take Position.countLF Nat.sub].
      rewrite Nat.sub_0_r. split; [lia|]. split.
      * right. destruct o' as [|o''].
        -- cbn [String.get]. cbn in Hcount.
           destruct (Ascii.eqb_spec c Js.LF) as [->|]; [reflexivity|].
           discriminate.
        -- destruct Hprev as [?|Hprev]; [discriminate|].
           cbn [Nat.sub] in Hprev. rewrite Nat.sub_0_r in Hprev. exact Hprev.
      * rewrite Hcount. now destruct (Ascii.eqb c Js.LF).
Qed.

Lemma line_start_unique (s : string) (a b i : nat) :
  (a <= i)%nat -> (b <= i)%nat ->
  (a = O \/ String.get (a - 1) s = Some Js.LF) ->
  (b = O \/ String.get (b - 1) s = Some Js.LF) ->
  (forall k, (a <= k < i)%nat -> String.get k s <> Some Js.LF) ->
  (forall k, (b <= k < i)%nat -> String.get k s <> Some Js.LF) ->
  a = b.
Proof.
  intros Ha Hb Hpa Hpb Hna Hnb.
  destruct (Nat.lt_trichotomy a b) as [Hlt|[Heq|Hlt]]; [|exact Heq|].
  - exfalso. destruct Hpb as [->|Hpb]; [lia|]. apply (Hna (b - 1)%nat); [lia|].
    exact Hpb.
  - exfalso. destruct Hpa as [->|Hpa]; [lia|]. apply (Hnb (a - 1)%nat); [lia|].
    exact Hpa.
Qed.

(** The position of an index within the content, by the beginning of its
    line. *)
Lemma position_of_index (content : string) (n : nat) :
  (n <= String.length content)%nat ->
  exists start : nat,
    EditorExtensions.getEditorPositionFromIndex content (Z.of_nat n)
    = Some {| line := Z.of_nat (Position.countLF (Position.take n content));
              ch := Z.of_nat n - Z.of_nat start |}
    /\ (start <= n)%nat
    /\ (start = O \/ String.get (start - 1) content = Some Js.LF)
    /\ forall k, (start <= k < n)%nat -> String.get k content <> Some Js.LF.
Proof.
  intros Hn.
  unfold EditorExtensions.getEditorPositionFromIndex.
  rewrite substr_prefix by (unfold Js.len; lia).
  rewrite Nat2Z.id.
  set (sub := Position.take n content).
  assert (Hlen : String.length sub = n) by now apply length_take.
  destruct (countLines_spec (S (String.length sub)) sub O 0)
    as (start & Hrun & Hrange & Hstart & Hafter); [lia | lia |].
  cbn [Z.of_nat Z.sub Z.opp Z.add] in Hrun. rewrite Hrun.
  exists start.
  replace (Z.of_nat start - 1 + 1) with (Z.of_nat start) by lia.
  rewrite substr_length by (unfold Js.len in *; lia).
  repeat split.
  - lia.
  - destruct start as [|start]; [now left | right].
    destruct Hstart as [Hstart|Hstart]; [discriminate|].
    unfold sub in Hstart. rewrite get_take in Hstart by lia. exact Hstart.
  - intros k [Hk1 Hk2] Hget. apply (Hafter k Hk1).
    unfold sub. rewrite get_take by lia. exact Hget.
Qed.

Lemma offsetOf_position (content : string) (l start n : nat) :
  (start <= n)%nat ->
  Offsets.lineOffset content l = Some start ->
  Offsets.offsetOf content {| line := Z.of_nat l;
                              ch := Z.of_nat n - Z.of_nat start |}
  = Some (Z.of_nat n).
Proof.
  intros Hle Hl. unfold Offsets.offsetOf. cbn [line ch].
  destruct (Z.ltb_spec (Z.of_nat l) 0); [lia|].
  destruct (Z.ltb_spec (Z.of_nat n - Z.of_nat start) 0); [lia|].
  cbn [orb]. rewrite Nat2Z.id, Hl. cbn [option_map]. f_equal. lia.
Qed.

(** The position computed for an index within the content denotes it. *)
Lemma position_in_content (content : string) (index : Z) :
  0 <= index <= Js.len content ->
  exists p,
    EditorExtensions.getEditorPositionFromIndex content index = Some p
    /\ Offsets.offsetOf content p = Some index.
Proof.
  intros Hindex. unfold Js.len in Hindex.
  set (n := Z.to_nat index).
  assert (Hn : (n <= String.length content)%nat) by lia.
  replace index with (Z.of_nat n) in * by lia.
  destruct (position_of_index content n Hn)
    as (start & Hpos & Hle & Hprev & Hno).
  rewrite Hpos. eexists. split; [reflexivity|].
  apply offsetOf_position; [exact Hle|].
  rewrite (countLF_take_same content start n Hle Hno).
  now apply lineOffset_start.
Qed.

(** X9. Positions and offsets are inverse to each other: the position
    computed for an index within the content denotes that index, and it is
    the only position on its own line that does. *)
Theorem getEditorPositionFromIndex_inverse (content : string) (index : Z) :
  0 <= index <= Js.len content ->
  exists p,
    EditorExtensions.getEditorPositionFromIndex content index = Some p
    /\ Offsets.offsetOf content p = Some index
    /\ forall q,
         Offsets.offsetOf content q = Some index ->
         (forall k, index - ch q <= Z.of_nat k < index ->
                    String.get k content <> Some Js.LF) ->
         q = p.
Proof.
  intros Hindex. unfold Js.len in Hindex.
  set (n := Z.to_nat index).
  assert (Hn : (n <= String.length content)%nat) by lia.
  replace index with (Z.of_nat n) in * by lia.
  destruct (position_of_index content n Hn)
    as (start & Hpos & Hle & Hprev & Hno).
  rewrite Hpos. eexists. split; [reflexivity|].
  assert (Hline : Offsets.lineOffset
                    content (Position.countLF (Position.take n content))
                  = Some start).
  { rewrite (countLF_take_same content start n Hle Hno).
    now apply lineOffset_start. }
  split; [now apply offsetOf_position|].
  intros [ql qc] Hq Hnq. unfold Offsets.offsetOf in Hq. cbn [line ch] in *.
  destruct (Z.ltb_spec ql 0); [discriminate|].
  destruct (Z.ltb_spec qc 0); [discriminate|]. cbn [orb] in Hq.
  destruct (Offsets.lineOffset content (Z.to_nat ql)) as [o|] eqn:Ho;
    [|discriminate].
  injection Hq as Hq.
  apply lineOffset_inv in Ho as (Holen & Hoprev & Hocount).
  assert (o = start).
  { apply (line_start_unique content o start n); try assumption; try lia.
    intros k Hk. apply Hnq. lia. }
  subst o. f_equal; [|lia].
  rewrite (countLF_take_same content start n Hle Hno), Hocount. lia.
Qed.

Lemma getEditorPositionFromIndex_inverse_witness :
  0 <= 4 <= Js.len Sample.threeLines
  /\ exists p,
       EditorExtensions.getEditorPositionFromIndex Sample.threeLines 4 = Some p
       /\ Offsets.offsetOf Sample.threeLines p = Some 4.
Proof.
  assert (H : 0 <= 4 <= Js.len Sample.threeLines) by (cbn; lia).
  split; [exact H|].
  destruct (getEditorPositionFromIndex_inverse Sample.threeLines 4 H)
    as (p & Hp & Hoff & _).
  exists p. split; [exact Hp | exact Hoff].
Defined.

(** ** The placeholder *)

Lemma prefix_iff (a b : string) :
  String.prefix a b = true <-> exists post, b = a ++ post.
Proof.
  revert b; induction a as [|x a IH]; intros b.
  - split; [intros _; now exists b | now destruct b].
  - destruct b as [|y b]; cbn [String.prefix].
    + split; [discriminate | intros (post & H); discriminate].
    + destruct (ascii_dec x y) as [<-|Hne].
      * rewrite IH. split; intros (post & H); exists post.
        -- cbn. now rewrite H.
        -- now injection H.
      * split; [discriminate|]. intros (post & H). injection H as H _.
        congruence.
Qed.

Lemma OccursAt_zero (search s : string) :
  Offsets.OccursAt search s O <-> String.prefix search s = true.
Proof.
  rewrite prefix_iff. unfold Offsets.OccursAt. split.
  - intros ([|c pre] & post & -> & Hlen); [now exists post | discriminate].
  - intros (post & ->). now exists "", post.
Qed.

Lemma OccursAt_succ (search s : string) (c : ascii) (k : nat) :
  Offsets.OccursAt search (String c s) (S k) <-> Offsets.OccursAt search s k.
Proof.
  unfold Offsets.OccursAt. split.
  - intros ([|d pre] & post & H & Hlen); [discriminate|].
    injection H as _ H. injection Hlen as Hlen. now exists pre, post.
  - intros (pre & post & -> & Hlen). exists (String c pre), post.
    cbn. now rewrite Hlen.
Qed.

Lemma OccursAt_nil (search : string) (k : nat) :
  Offsets.OccursAt search "" k -> k = O.
Proof. intros ([|c pre] & post & H & Hlen); [now subst | discriminate]. Qed.

(** StringIndexOf finds the first occurrence, if there is one. *)
Lemma scanFor_spec (search s : string) (i : nat) :
  (Js.scanFor search s i = -1 /\ forall k, ~ Offsets.OccursAt search s k)
  \/ (exists k,
        Js.scanFor search s i = Z.of_nat (i + k)
        /\ Offsets.OccursAt search s k
        /\ forall j, (j < k)%nat -> ~ Offsets.OccursAt search s j).
Proof.
  revert i; induction s as [|c s IH]; intros i.
  - cbn [Js.scanFor]. destruct (String.prefix search "") eqn:Hp.
    + right. exists O. rewrite Nat.add_0_r. split; [reflexivity|].
      split; [now apply OccursAt_zero | intros j Hj; lia].
    + left. split; [reflexivity|]. intros k Hk.
      pose proof (OccursAt_nil _ _ Hk); subst k.
      apply OccursAt_zero in Hk. congruence.
  - cbn [Js.scanFor]. destruct (String.prefix search (String c s)) eqn:Hp.
    + right. exists O. rewrite Nat.add_0_r. split; [reflexivity|].
      split; [now apply OccursAt_zero | intros j Hj; lia].
    + assert (H0 : ~ Offsets.OccursAt search (String c s) O).
      { intros H. apply OccursAt_zero in H. congruence. }
      destruct (IH (S i)) as [(Hs & Hno)|(k & Hs & Hk & Hmin)].
      * left. split; [exact Hs|]. intros [|k] Hk; [now apply H0|].
        apply OccursAt_succ in Hk. now apply (Hno k).
      * right. exists (S k). split; [rewrite Hs; f_equal; lia|].
        split; [now apply OccursAt_succ|].
        intros [|j] Hj; [exact H0|]. rewrite OccursAt_succ. apply Hmin. lia.
Qed.

Lemma indexOf_first (text search : string) :
  (Js.indexOf text search 0 = -1
   /\ forall k, ~ Offsets.OccursAt search text k)
  \/ (exists k,
        Js.indexOf text search 0 = Z.of_nat k
        /\ Offsets.OccursAt search text k
        /\ forall j, (j < k)%nat -> ~ Offsets.OccursAt search text j).
Proof.
  unfold Js.indexOf.
  replace (Z.to_nat (Z.min (Z.max 0 0) (Js.len text))) with O
    by (unfold Js.len; lia).
  exact (scanFor_spec search text O).
Qed.

Lemma OccursAt_end (search text : string) (k : nat) :
  Offsets.OccursAt search text k ->
  (k + String.length search <= String.length text)%nat.
Proof.
  intros (pre & post & -> & <-). rewrite !length_append. lia.
Qed.

(** X10. Once the metadata has arrived, the editor is left alone exactly
    when the placeholder is no longer in the text; otherwise one range is
    replaced, and it runs from the offset of the first occurrence of the
    placeholder to the offset just after it.  The replacement is the block
    of the metadata, or without metadata the selection the call began with,
    or the URL when nothing was selected. *)
Theorem convertUrlToCodeBlock_range
        (selectedText pasteId url : string)
        (linkMetadata : option LinkMetadata) (text : string) :
  exists call,
    UrlConversion.convertUrlToCodeBlock
      selectedText pasteId url linkMetadata text = Some call
    /\ (call = None
        <-> forall k,
              ~ Offsets.OccursAt (UrlConversion.fetchingText pasteId url)
                                 text k)
    /\ forall replacement from to,
         call = Some (UrlConversion.ReplaceRange replacement from to) ->
         exists k,
           Offsets.OccursAt (UrlConversion.fetchingText pasteId url) text k
           /\ (forall j, (j < k)%nat ->
                 ~ Offsets.OccursAt (UrlConversion.fetchingText pasteId url)
                                    text j)
           /\ Offsets.offsetOf text from = Some (Z.of_nat k)
           /\ Offsets.offsetOf text to
              = Some (Z.of_nat k
                      + Js.len (UrlConversion.fetchingText pasteId url))
           /\ replacement
              = match linkMetadata, selectedText with
                | Some m, _ => CodeBlockGenerator.genCodeBlock m
                | None, EmptyString => url
                | None, String _ _ => selectedText
                end.
Proof.
  unfold UrlConversion.convertUrlToCodeBlock. cbv zeta.
  set (ft := UrlConversion.fetchingText pasteId url).
  destruct (indexOf_first text ft) as [(Hidx & Hno)|(k & Hidx & Hk & Hmin)];
    rewrite Hidx.
  - exists None. cbn [Z.ltb Z.compare]. split; [reflexivity|].
    split; [tauto | discriminate].
  - destruct (Z.ltb_spec (Z.of_nat k) 0); [lia|].
    pose proof (OccursAt_end _ _ _ Hk) as Hend.
    assert (Hin1 : 0 <= Z.of_nat k <= Js.len text) by (unfold Js.len; lia).
    assert (Hin2 : 0 <= Z.of_nat k + Js.len ft <= Js.len text)
      by (unfold Js.len; lia).
    destruct (position_in_content text _ Hin1) as (p1 & Hp1 & Ho1).
    destruct (position_in_content text _ Hin2) as (p2 & Hp2 & Ho2).
    rewrite Hp1, Hp2.
    exists (Some (UrlConversion.ReplaceRange
                    match linkMetadata, selectedText with
                    | Some m, _ => CodeBlockGenerator.genCodeBlock m
                    | None, EmptyString => url
                    | None, String _ _ => selectedText
                    end p1 p2)).
    split; [now destruct linkMetadata, selectedText|].
    split.
    + split; [discriminate|].
      intros Hno. exfalso. now apply (Hno k).
    + intros r from to Hcall. exists k.
      injection Hcall as <- <- <-. repeat split; assumption.
Qed.

(** ** The placeholder on its line *)

Lemma allOf_impl (p q : ascii -> bool) (s : string) :
  (forall c, p c = true -> q c = true) ->
  UrlGrammar.allOf p s = true -> UrlGrammar.allOf q s = true.
Proof.
  intros Hpq; induction s as [|c s IH]; cbn; [reflexivity|].
  rewrite !andb_true_iff. intros [Hc Hs]. auto.
Qed.

Lemma allOf_get (p : ascii -> bool) (s : string) (j : nat) (c : ascii) :
  UrlGrammar.allOf p s = true -> String.get j s = Some c -> p c = true.
Proof.
  revert j; induction s as [|d s IH]; intros j Hall Hj; [discriminate|].
  cbn in Hall. apply andb_true_iff in Hall as [Hd Hs].
  destruct j as [|j]; cbn in Hj; [now injection Hj as <- | eauto].
Qed.

Lemma get_append_l (a b : string) (j : nat) :
  (j < String.length a)%nat -> String.get j (a ++ b) = String.get j a.
Proof.
  revert j; induction a as [|c a IH]; intros j Hj; cbn in *; [lia|].
  destruct j as [|j]; [reflexivity|]. apply IH. lia.
Qed.

Lemma get_append_r (a b : string) (j : nat) :
  String.get (String.length a + j) (a ++ b) = String.get j b.
Proof. induction a as [|c a IH]; cbn; [reflexivity | exact IH]. Qed.

Lemma upper_space (c : ascii) :
  UrlGrammar.isNonSpace (UrlGrammar.upper c) = UrlGrammar.isNonSpace c.
Proof. destruct c as [[] [] [] [] [] [] [] []]; vm_compute; reflexivity. Qed.

Lemma upcase_nonSpace (s : string) :
  UrlGrammar.allOf UrlGrammar.isNonSpace (UrlGrammar.upcase s)
  = UrlGrammar.allOf UrlGrammar.isNonSpace s.
Proof.
  induction s as [|c s IH]; cbn; [reflexivity|].
  now rewrite upper_space, IH.
Qed.

Lemma Spells_nonSpace (word w : string) :
  UrlGrammar.allOf UrlGrammar.isNonSpace (UrlGrammar.upcase word) = true ->
  UrlGrammar.Spells word w ->
  UrlGrammar.allOf UrlGrammar.isNonSpace w = true.
Proof.
  unfold UrlGrammar.Spells. intros Hword Hw.
  now rewrite <- upcase_nonSpace, Hw.
Qed.

Lemma isAlnum_nonSpace (c : ascii) :
  UrlGrammar.isAlnum c = true -> UrlGrammar.isNonSpace c = true.
Proof. destruct c as [[] [] [] [] [] [] [] []]; vm_compute; auto. Qed.

Lemma isLabelChar_nonSpace (c : ascii) :
  UrlGrammar.isLabelChar c = true -> UrlGrammar.isNonSpace c = true.
Proof. destruct c as [[] [] [] [] [] [] [] []]; vm_compute; auto. Qed.

Lemma isNonSpace_noBreak (c : ascii) :
  UrlGrammar.isNonSpace c = true -> Escaping.noBreak c = true.
Proof. destruct c as [[] [] [] [] [] [] [] []]; vm_compute; auto. Qed.

Lemma Scheme_nonSpace (p : string) :
  UrlGrammar.Scheme p -> UrlGrammar.allOf UrlGrammar.isNonSpace p = true.
Proof.
  intros [H|H]; revert H; apply Spells_nonSpace; reflexivity.
Qed.

Lemma Host_nonSpace (r : string) :
  UrlGrammar.Host r -> UrlGrammar.allOf UrlGrammar.isNonSpace r = true.
Proof.
  intros (l & t & -> & Hl & _ & Ht).
  rewrite allOf_append. change ("." ++ t) with (String "." t).
  cbn [UrlGrammar.allOf]. rewrite Ht.
  change (UrlGrammar.isNonSpace ".") with true. cbn [andb].
  rewrite andb_true_r.
  destruct Hl as [(a & mid & b & -> & Ha & _ & Hmid & Hb)|[_ Hl]].
  - cbn [UrlGrammar.allOf]. rewrite allOf_append. cbn [UrlGrammar.allOf].
    rewrite (isAlnum_nonSpace a Ha), (isAlnum_nonSpace b Hb),
      (allOf_impl _ _ mid isLabelChar_nonSpace Hmid).
    reflexivity.
  - now rewrite (allOf_impl _ _ l isAlnum_nonSpace Hl).
Qed.

(** A text that [isUrl] accepts holds no white space. *)
Lemma isUrl_nonSpace (u : string) :
  CheckIf.isUrl u = true -> UrlGrammar.allOf UrlGrammar.isNonSpace u = true.
Proof.
  intros H. apply isUrl_iff_Accepted in H as (p & r & -> & Hp & Hr).
  rewrite allOf_append, (Host_nonSpace r Hr), andb_true_r.
  destruct Hp as [[Hp _]|[(a & b & -> & Ha & Hb)|Hp]].
  - now apply Scheme_nonSpace.
  - rewrite allOf_append, (Scheme_nonSpace a Ha).
    revert Hb. apply Spells_nonSpace. reflexivity.
  - revert Hp. apply Spells_nonSpace. reflexivity.
Qed.

Lemma charAt_characters (z : Z) :
  0 <= z < 36 ->
  exists c,
    Js.charAt UrlConversion.characters z = String c ""
    /\ UrlGrammar.isAlnum c = true.
Proof.
  intros Hz. unfold Js.charAt.
  destruct (Z.ltb_spec z 0); [lia|].
  assert (Hn : (Z.to_nat z < 36)%nat) by lia.
  revert Hn. generalize (Z.to_nat z). intros n Hn.
  do 36 (destruct n as [|n]; [eexists; split; reflexivity|]).
  lia.
Qed.

(** The identifier of a placeholder: four letters or digits. *)
Lemma createBlockHash_alnum (draw : nat -> Z) :
  (forall i, 0 <= draw i < 36) ->
  String.length (UrlConversion.createBlockHash draw) = 4%nat
  /\ UrlGrammar.allOf UrlGrammar.isAlnum (UrlConversion.createBlockHash draw)
     = true.
Proof.
  intros Hdraw. unfold UrlConversion.createBlockHash.
  cbn [UrlConversion.createBlockHashLoop].
  destruct (charAt_characters _ (Hdraw 0%nat)) as (c0 & -> & H0).
  destruct (charAt_characters _ (Hdraw 1%nat)) as (c1 & -> & H1).
  destruct (charAt_characters _ (Hdraw 2%nat)) as (c2 & -> & H2).
  destruct (charAt_characters _ (Hdraw 3%nat)) as (c3 & -> & H3).
  cbn. now rewrite H0, H1, H2, H3.
Qed.

Lemma fetchingText_oneLine (pasteId url : string) :
  Escaping.oneLine pasteId = true -> Escaping.oneLine url = true ->
  Escaping.oneLine (UrlConversion.fetchingText pasteId url) = true.
Proof.
  intros Hid Hurl. unfold UrlConversion.fetchingText.
  rewrite !oneLine_append, Hid, Hurl. reflexivity.
Qed.

Lemma fetchingText_length (pasteId url : string) :
  Js.len (UrlConversion.fetchingText pasteId url)
  = 18 + Js.len pasteId + Js.len url.
Proof.
  unfold UrlConversion.fetchingText, Js.len. rewrite !length_append.
  cbn [String.length]. lia.
Qed.

Lemma occurrence_oneLine (search text : string) (k j : nat) :
  Offsets.OccursAt search text k ->
  Escaping.oneLine search = true ->
  (k <= j < k + String.length search)%nat ->
  String.get j text <> Some Js.LF.
Proof.
  intros (pre & post & -> & <-) Hone Hj Hget.
  replace j with (String.length pre + (j - String.length pre))%nat in Hget
    by lia.
  rewrite get_append_r, get_append_l in Hget by lia.
  apply (allOf_get _ _ _ _ Hone) in Hget. discriminate.
Qed.

(** Two indexes with no line feed from the first to the second lie on one
    line, as far apart as the indexes are. *)
Lemma positions_on_one_line (content : string) (a b : nat)
      (p q : EditorPosition) :
  (a <= b <= String.length content)%nat ->
  (forall k, (a <= k < b)%nat -> String.get k content <> Some Js.LF) ->
  EditorExtensions.getEditorPositionFromIndex content (Z.of_nat a) = Some p ->
  EditorExtensions.getEditorPositionFromIndex content (Z.of_nat b) = Some q ->
  line q = line p /\ ch q = ch p + (Z.of_nat b - Z.of_nat a).
Proof.
  intros Hab Hno Hp Hq.
  destruct (position_of_index content a) as (sa & Hpa & Hsa & Hpreva & Hnoa);
    [lia|].
  destruct (position_of_index content b) as (sb & Hpb & Hsb & Hprevb & Hnob);
    [lia|].
  rewrite Hpa in Hp. rewrite Hpb in Hq.
  injection Hp as <-. injection Hq as <-. cbn [line ch].
  assert (Hle : (sb <= a)%nat).
  { destruct (Nat.le_gt_cases sb a) as [H|H]; [exact H|]. exfalso.
    destruct Hprevb as [->|Hprevb]; [lia|].
    apply (Hno (sb - 1)%nat); [lia | exact Hprevb]. }
  assert (sa = sb).
  { apply (line_start_unique content sa sb a); try assumption.
    intros k Hk. apply Hnob. lia. }
  subst sb. split; [|lia].
  f_equal. apply countLF_take_same; [lia | exact Hno].
Qed.

(** X11. The placeholder of a URL that [isUrl] accepts, with an identifier
    drawn by [createBlockHash], lies within one line of the text: the range
    that is replaced begins and ends on the same line, and is as wide as
    the placeholder - the 22 characters around the URL, and the URL. *)
Theorem placeholder_on_one_line
        (draw : nat -> Z) (selectedText url : string)
        (linkMetadata : option LinkMetadata) (text replacement : string)
        (from to : EditorPosition) :
  (forall i, 0 <= draw i < 36) ->
  CheckIf.isUrl url = true ->
  UrlConversion.convertUrlToCodeBlock
    selectedText (UrlConversion.createBlockHash draw) url linkMetadata text
  = Some (Some (UrlConversion.ReplaceRange replacement from to)) ->
  line to = line from /\ ch to = ch from + 22 + Js.len url.
Proof.
  intros Hdraw Hurl Hcall.
  destruct (createBlockHash_alnum draw Hdraw) as [Hlen Hid].
  set (pasteId := UrlConversion.createBlockHash draw) in *.
  assert (Hone : Escaping.oneLine (UrlConversion.fetchingText pasteId url)
                 = true).
  { apply fetchingText_oneLine.
    - apply (allOf_impl UrlGrammar.isAlnum); [|exact Hid].
      intros c Hc. now apply isNonSpace_noBreak, isAlnum_nonSpace.
    - apply (allOf_impl UrlGrammar.isNonSpace);
        [exact isNonSpace_noBreak | now apply isUrl_nonSpace]. }
  pose proof (fetchingText_length pasteId url) as Hft.
  unfold Js.len at 2 in Hft. rewrite Hlen in Hft.
  unfold UrlConversion.convertUrlToCodeBlock in Hcall. cbv zeta in Hcall.
  set (ft := UrlConversion.fetchingText pasteId url) in *.
  destruct (indexOf_first text ft) as [(Hidx & _)|(k & Hidx & Hk & _)];
    rewrite Hidx in Hcall; [discriminate|].
  destruct (Z.ltb_spec (Z.of_nat k) 0); [lia|].
  pose proof (OccursAt_end _ _ _ Hk) as Hend.
  unfold Js.len in Hcall, Hft. rewrite <- Nat2Z.inj_add in Hcall.
  destruct (EditorExtensions.getEditorPositionFromIndex text (Z.of_nat k))
    as [p|] eqn:Hp; [|discriminate].
  destruct (EditorExtensions.getEditorPositionFromIndex
              text (Z.of_nat (k + String.length ft)))
    as [q|] eqn:Hq; [|discriminate].
  assert (from = p /\ to = q) as [-> ->]
    by (destruct linkMetadata; injection Hcall as _ <- <-; auto).
  destruct (positions_on_one_line text k (k + String.length ft) p q)
    as [Hline Hch]; try assumption; [lia | |].
  - intros j Hj. now apply (occurrence_oneLine ft text k j).
  - split; [exact Hline|]. unfold Js.len. lia.
Qed.

Lemma placeholder_on_one_line_witness :
  CheckIf.isUrl "http://example.com" = true
  /\ 0 = 0 /\ 40 = 0 + 22 + Js.len "http://example.com".
Proof.
  split; [reflexivity|].
  apply (placeholder_on_one_line
           (fun _ => 0) "" "http://example.com" None
           "[Fetching Data#aaaa](http://example.com)" "http://example.com"
           {| line := 0; ch := 0 |} {| line := 0; ch := 40 |}).
  - intros i. lia.
  - reflexivity.
  - reflexivity.
Defined.

(** ** Matching with results *)

Section RunFacts.

Import Reach.

Lemma star_ext (body : Regex.State -> (Regex.State -> bool) -> bool)
      (fuel : nat) (x : Regex.State) (k k' : Regex.State -> bool) :
  (forall x k k', (forall y, k y = k' y) -> body x k = body x k') ->
  (forall y, k y = k' y) ->
  Regex.star body fuel x k = Regex.star body fuel x k'.
Proof.
  intros Hbody. revert x; induction fuel as [|fuel IH]; intros x Hk;
    cbn [Regex.star].
  - apply Hk.
  - rewrite (Hk x). f_equal. apply Hbody. intros y. now rewrite IH.
Qed.

Lemma atLeast_ext (body : Regex.State -> (Regex.State -> bool) -> bool)
      (min : nat) (x : Regex.State) (k k' : Regex.State -> bool) :
  (forall x k k', (forall y, k y = k' y) -> body x k = body x k') ->
  (forall y, k y = k' y) ->
  Regex.atLeast body min x k = Regex.atLeast body min x k'.
Proof.
  intros Hbody. revert x; induction min as [|min IH]; intros x Hk;
    cbn [Regex.atLeast].
  - now apply star_ext.
  - apply Hbody. intros y. now apply IH.
Qed.

Lemma matcher_ext (ic : bool) (r : Regex.regex) (x : Regex.State)
      (k k' : Regex.State -> bool) :
  (forall y, k y = k' y) ->
  Regex.matcher ic r x k = Regex.matcher ic r x k'.
Proof.
  revert x k k'; induction r; intros x k k' Hk; cbn [Regex.matcher].
  - apply Hk.
  - destruct (snd x); [reflexivity | now rewrite Hk].
  - destruct (snd x); [reflexivity | now rewrite Hk].
  - apply IHr1. intros y. now apply IHr2.
  - now rewrite (IHr1 x k k' Hk), (IHr2 x k k' Hk).
  - now rewrite (IHr x k k' Hk), (Hk x).
  - apply atLeast_ext; [|exact Hk]. intros; now apply IHr.
  - now rewrite (Hk x).
  - now rewrite (Hk x).
  - destruct (snd x); [apply Hk | reflexivity].
Qed.

Section Results.

Variable R : Type.

Lemma star_isSome
      (bodyR : Regex.State -> (Regex.State -> option R) -> option R)
      (body : Regex.State -> (Regex.State -> bool) -> bool)
      (fuel : nat) (x : Regex.State) (k : Regex.State -> option R) :
  (forall x k k', (forall y, k y = k' y) -> body x k = body x k') ->
  (forall x k, isSome (bodyR x k) = body x (fun y => isSome (k y))) ->
  isSome (RegexExec.star bodyR fuel x k)
  = Regex.star body fuel x (fun y => isSome (k y)).
Proof.
  intros Hext Hbody. revert x; induction fuel as [|fuel IH]; intros x;
    cbn [RegexExec.star Regex.star]; [reflexivity|].
  rewrite <- (Hext x (fun y =>
                        isSome (if (String.length (snd y)
                                    <? String.length (snd x))%nat
                                then RegexExec.star bodyR fuel y k
                                else None))).
  - rewrite <- Hbody.
    now destruct (bodyR x _).
  - intros y. destruct (_ <? _)%nat; [apply IH | reflexivity].
Qed.

Lemma atLeast_isSome
      (bodyR : Regex.State -> (Regex.State -> option R) -> option R)
      (body : Regex.State -> (Regex.State -> bool) -> bool)
      (min : nat) (x : Regex.State) (k : Regex.State -> option R) :
  (forall x k k', (forall y, k y = k' y) -> body x k = body x k') ->
  (forall x k, isSome (bodyR x k) = body x (fun y => isSome (k y))) ->
  isSome (RegexExec.atLeast bodyR min x k)
  = Regex.atLeast body min x (fun y => isSome (k y)).
Proof.
  intros Hext Hbody. revert x; induction min as [|min IH]; intros x;
    cbn [RegexExec.atLeast Regex.atLeast].
  - now apply star_isSome.
  - rewrite Hbody. apply Hext. exact IH.
Qed.

(** A result is found exactly when the matcher succeeds. *)
Lemma run_isSome (ic : bool) (r : Regex.regex) (x : Regex.State)
      (k : Regex.State -> option R) :
  isSome (RegexExec.run ic r x k)
  = Regex.matcher ic r x (fun y => isSome (k y)).
Proof.
  revert x k; induction r; intros x k; cbn [RegexExec.run Regex.matcher].
  - reflexivity.
  - destruct (snd x); [reflexivity|]. now destruct (Ascii.eqb _ _).
  - destruct (snd x); [reflexivity|]. now destruct (xorb _ _).
  - rewrite IHr1. apply matcher_ext. intros y. apply IHr2.
  - rewrite <- IHr1, <- IHr2. now destruct (RegexExec.run ic r1 x k).
  - rewrite <- IHr. now destruct (RegexExec.run ic r x k).
  - apply atLeast_isSome; [|exact IHr].
    intros; now apply matcher_ext.
  - now destruct (Regex.matcher ic r x _).
  - now destruct (fst x =? 0)%nat.
  - now destruct (snd x).
Qed.

Section Sound.

Variable bodyR : Regex.State -> (Regex.State -> option R) -> option R.
Variable body : Regex.State -> (Regex.State -> bool) -> bool.

Hypothesis body_sound :
  forall x k v,
    bodyR x k = Some v ->
    exists y, (forall k', k' y = true -> body x k' = true) /\ k y = Some v.

Lemma star_sound (fuel : nat) (x : Regex.State)
      (k : Regex.State -> option R) (v : R) :
  RegexExec.star bodyR fuel x k = Some v ->
  exists y,
    (forall k', k' y = true -> Regex.star body fuel x k' = true)
    /\ k y = Some v.
Proof.
  revert x; induction fuel as [|fuel IH]; intros x;
    cbn [RegexExec.star Regex.star].
  - intros H. exists x. auto.
  - destruct (bodyR x _) as [v'|] eqn:Hb.
    + intros [= ->]. apply body_sound in Hb as (y1 & Hreach & Hk).
      destruct (_ <? _)%nat eqn:Hlt in Hk; [|discriminate].
      apply IH in Hk as (y2 & Hstar & Hk). exists y2. split; [|exact Hk].
      intros k' Hk'. apply orb_true_iff. left. apply Hreach.
      rewrite Hlt. now apply Hstar.
    + intros H. exists x. split; [|exact H].
      intros k' Hk'. rewrite Hk'. apply orb_true_r.
Qed.

Lemma atLeast_sound (min : nat) (x : Regex.State)
      (k : Regex.State -> option R) (v : R) :
  RegexExec.atLeast bodyR min x k = Some v ->
  exists y,
    (forall k', k' y = true -> Regex.atLeast body min x k' = true)
    /\ k y = Some v.
Proof.
  revert x; induction min as [|min IH]; intros x;
    cbn [RegexExec.atLeast Regex.atLeast].
  - apply star_sound.
  - intros H. apply body_sound in H as (y1 & Hreach & Hk).
    apply IH in Hk as (y2 & Hrest & Hk). exists y2. split; [|exact Hk].
    intros k' Hk'. apply Hreach. now apply Hrest.
Qed.

End Sound.

(** The result found is the one the continuation yields at an end state
    of a match. *)
Lemma run_sound (r : Regex.regex) (x : Regex.State)
      (k : Regex.State -> option R) (v : R) :
  RegexExec.run true r x k = Some v ->
  exists y, Reaches r x y /\ k y = Some v.
Proof.
  unfold Reaches.
  revert x k v; induction r; intros x k v; cbn [RegexExec.run Regex.matcher].
  - intros H. exists x. auto.
  - destruct (snd x) as [|d rest]; [discriminate|].
    destruct (Ascii.eqb _ _); [|discriminate].
    intros H. exists (S (fst x), rest). split; [|exact H].
    intros k' ->. reflexivity.
  - destruct (snd x) as [|d rest]; [discriminate|].
    destruct (xorb _ _); [|discriminate].
    intros H. exists (S (fst x), rest). split; [|exact H].
    intros k' ->. reflexivity.
  - intros H. apply IHr1 in H as (y1 & H1 & H).
    apply IHr2 in H as (y2 & H2 & H). exists y2. split; [|exact H].
    intros k' Hk'. apply H1. now apply H2.
  - destruct (RegexExec.run true r1 x k) as [v'|] eqn:H1.
    + intros [= ->]. apply IHr1 in H1 as (y & Hy & Hk). exists y.
      split; [|exact Hk]. intros k' Hk'. now rewrite (Hy k' Hk').
    + intros H2. apply IHr2 in H2 as (y & Hy & Hk). exists y.
      split; [|exact Hk]. intros k' Hk'. rewrite (Hy k' Hk').
      apply orb_true_r.
  - destruct (RegexExec.run true r x k) as [v'|] eqn:H1.
    + intros [= ->]. apply IHr in H1 as (y & Hy & Hk). exists y.
      split; [|exact Hk]. intros k' Hk'. now rewrite (Hy k' Hk').
    + intros H. exists x. split; [|exact H].
      intros k' Hk'. rewrite Hk'. apply orb_true_r.
  - apply atLeast_sound. exact IHr.
  - destruct (Regex.matcher true r x _); [discriminate|].
    intros H. exists x. split; [|exact H]. intros k' ->. reflexivity.
  - destruct (fst x =? 0)%nat; [|discriminate].
    intros H. exists x. split; [|exact H]. intros k' ->. reflexivity.
  - destruct (snd x); [|discriminate].
    intros H. exists x. split; [|exact H]. auto.
Qed.

Lemma sameState_iff (y y' : Regex.State) : sameState y y' = true <-> y = y'.
Proof.
  unfold sameState. rewrite andb_true_iff, Nat.eqb_eq, String.eqb_eq.
  destruct y, y'; cbn. split; [intros [-> ->]; reflexivity|].
  intros [= -> ->]. auto.
Qed.

(** With the words of a pattern known, a result comes from a word at the
    head of the input and the continuation on the rest. *)
Lemma run_words (r : Regex.regex) (L : string -> Prop) (i : nat)
      (s : string) (k : Regex.State -> option R) (v : R) :
  Language.Recognizes r L ->
  RegexExec.run true r (i, s) k = Some v ->
  exists a rest,
    s = a ++ rest /\ L a /\ k ((i + String.length a)%nat, rest) = Some v.
Proof.
  intros Hr H. apply run_sound in H as (y & Hy & Hk).
  specialize (Hy (sameState y) (proj2 (sameState_iff y y) eq_refl)).
  apply Hr in Hy as (a & rest & -> & Ha & Hsame).
  apply sameState_iff in Hsame. subst y. now exists a, rest.
Qed.

Lemma run_some (r : Regex.regex) (L : string -> Prop) (i : nat)
      (a rest : string) (k : Regex.State -> option R) :
  Language.Recognizes r L ->
  L a -> k ((i + String.length a)%nat, rest) <> None ->
  RegexExec.run true r (i, a ++ rest) k <> None.
Proof.
  intros Hr Ha Hk Hrun.
  assert (H : isSome (RegexExec.run true r (i, a ++ rest) k) = true).
  { rewrite run_isSome. apply Hr. exists a, rest.
    split; [reflexivity|]. split; [exact Ha|].
    destruct (k _); [reflexivity | congruence]. }
  now rewrite Hrun in H.
Qed.

End Results.

End RunFacts.

(** ** The alternatives of a URL in a context *)

Section UrlWords.

Import UrlGrammar Language.

Lemma take_append_short (n : nat) (a b : string) :
  (n <= String.length a)%nat ->
  Position.take n (a ++ b) = Position.take n a.
Proof.
  revert a; induction n as [|n IH]; intros [|c a] H; cbn in *;
    try reflexivity; try lia.
  rewrite IH; [reflexivity | lia].
Qed.

Lemma take_drop (n : nat) (s : string) :
  Position.take n s ++ Js.drop n s = s.
Proof.
  revert s; induction n as [|n IH]; intros [|c s]; cbn; try reflexivity.
  now rewrite IH.
Qed.

Lemma StartsWww_iff (r : string) :
  StartsWww r <-> upcase (Position.take 3 r) = "WWW".
Proof.
  unfold StartsWww. split.
  - intros (w & rest & -> & Hw).
    pose proof (Spells_length _ _ Hw) as Hlen. cbn in Hlen.
    rewrite <- Hlen, take_append_exact. exact Hw.
  - intros H. exists (Position.take 3 r), (Js.drop 3 r).
    split; [now rewrite take_drop | exact H].
Qed.

Lemma Host_length (r : string) : Host r -> (4 <= String.length r)%nat.
Proof.
  intros (l & t & -> & Hl & Hlen & _). rewrite !length_append.
  cbn [String.length].
  destruct Hl as [(a & mid & b & -> & _)|[Hl _]]; cbn [String.length]; lia.
Qed.

(** The look-ahead on the rest of the input sees what it sees on the host
    alone. *)
Lemma StartsWww_host (r rest : string) :
  Host r -> StartsWww (r ++ rest) <-> StartsWww r.
Proof.
  intros Hr. apply Host_length in Hr.
  rewrite !StartsWww_iff, take_append_short by lia. reflexivity.
Qed.

Lemma host_after (h : Regex.regex) (W : string -> Prop) (i : nat)
      (s : string) (k : Regex.State -> bool) (P : string -> string -> Prop) :
  Recognizes h W ->
  (exists p r,
     s = p ++ r /\ P p r
     /\ Regex.matcher true h ((i + String.length p)%nat, r) k = true)
  <-> exists p a rest,
        s = p ++ a ++ rest /\ P p (a ++ rest) /\ W a
        /\ k ((i + String.length (p ++ a))%nat, rest) = true.
Proof.
  intros Hh. split.
  - intros (p & r & -> & HP & Hm).
    apply Hh in Hm as (a & rest & -> & Ha & Hk).
    exists p, a, rest. rewrite length_append, Nat.add_assoc. auto.
  - intros (p & a & rest & -> & HP & Ha & Hk).
    exists p, (a ++ rest). split; [reflexivity|]. split; [exact HP|].
    apply Hh. exists a, rest.
    rewrite length_append, Nat.add_assoc in Hk. auto.
Qed.

(** The alternatives consume exactly the URLs of the grammar, wherever
    they stand. *)
Lemma urlAlternatives_words : Recognizes Regex.urlAlternatives Accepted.
Proof.
  intros i s k.
  unfold Regex.urlAlternatives. cbn [Regex.alts Regex.matcher].
  rewrite !orb_true_iff, !schemePrefix_iff, !(Recognizes_lit "www." i s).
  rewrite (host_after Regex.hyphenHost hyphenHostWords i s k
             (fun p r => Scheme p /\ ~ StartsWww r \/ SchemeWww p)
             hyphenHost_words).
  rewrite (host_after Regex.simpleHost simpleHostWords i s k
             (fun p r => Scheme p /\ ~ StartsWww r \/ SchemeWww p)
             simpleHost_words).
  rewrite (host_after Regex.hyphenHost hyphenHostWords i s k
             (fun p _ => Spells "www." p) hyphenHost_words).
  rewrite (host_after Regex.simpleHost simpleHostWords i s k
             (fun p _ => Spells "www." p) simpleHost_words).
  unfold Accepted. split.
  - intros H.
    assert (exists p a rest,
              s = p ++ a ++ rest
              /\ (Scheme p /\ ~ StartsWww (a ++ rest) \/ SchemeWww p
                  \/ Spells "www." p)
              /\ Host a
              /\ k ((i + String.length (p ++ a))%nat, rest) = true)
      as (p & a & rest & -> & Hp & Ha & Hk).
    { destruct H as [H|[H|[H|H]]];
        destruct H as (p & a & rest & Hs & Hp & Ha & Hk);
        exists p, a, rest; (split; [exact Hs|]); (split; [tauto|]);
        (split; [apply Host_iff; tauto | exact Hk]). }
    exists (p ++ a), rest. rewrite append_assoc.
    split; [reflexivity|]. split; [|exact Hk].
    exists p, a. split; [reflexivity|]. split; [|exact Ha].
    rewrite (StartsWww_host a rest Ha) in Hp. exact Hp.
  - intros (u & rest & -> & (p & a & -> & Hp & Ha) & Hk).
    rewrite <- (StartsWww_host a rest Ha) in Hp.
    apply Host_iff in Ha as [Ha|Ha].
    + destruct Hp as [Hp|[Hp|Hp]].
      * left. exists p, a, rest. rewrite append_assoc. auto.
      * left. exists p, a, rest. rewrite append_assoc. auto.
      * right; left. exists p, a, rest. rewrite append_assoc. auto.
    + destruct Hp as [Hp|[Hp|Hp]].
      * right; right; left. exists p, a, rest. rewrite append_assoc. auto.
      * right; right; left. exists p, a, rest. rewrite append_assoc. auto.
      * right; right; right. exists p, a, rest. rewrite append_assoc. auto.
Qed.

End UrlWords.

(** ** Markdown links *)

Section LinkWords.

Import UrlGrammar Language.

Lemma upper_punct (c d : ascii) :
  c = "["%char \/ c = "]"%char \/ c = "("%char \/ c = ")"%char ->
  upper d = upper c -> d = c.
Proof.
  intros [ -> | [ -> | [ -> | -> ]]];
    destruct d as [[] [] [] [] [] [] [] []]; vm_compute; intros H;
    try reflexivity; discriminate.
Qed.

Lemma Spells_open (x : string) : Spells "[" x <-> x = "[".
Proof.
  unfold Spells. split; [|now intros ->].
  destruct x as [|d [|e x]]; cbn [upcase]; intros H; try discriminate.
  injection H as H. rewrite (upper_punct "[" d); auto.
Qed.

Lemma Spells_close (x : string) : Spells ")" x <-> x = ")".
Proof.
  unfold Spells. split; [|now intros ->].
  destruct x as [|d [|e x]]; cbn [upcase]; intros H; try discriminate.
  injection H as H. rewrite (upper_punct ")" d); auto.
Qed.

Lemma Spells_middle (x : string) : Spells "](" x <-> x = "](".
Proof.
  unfold Spells. split; [|now intros ->].
  destruct x as [|d [|e [|f x]]]; cbn [upcase]; intros H; try discriminate.
  injection H as Hd He.
  rewrite (upper_punct "]" d), (upper_punct "(" e); auto.
Qed.

Lemma notBracket_class (d : ascii) :
  xorb true (Regex.inClass true [Regex.Single "["; Regex.Single "]"] d)
  = Links.noBracket d.
Proof.
  destruct d as [[] [] [] [] [] [] [] []]; vm_compute; reflexivity.
Qed.

Lemma label_words :
  Recognizes (Regex.AtLeast 0 Regex.notBracket) (Many 0 Links.noBracket).
Proof. apply Recognizes_atLeast. exact notBracket_class. Qed.

Lemma capture_exact (i : nat) (a rest : string) :
  String.substring 0 (i + String.length a - i) (a ++ rest) = a.
Proof.
  replace (i + String.length a - i)%nat with (String.length a) by lia.
  rewrite substring_take. apply take_append_exact.
Qed.

Lemma link_length (label target : string) :
  String.length (Links.link label target)
  = (4 + String.length label + String.length target)%nat.
Proof.
  unfold Links.link. rewrite !length_append. cbn [String.length]. lia.
Qed.

End LinkWords.

Section LinkRuns.

Import UrlGrammar Language.

Variable R : Type.

(** A result of the link pattern comes from a link at the head of the
    input, whose label and target are the captures. *)
Lemma linkBody_run (i : nat) (s : string) (caps : RegexExec.Captures)
      (k : Regex.State -> RegexExec.Captures -> option R) (v : R) :
  RegexExec.runG true RegexExec.linkBody (i, s) caps k = Some v ->
  exists label target rest,
    s = Links.link label target ++ rest
    /\ allOf Links.noBracket label = true
    /\ Accepted target
    /\ k ((i + String.length (Links.link label target))%nat, rest)
         (RegexExec.setCapture
            2 target (RegexExec.setCapture 1 label caps))
       = Some v.
Proof.
  unfold RegexExec.linkBody, RegexExec.urlGroup. cbn [RegexExec.runG].
  intros H.
  apply (run_words _ _ _ _ _ _ _ (Recognizes_chr "[")) in H
    as (a0 & r0 & -> & Ha0 & H).
  apply (proj1 (Spells_open a0)) in Ha0. subst a0.
  apply (run_words _ _ _ _ _ _ _ label_words) in H
    as (label & r1 & -> & [_ Hlabel] & H).
  apply (run_words _ _ _ _ _ _ _ (Recognizes_lit "](")) in H
    as (a2 & r2 & -> & Ha2 & H).
  apply (proj1 (Spells_middle a2)) in Ha2. subst a2.
  apply (run_words _ _ _ _ _ _ _ urlAlternatives_words) in H
    as (target & r3 & -> & Htarget & H).
  apply (run_words _ _ _ _ _ _ _ (Recognizes_chr ")")) in H
    as (a4 & rest & -> & Ha4 & H).
  apply (proj1 (Spells_close a4)) in Ha4. subst a4.
  exists label, target, rest.
  split; [unfold Links.link; now rewrite !append_assoc|].
  split; [exact Hlabel|]. split; [exact Htarget|].
  cbn [fst snd] in H. rewrite !capture_exact in H.
  rewrite link_length. cbn [String.length] in H.
  replace (4 + String.length label + String.length target)%nat
    with (1 + String.length label + 2 + String.length target + 1)%nat
    by lia.
  rewrite !Nat.add_assoc. exact H.
Qed.

(** And a link at the head of the input gives a result whenever the
    continuation gives one after it. *)
Lemma linkBody_some (i : nat) (label target rest : string)
      (caps : RegexExec.Captures)
      (k : Regex.State -> RegexExec.Captures -> option R) :
  allOf Links.noBracket label = true ->
  Accepted target ->
  (forall caps',
     k ((i + String.length (Links.link label target))%nat, rest) caps'
     <> None) ->
  RegexExec.runG true RegexExec.linkBody
                 (i, Links.link label target ++ rest) caps k
  <> None.
Proof.
  intros Hlabel Htarget Hk.
  unfold RegexExec.linkBody, RegexExec.urlGroup. cbn [RegexExec.runG].
  unfold Links.link. rewrite !append_assoc.
  apply (run_some _ _ _ _ _ _ _ (Recognizes_chr "["));
    [now apply Spells_open|].
  apply (run_some _ _ _ _ _ _ _ label_words); [split; [lia | exact Hlabel]|].
  apply (run_some _ _ _ _ _ _ _ (Recognizes_lit "]("));
    [now apply Spells_middle|].
  apply (run_some _ _ _ _ _ _ _ urlAlternatives_words); [exact Htarget|].
  apply (run_some _ _ _ _ ")" rest _ (Recognizes_chr ")"));
    [now apply Spells_close|].
  cbn [String.length].
  replace (i + 1 + String.length label + 2 + String.length target + 1)%nat
    with (i + String.length (Links.link label target))%nat
    by (rewrite link_length; lia).
  apply Hk.
Qed.

End LinkRuns.

Section LinkedUrls.

Import UrlGrammar Language.

Lemma execFrom_link_later (s : string) (i : nat) :
  RegexExec.execFrom RegexExec.linkRegex (S i) s = None.
Proof.
  revert i; induction s as [|c s IH]; intros i; cbn [RegexExec.execFrom].
  - reflexivity.
  - rewrite IH. reflexivity.
Qed.

Lemma exec_link_start (s : string) :
  RegexExec.exec RegexExec.linkRegex s
  = RegexExec.runG
      true RegexExec.linkBody (O, s) [None; None]
      (fun y caps =>
         match snd y with
         | EmptyString =>
             Some {| RegexExec.index := O;
                     RegexExec.items :=
                       Some (String.substring 0 (fst y - 0) s) :: caps |}
         | String _ _ => None
         end).
Proof.
  unfold RegexExec.exec.
  destruct s as [|c s]; cbn [RegexExec.execFrom];
    rewrite ?execFrom_link_later;
    match goal with |- match ?a with _ => _ end = ?b =>
      change a with b; now destruct b end.
Qed.

(** What [linkRegex.exec] yields: the text, its label and its target. *)
Lemma exec_link (s : string) (m : RegexExec.MatchArray) :
  RegexExec.exec RegexExec.linkRegex s = Some m ->
  exists label target,
    s = Links.link label target
    /\ allOf Links.noBracket label = true
    /\ Accepted target
    /\ m = {| RegexExec.index := O;
              RegexExec.items := [Some s; Some label; Some target] |}.
Proof.
  rewrite exec_link_start. intros H.
  apply linkBody_run in H as (label & target & rest & -> & Hl & Ht & H).
  cbn [fst snd Nat.add] in H. destruct rest; [|discriminate].
  injection H as <-. rewrite append_nil_r.
  exists label, target. repeat split; try assumption.
  rewrite substring_take, take_append_exact. reflexivity.
Qed.

Lemma exec_link_some (label target : string) :
  allOf Links.noBracket label = true ->
  Accepted target ->
  RegexExec.exec RegexExec.linkRegex (Links.link label target) <> None.
Proof.
  intros Hl Ht. rewrite exec_link_start.
  rewrite <- (append_nil_r (Links.link label target)) at 1.
  apply linkBody_some; [exact Hl | exact Ht |].
  intros caps'. cbn [snd]. discriminate.
Qed.

(** A link has one label and one target. *)
Lemma link_inj (l l' u u' : string) :
  allOf Links.noBracket l = true ->
  allOf Links.noBracket l' = true ->
  Links.link l u = Links.link l' u' -> l = l' /\ u = u'.
Proof.
  unfold Links.link. intros Hl Hl' H. injection H as H.
  revert l' Hl' H; induction l as [|c l IH]; intros [|c' l'] Hl' H.
  - injection H as H. apply append_inv_last in H. auto.
  - exfalso. cbn in H, Hl'. injection H as <- _. discriminate.
  - exfalso. cbn in H, Hl. injection H as -> _. discriminate.
  - cbn in H, Hl, Hl'. injection H as -> H.
    apply andb_true_iff in Hl as [_ Hl]. apply andb_true_iff in Hl' as [_ Hl'].
    destruct (IH Hl l' Hl' H) as [-> ->]. auto.
Qed.

Lemma isLinkedUrl_LinkedUrl (s : string) :
  CheckIf.isLinkedUrl s = true <-> Links.LinkedUrl s.
Proof.
  unfold CheckIf.isLinkedUrl, RegexExec.test, Links.LinkedUrl. split.
  - destruct (RegexExec.exec RegexExec.linkRegex s) as [m|] eqn:Hm;
      [|discriminate].
    intros _. apply exec_link in Hm as (label & target & H1 & H2 & H3 & _).
    now exists label, target.
  - intros (label & target & -> & Hl & Ht).
    pose proof (exec_link_some label target Hl Ht) as H.
    now destruct (RegexExec.exec _ _).
Qed.

(** X12. [isLinkedUrl] accepts exactly the texts of the form
    [[label](target)] whose label holds no square bracket and whose target
    [isUrl] accepts; on every other text [getUrlFromLink] yields the empty
    string. *)
Theorem isLinkedUrl_iff (s : string) :
  (CheckIf.isLinkedUrl s = true
   <-> exists label target,
         s = Links.link label target
         /\ allOf Links.noBracket label = true
         /\ CheckIf.isUrl target = true)
  /\ (CheckIf.isLinkedUrl s = false -> Main.getUrlFromLink s = Some "").
Proof.
  split.
  - rewrite isLinkedUrl_LinkedUrl. unfold Links.LinkedUrl.
    split; intros (label & target & Hs & Hl & Ht); exists label, target;
      (split; [exact Hs|]); (split; [exact Hl|]);
      now apply isUrl_iff_Accepted.
  - unfold CheckIf.isLinkedUrl, RegexExec.test, Main.getUrlFromLink.
    destruct (RegexExec.exec RegexExec.linkRegex s); [discriminate|].
    reflexivity.
Qed.

Lemma getUrlFromLink_link (label target : string) :
  allOf Links.noBracket label = true ->
  Accepted target ->
  Main.getUrlFromLink (Links.link label target) = Some target.
Proof.
  intros Hl Ha. unfold Main.getUrlFromLink.
  destruct (RegexExec.exec RegexExec.linkRegex (Links.link label target))
    as [m|] eqn:Hm; [|now apply exec_link_some in Hm].
  apply exec_link in Hm as (l' & u' & Heq & Hl' & _ & ->).
  apply link_inj in Heq as [-> ->]; [reflexivity | exact Hl | exact Hl'].
Qed.

(** X13. From a link whose label holds no square bracket and whose target
    [isUrl] accepts, [getUrlFromLink] extracts the target: a defined
    string, itself accepted by [isUrl]. *)
Theorem getUrlFromLink_target (label target : string) :
  allOf Links.noBracket label = true ->
  CheckIf.isUrl target = true ->
  CheckIf.isLinkedUrl (Links.link label target) = true
  /\ Main.getUrlFromLink (Links.link label target) = Some target.
Proof.
  intros Hl Ht. pose proof (proj1 (isUrl_iff_Accepted target) Ht) as Ha.
  split.
  - apply isLinkedUrl_LinkedUrl. now exists label, target.
  - now apply getUrlFromLink_link.
Qed.

Lemma getUrlFromLink_target_witness :
  Main.getUrlFromLink (Links.link "Example" "https://example.com")
  = Some "https://example.com".
Proof.
  exact (proj2 (getUrlFromLink_target "Example" "https://example.com"
                                      eq_refl eq_refl)).
Defined.

End LinkedUrls.

(** ** The selection *)

Section Selection.

Import UrlGrammar.

Lemma splitWords_word (s : string) :
  allOf Links.wordChar s = true -> Main.splitWords s = [s].
Proof.
  induction s as [|c s IH]; [reflexivity|]. cbn [allOf Main.splitWords].
  rewrite andb_true_iff. intros [Hc Hs]. unfold Links.wordChar in Hc.
  apply negb_true_iff in Hc. rewrite Hc, (IH Hs). reflexivity.
Qed.

Lemma trimEnd_solid (s : string) (c : ascii) :
  Js.isWhiteSpace c = false ->
  Js.trimEnd (s ++ String c "") = s ++ String c "".
Proof.
  intros Hc. rewrite trimEnd_append_solid; cbn [Js.trimEnd]; rewrite Hc;
    [reflexivity | discriminate].
Qed.

Lemma trim_solid (a : ascii) (s : string) (c : ascii) :
  Js.isWhiteSpace a = false -> Js.isWhiteSpace c = false ->
  Js.trim (String a (s ++ String c "")) = String a (s ++ String c "").
Proof.
  intros Ha Hc. unfold Js.trim. cbn [Js.trimStart]. rewrite Ha.
  change (String a (s ++ String c "")) with (String a s ++ String c "").
  now apply trimEnd_solid.
Qed.

Lemma last_char (s : string) :
  s = "" \/ exists t c, s = t ++ String c "".
Proof.
  induction s as [|a s IH]; [now left | right].
  destruct IH as [->|(t & c & ->)].
  - now exists "", a.
  - now exists (String a t), c.
Qed.

Lemma trim_nonSpace (s : string) :
  allOf isNonSpace s = true -> Js.trim s = s.
Proof.
  intros Hs. destruct s as [|a s]; [reflexivity|].
  cbn [allOf] in Hs. apply andb_true_iff in Hs as [Ha Hs].
  unfold isNonSpace in Ha. apply negb_true_iff in Ha.
  destruct (last_char s) as [->|(t & c & ->)].
  - unfold Js.trim. cbn [Js.trimStart]. rewrite Ha.
    cbn [Js.trimEnd]. now rewrite Ha.
  - rewrite allOf_append in Hs. apply andb_true_iff in Hs as [_ Hc].
    cbn in Hc. rewrite andb_true_r in Hc. unfold isNonSpace in Hc.
    apply negb_true_iff in Hc. now apply trim_solid.
Qed.

Lemma isNonSpace_wordChar (c : ascii) :
  isNonSpace c = true -> Links.wordChar c = true.
Proof. destruct c as [[] [] [] [] [] [] [] []]; vm_compute; auto. Qed.

Lemma isUrl_not_link (label target : string) :
  CheckIf.isUrl (Links.link label target) = false.
Proof.
  apply not_true_iff_false. intros H.
  apply isUrl_iff_Accepted, Accepted_head in H.
  unfold Links.link in H.
  destruct label as [|a [|b [|c label]]]; cbn in H;
    destruct H as [H|H]; discriminate.
Qed.

Lemma enhance_line (line : string) :
  Forall (fun arg => exists u, arg = Some u /\ CheckIf.isUrl u = true)
         (if CheckIf.isUrl line then [Some line]
          else if CheckIf.isLinkedUrl line then [Main.getUrlFromLink line]
               else []).
Proof.
  destruct (CheckIf.isUrl line) eqn:Hurl.
  - constructor; [|constructor]. now exists line.
  - destruct (CheckIf.isLinkedUrl line) eqn:Hlink; [|constructor].
    apply isLinkedUrl_LinkedUrl in Hlink as (label & target & -> & Hl & Ht).
    constructor; [|constructor]. exists target.
    split; [now apply getUrlFromLink_link | now apply isUrl_iff_Accepted].
Qed.

(** X14. Whatever is selected, [enhanceSelectedURL] asks for the
    conversion of URLs only: every argument it passes on is a defined string
    that [isUrl] accepts. *)
Theorem enhanceSelectedURL_only_urls (selection : string) :
  Forall (fun arg => exists u, arg = Some u /\ CheckIf.isUrl u = true)
         (Main.enhanceSelectedURL selection).
Proof.
  unfold Main.enhanceSelectedURL. cbv zeta.
  induction (Main.splitWords (Js.trim selection)) as [|line lines IH].
  - constructor.
  - cbn [flat_map]. apply Forall_app. split; [apply enhance_line | exact IH].
Qed.

Lemma link_word (label target : string) :
  allOf Links.wordChar label = true ->
  allOf isNonSpace target = true ->
  allOf Links.wordChar (Links.link label target) = true.
Proof.
  intros Hl Ht. unfold Links.link.
  rewrite !allOf_append, Hl, (allOf_impl _ _ target isNonSpace_wordChar Ht).
  reflexivity.
Qed.

Lemma trim_link (label target : string) :
  Js.trim (Links.link label target) = Links.link label target.
Proof.
  unfold Links.link. change ("[" ++ label ++ "](" ++ target ++ ")")
    with (String "[" (label ++ "](" ++ target ++ ")")).
  rewrite <- !append_assoc. now apply trim_solid.
Qed.

(** X15. A selection that is one URL is converted as it stands, and a
    selection that is one link - its label without square brackets, spaces
    and line feeds - is converted to its target: in both cases one
    conversion is asked for, of that URL. *)
Theorem enhanceSelectedURL_selected (label target : string) :
  CheckIf.isUrl target = true ->
  Main.enhanceSelectedURL target = [Some target]
  /\ (allOf Links.noBracket label = true ->
      allOf Links.wordChar label = true ->
      Main.enhanceSelectedURL (Links.link label target) = [Some target]).
Proof.
  intros Ht. pose proof (isUrl_nonSpace target Ht) as Hns.
  unfold Main.enhanceSelectedURL. cbv zeta. split.
  - rewrite (trim_nonSpace target Hns).
    rewrite splitWords_word
      by (exact (allOf_impl _ _ target isNonSpace_wordChar Hns)).
    cbn [flat_map]. now rewrite Ht.
  - intros Hl Hw. rewrite trim_link.
    rewrite (splitWords_word _ (link_word label target Hw Hns)).
    cbn [flat_map]. rewrite isUrl_not_link.
    rewrite (proj2 (isLinkedUrl_LinkedUrl (Links.link label target))).
    + rewrite getUrlFromLink_link;
        [reflexivity | exact Hl | now apply isUrl_iff_Accepted].
    + exists label, target. split; [reflexivity|]. split; [exact Hl|].
      now apply isUrl_iff_Accepted.
Qed.

Lemma enhanceSelectedURL_selected_witness :
  CheckIf.isUrl "https://example.com" = true
  /\ Main.enhanceSelectedURL (Links.link "Example" "https://example.com")
     = [Some "https://example.com"].
Proof.
  split; [reflexivity|].
  exact (proj2 (enhanceSelectedURL_selected "Example" "https://example.com"
                                            eq_refl) eq_refl eq_refl).
Defined.

End Selection.

(** ** Image names *)

Section ImageNames.

Import UrlGrammar Language.

(** A pattern without [^] matches somewhere: at the start of some suffix
    of the input. *)
Lemma execFrom_iff (re : Regex.RegExp) (i : nat) (s : string) :
  Regex.execFrom re i s = true
  <-> exists pre suf,
        s = pre ++ suf
        /\ Regex.matcher (Regex.ignoreCase re) (Regex.pattern re)
                         ((i + String.length pre)%nat, suf) (fun _ => true)
           = true.
Proof.
  revert i; induction s as [|c s IH]; intros i; cbn [Regex.execFrom].
  - rewrite orb_false_r. split.
    + intros H. exists "", "". now rewrite Nat.add_0_r.
    + intros ([|d pre] & suf & Hs & H); [|discriminate].
      cbn in Hs. subst suf. now rewrite Nat.add_0_r in H.
  - rewrite orb_true_iff, IH. split.
    + intros [H|(pre & suf & -> & H)].
      * exists "", (String c s). now rewrite Nat.add_0_r.
      * exists (String c pre), suf. cbn [String.length String.append].
        now rewrite Nat.add_succ_r.
    + intros ([|d pre] & suf & Hs & H).
      * left. cbn in Hs. subst suf. now rewrite Nat.add_0_r in H.
      * right. injection Hs as -> ->. exists pre, suf.
        cbn [String.length] in H. now rewrite Nat.add_succ_r in H.
Qed.

Lemma jpeg_words :
  Recognizes
    (Regex.seqs [Regex.lit "jp"; Regex.Opt (Regex.Chr "e"); Regex.Chr "g"])
    (fun a => Spells "jpg" a \/ Spells "jpeg" a).
Proof.
  eapply Recognizes_ext;
    [|cbn [Regex.seqs];
      apply Recognizes_seq;
      [apply Recognizes_lit
      |apply Recognizes_seq;
       [apply Recognizes_opt, Recognizes_chr
       |apply Recognizes_seq;
        [apply Recognizes_chr | apply Recognizes_empty]]]].
  intros p. unfold Cat, Or, Eps. split.
  - intros (a1 & x & -> & H1 & a2 & y & -> & H2 & a3 & e & -> & H3 & ->).
    rewrite append_nil_r. destruct H2 as [H2| ->].
    + right. apply (Spells_append "jp" "eg"); [exact H1|].
      now apply (Spells_append "e" "g").
    + left. now apply (Spells_append "jp" "g").
  - intros [H|H].
    + apply (Spells_split "jp" "g") in H as (a1 & a3 & -> & H1 & H3).
      exists a1, a3. repeat split; auto.
      exists "", a3. repeat split; auto.
      exists a3, "". now rewrite append_nil_r.
    + apply (Spells_split "jp" "eg") in H as (a1 & x & -> & H1 & H).
      apply (Spells_split "e" "g") in H as (a2 & a3 & -> & H2 & H3).
      exists a1, (a2 ++ a3). repeat split; auto.
      exists a2, a3. repeat split; auto.
      exists a3, "". now rewrite append_nil_r.
Qed.

Lemma tiff_words :
  Recognizes (Regex.seqs [Regex.lit "tif"; Regex.Opt (Regex.Chr "f")])
             (fun a => Spells "tif" a \/ Spells "tiff" a).
Proof.
  eapply Recognizes_ext;
    [|cbn [Regex.seqs];
      apply Recognizes_seq;
      [apply Recognizes_lit
      |apply Recognizes_seq;
       [apply Recognizes_opt, Recognizes_chr | apply Recognizes_empty]]].
  intros p. unfold Cat, Or, Eps. split.
  - intros (a1 & x & -> & H1 & a2 & e & -> & H2 & ->).
    rewrite append_nil_r. destruct H2 as [H2| ->].
    + right. now apply (Spells_append "tif" "f").
    + left. now rewrite append_nil_r.
  - intros [H|H].
    + exists p, "". rewrite append_nil_r. repeat split; auto.
      exists "", "". auto.
    + apply (Spells_split "tif" "f") in H as (a1 & a2 & -> & H1 & H2).
      exists a1, a2. repeat split; auto.
      exists a2, "". rewrite append_nil_r. auto.
Qed.

Lemma imageExtensions_words :
  Recognizes Regex.imageExtensions Links.Extension.
Proof.
  eapply Recognizes_ext;
    [|unfold Regex.imageExtensions; cbn [Regex.alts];
      apply Recognizes_alt; [apply Recognizes_lit|];
      apply Recognizes_alt; [apply jpeg_words|];
      apply Recognizes_alt; [apply tiff_words|];
      apply Recognizes_alt; [apply Recognizes_lit|];
      apply Recognizes_alt; [apply Recognizes_lit|];
      apply Recognizes_alt; [apply Recognizes_lit|];
      apply Recognizes_alt; [apply Recognizes_lit|];
      apply Recognizes_alt; [apply Recognizes_lit|];
      apply Recognizes_lit].
  intros e. unfold Or, Links.Extension, Links.extensions. split.
  - intros [H|[[H|H]|[[H|H]|[H|[H|[H|[H|[H|H]]]]]]]];
      eexists; (split; [|exact H]); cbn [In]; tauto.
  - intros (ext & Hin & H). cbn [In] in Hin.
    repeat (destruct Hin as [<-|Hin]; [tauto|]). contradiction.
Qed.

(** The pattern of an image name at the start of a suffix. *)
Lemma imageRegex_suffix (j : nat) (suf : string) :
  Regex.matcher true (Regex.pattern Regex.imageRegex) (j, suf)
                (fun _ => true) = true
  <-> exists e, suf = "." ++ e /\ Links.Extension e.
Proof.
  change (Regex.matcher true (Regex.pattern Regex.imageRegex) (j, suf)
                        (fun _ => true))
    with (Regex.matcher true (Regex.Seq (Regex.Chr ".")
                                        Regex.imageExtensions)
                        (j, suf) atEnd).
  rewrite (whole_input _ _ j suf
             (Recognizes_seq _ _ _ _ (Recognizes_chr ".")
                             imageExtensions_words)).
  unfold Cat. split.
  - intros (d & e & -> & Hd & He).
    apply (proj1 (Spells_dot d)) in Hd. subst d. now exists e.
  - intros (e & -> & He). exists ".", e.
    split; [reflexivity|]. split; [now apply Spells_dot | exact He].
Qed.

Lemma isImage_ImageName (s : string) :
  CheckIf.isImage s = true <-> Links.ImageName s.
Proof.
  unfold CheckIf.isImage, Regex.test. cbv zeta. rewrite execFrom_iff.
  unfold Links.ImageName. split.
  - intros (pre & suf & -> & H).
    apply imageRegex_suffix in H as (e & -> & He). now exists pre, e.
  - intros (stem & e & -> & He). exists stem, ("." ++ e).
    split; [reflexivity|]. apply imageRegex_suffix. now exists e.
Qed.

(** X16. [isImage] accepts exactly the texts that end with a dot and one
    of the eleven extensions gif, jpg, jpeg, tif, tiff, png, webp, bmp, tga,
    psd and ai, in any mix of upper and lower case; so only the ending
    counts: what [isImage] accepts it accepts after any prefix. *)
Theorem isImage_iff (s : string) :
  (CheckIf.isImage s = true <-> Links.ImageName s)
  /\ (forall pre, CheckIf.isImage s = true ->
                  CheckIf.isImage (pre ++ s) = true).
Proof.
  split; [apply isImage_ImageName|].
  intros pre H. apply isImage_ImageName in H as (stem & e & -> & He).
  apply isImage_ImageName. exists (pre ++ stem), e.
  now rewrite append_assoc.
Qed.

End ImageNames.

(** ** Pasting *)

Section Pasting.

Import UrlGrammar.

Lemma convertible_iff (text : string) :
  negb (CheckIf.isUrl text) || CheckIf.isImage text = false
  <-> Accepted text /\ ~ Links.ImageName text.
Proof.
  rewrite orb_false_iff, negb_false_iff, isUrl_iff_Accepted.
  rewrite <- isImage_ImageName, not_true_iff_false. reflexivity.
Qed.

Lemma onPaste_convert (enhanceDefaultPaste : option bool) (onLine : bool)
      (clipboardData : option Main.ClipboardData) (url : string) :
  Main.onPaste enhanceDefaultPaste onLine clipboardData = Main.Convert url
  <-> enhanceDefaultPaste = Some true /\ onLine = true
      /\ (exists data,
            clipboardData = Some data /\ Main.files data = O
            /\ Main.plainText data = Some url)
      /\ negb (CheckIf.isUrl url) || CheckIf.isImage url = false.
Proof.
  unfold Main.onPaste.
  destruct enhanceDefaultPaste as [[|]|];
    [|split; [discriminate | intros (H & _); discriminate]..].
  destruct onLine; cbn [negb];
    [|split; [discriminate | intros (_ & H & _); discriminate]].
  destruct clipboardData as [data|];
    [|split; [discriminate | intros (_ & _ & (d & H & _) & _); discriminate]].
  destruct (0 <? Main.files data)%nat eqn:Hfiles.
  { split; [discriminate|]. intros (_ & _ & (d & [= <-] & Hn & _) & _).
    rewrite Hn in Hfiles. discriminate. }
  apply Nat.ltb_ge in Hfiles.
  destruct (Main.plainText data) as [[|c text]|] eqn:Htext.
  - split; [discriminate|].
    intros (_ & _ & (d & [= <-] & _ & Ht) & Hconv).
    rewrite Htext in Ht. injection Ht as <-. discriminate.
  - destruct (negb (CheckIf.isUrl (String c text))
              || CheckIf.isImage (String c text)) eqn:Hconv.
    + split; [discriminate|].
      intros (_ & _ & (d & [= <-] & _ & Ht) & Hc).
      rewrite Htext in Ht. injection Ht as <-. congruence.
    + split.
      * intros [= <-]. repeat split; try assumption.
        exists data. repeat split; [lia | assumption].
      * intros (_ & _ & (d & [= <-] & _ & Ht) & _).
        rewrite Htext in Ht. now injection Ht as <-.
  - split; [discriminate|].
    intros (_ & _ & (d & [= <-] & _ & Ht) & _).
    rewrite Htext in Ht. discriminate.
Qed.

Lemma manualPaste_convert (clipboardText : option string) (onLine : bool)
      (url : string) :
  Main.manualPasteAndEnhanceURL clipboardText onLine = Main.Convert url
  <-> clipboardText = Some url /\ onLine = true
      /\ negb (CheckIf.isUrl url) || CheckIf.isImage url = false.
Proof.
  unfold Main.manualPasteAndEnhanceURL.
  destruct clipboardText as [[|c text]|].
  - split; [discriminate|]. intros ([= <-] & _ & H). discriminate.
  - destruct onLine; cbn [negb];
      [|split; [discriminate | intros (_ & H & _); discriminate]].
    destruct (negb (CheckIf.isUrl (String c text))
              || CheckIf.isImage (String c text)) eqn:Hconv.
    + split; [discriminate|]. intros ([= <-] & _ & H). congruence.
    + split; [intros [= <-]; auto | now intros ([= <-] & _)].
  - split; [discriminate | intros (H & _); discriminate].
Qed.

(** X17. Both paste handlers convert exactly the URLs of the grammar that
    do not end with an image extension: the paste event only with the
    setting on, online and no files in the clipboard, the command only
    online.  The event handler never replaces the selection itself, and
    the command pastes every non-empty text that it does not convert. *)
Theorem paste_converts_urls
        (enhanceDefaultPaste : option bool) (onLine : bool)
        (clipboardData : option Main.ClipboardData)
        (clipboardText : option string) (url : string) :
  (Main.onPaste enhanceDefaultPaste onLine clipboardData = Main.Convert url
   <-> enhanceDefaultPaste = Some true /\ onLine = true
       /\ (exists data,
             clipboardData = Some data /\ Main.files data = O
             /\ Main.plainText data = Some url)
       /\ Accepted url /\ ~ Links.ImageName url)
  /\ (Main.manualPasteAndEnhanceURL clipboardText onLine = Main.Convert url
      <-> clipboardText = Some url /\ onLine = true
          /\ Accepted url /\ ~ Links.ImageName url)
  /\ (forall text,
        Main.onPaste enhanceDefaultPaste onLine clipboardData
        <> Main.ReplaceSelection text)
  /\ (forall c text,
        clipboardText = Some (String c text) ->
        Main.manualPasteAndEnhanceURL clipboardText onLine
        = Main.ReplaceSelection (String c text)
        \/ Main.manualPasteAndEnhanceURL clipboardText onLine
           = Main.Convert (String c text)).
Proof.
  split; [|split; [|split]].
  - rewrite onPaste_convert, convertible_iff. reflexivity.
  - rewrite manualPaste_convert, convertible_iff. reflexivity.
  - intros text. unfold Main.onPaste.
    destruct enhanceDefaultPaste as [[|]|]; try discriminate.
    destruct onLine; try discriminate. cbn [negb].
    destruct clipboardData as [data|]; try discriminate.
    destruct (0 <? Main.files data)%nat; try discriminate.
    destruct (Main.plainText data) as [[|c t]|]; try discriminate.
    destruct (negb _ || _); discriminate.
  - intros c text ->. unfold Main.manualPasteAndEnhanceURL.
    destruct onLine; cbn [negb]; [|now left].
    destruct (negb _ || _); [now left | now right].
Qed.

End Pasting.

(** ** The word at the cursor *)

Section WordAtCursor.

Import UrlGrammar.

Lemma setCapture_first (v : string) (c : option string)
      (caps : RegexExec.Captures) :
  RegexExec.setCapture 1 v (c :: caps) = Some v :: caps.
Proof. reflexivity. Qed.

(** A match that [lineRegex] finds at the start of a suffix is a URL of
    the grammar. *)
Lemma lineRegex_at (j : nat) (suf : string) (m : RegexExec.MatchArray) :
  RegexExec.runG
    true (RegexExec.pattern RegexExec.lineRegex) (j, suf)
    (List.repeat None (RegexExec.groups RegexExec.lineRegex))
    (fun y caps =>
       Some {| RegexExec.index := j;
               RegexExec.items :=
                 Some (String.substring 0 (fst y - j) suf) :: caps |})
  = Some m ->
  exists w post,
    suf = w ++ post /\ RegexExec.index m = j
    /\ RegexExec.item m 0 = Some w /\ Accepted w.
Proof.
  cbn [RegexExec.pattern RegexExec.lineRegex RegexExec.urlGroup
       RegexExec.runG RegexExec.groups List.repeat].
  intros H.
  apply (run_words _ _ _ _ _ _ _ urlAlternatives_words) in H
    as (w & post & -> & Hw & H).
  cbn [fst snd] in H. rewrite !capture_exact in H.
  injection H as <-. exists w, post. repeat split. exact Hw.
Qed.

(** A match that [linkLineRegex] finds at the start of a suffix is a link
    to a URL of the grammar. *)
Lemma linkLineRegex_at (j : nat) (suf : string) (m : RegexExec.MatchArray) :
  RegexExec.runG
    true (RegexExec.pattern RegexExec.linkLineRegex) (j, suf)
    (List.repeat None (RegexExec.groups RegexExec.linkLineRegex))
    (fun y caps =>
       Some {| RegexExec.index := j;
               RegexExec.items :=
                 Some (String.substring 0 (fst y - j) suf) :: caps |})
  = Some m ->
  exists w post,
    suf = w ++ post /\ RegexExec.index m = j
    /\ RegexExec.item m 0 = Some w /\ Links.LinkedUrl w.
Proof.
  cbn [RegexExec.pattern RegexExec.linkLineRegex RegexExec.groups
       List.repeat].
  intros H.
  apply linkBody_run in H as (label & target & post & -> & Hl & Ht & H).
  cbn [fst snd] in H. rewrite !capture_exact in H.
  injection H as <-. exists (Links.link label target), post.
  repeat split. now exists label, target.
Qed.

Section Searching.

Variable re : RegexExec.RegExp.
Variable W : string -> Prop.

Hypothesis ignoresCase : RegexExec.ignoreCase re = true.

Hypothesis found_at :
  forall j suf m,
    RegexExec.runG
      true (RegexExec.pattern re) (j, suf)
      (List.repeat None (RegexExec.groups re))
      (fun y caps =>
         Some {| RegexExec.index := j;
                 RegexExec.items :=
                   Some (String.substring 0 (fst y - j) suf) :: caps |})
    = Some m ->
    exists w post,
      suf = w ++ post /\ RegexExec.index m = j
      /\ RegexExec.item m 0 = Some w /\ W w.

Lemma execFrom_found (i : nat) (s : string) (m : RegexExec.MatchArray) :
  RegexExec.execFrom re i s = Some m -> Links.Found W i s m.
Proof.
  unfold Links.Found.
  revert i; induction s as [|c s IH]; intros i; cbn [RegexExec.execFrom];
    rewrite ignoresCase.
  - destruct (RegexExec.runG _ _ _ _ _) as [m'|] eqn:Hrun; [|discriminate].
    intros [= ->]. apply found_at in Hrun as (w & post & Hs & Hi & Hw).
    exists "", w, post. rewrite Nat.add_0_r. auto.
  - destruct (RegexExec.runG _ _ _ _ _) as [m'|] eqn:Hrun.
    + intros [= ->]. apply found_at in Hrun as (w & post & Hs & Hi & Hw).
      exists "", w, post. rewrite Nat.add_0_r. auto.
    + intros H. apply IH in H as (pre & w & post & -> & Hi & Hw).
      exists (String c pre), w, post. cbn [String.length String.append].
      rewrite Nat.add_succ_r. auto.
Qed.

Lemma drop_append_exact (a b : string) :
  Js.drop (String.length a) (a ++ b) = b.
Proof. induction a as [|c a IH]; [reflexivity | exact IH]. Qed.

(** Every match of [matchAll] is a word of the pattern, standing in the
    text at the index of the match. *)
Lemma matchAllFrom_found (fuel i : nat) (s skipped : string) :
  String.length skipped = i ->
  Forall (Links.Found W O (skipped ++ s))
         (RegexExec.matchAllFrom fuel re i s).
Proof.
  revert i s skipped; induction fuel as [|fuel IH]; intros i s skipped Hi;
    cbn [RegexExec.matchAllFrom]; [constructor|].
  destruct (RegexExec.execFrom re i s) as [m|] eqn:Hm; [|constructor].
  apply execFrom_found in Hm as (pre & w & post & -> & Hidx & Hw0 & Hw).
  cbv zeta. rewrite Hw0. cbn [Js.narrowed]. constructor.
  - exists (skipped ++ pre), w, post. rewrite append_assoc, length_append.
    cbn [Nat.add]. rewrite Hi. auto.
  - set (lastIndex := if (String.length w =? 0)%nat
                      then S (RegexExec.index m + String.length w)
                      else (RegexExec.index m + String.length w)%nat).
    destruct (_ <? _)%nat eqn:Hlt; [constructor|].
    apply Nat.ltb_ge in Hlt.
    assert (Hge : (i <= lastIndex)%nat)
      by (unfold lastIndex; destruct (_ =? _)%nat; lia).
    rewrite <- (take_drop (lastIndex - i) (pre ++ w ++ post)) at 1.
    rewrite <- append_assoc. apply IH.
    rewrite length_append, length_take by exact Hlt. lia.
Qed.

(** The fuel of [matchAll] never runs out: any amount above the length of
    the rest of the input gives the same matches. *)
Lemma matchAllFrom_fuel (fuel fuel' i : nat) (s : string) :
  (String.length s < fuel)%nat -> (String.length s < fuel')%nat ->
  RegexExec.matchAllFrom fuel re i s = RegexExec.matchAllFrom fuel' re i s.
Proof.
  revert fuel' i s; induction fuel as [|fuel IH]; intros [|fuel'] i s H H';
    try lia.
  cbn [RegexExec.matchAllFrom].
  destruct (RegexExec.execFrom re i s) as [m|] eqn:Hm; [|reflexivity].
  apply execFrom_found in Hm as (pre & w & post & -> & Hidx & Hw0 & Hw).
  cbv zeta. rewrite Hw0. cbn [Js.narrowed]. f_equal.
  set (lastIndex := if (String.length w =? 0)%nat
                    then S (RegexExec.index m + String.length w)
                    else (RegexExec.index m + String.length w)%nat).
  destruct (_ <? _)%nat eqn:Hlt; [reflexivity|].
  apply Nat.ltb_ge in Hlt.
  assert (Hgt : (i < lastIndex)%nat).
  { unfold lastIndex. destruct (String.length w =? 0)%nat eqn:Hz; [lia|].
    apply Nat.eqb_neq in Hz. lia. }
  apply IH; rewrite length_drop; lia.
Qed.

Lemma firstAround_found (cursor : EditorPosition) (text : string)
      (matches : list RegexExec.MatchArray)
      (b : EditorSelection.WordBoundaries) :
  Forall (Links.Found W O text) matches ->
  EditorSelection.firstAround cursor matches = Some b ->
  line (EditorSelection.start b) = line cursor
  /\ line (EditorSelection.end_ b) = line cursor
  /\ ch (EditorSelection.start b) <= ch cursor <= ch (EditorSelection.end_ b)
  /\ exists pre w post,
       text = pre ++ w ++ post
       /\ ch (EditorSelection.start b) = Js.len pre
       /\ ch (EditorSelection.end_ b) = Js.len pre + Js.len w
       /\ W w.
Proof.
  induction 1 as [|m ms Hm Hms IH]; cbn [EditorSelection.firstAround];
    [discriminate|].
  destruct (EditorSelection.isCursorWithinBoundaries cursor m) eqn:Hin;
    [|exact IH].
  intros [= <-]. cbn [EditorSelection.start EditorSelection.end_ line ch].
  unfold EditorSelection.isCursorWithinBoundaries in Hin.
  apply andb_true_iff in Hin as [H1 H2].
  apply Z.leb_le in H1, H2.
  destruct Hm as (pre & w & post & -> & Hidx & Hw0 & Hw).
  rewrite Hw0 in *. cbn [Js.narrowed] in *. rewrite Hidx in *.
  cbn [Nat.add] in *.
  repeat split; try assumption.
  exists pre, w, post. repeat split. exact Hw.
Qed.

End Searching.

Lemma isUrl_or_link (w : string) :
  Links.LinkedUrl w \/ Accepted w ->
  CheckIf.isLinkedUrl w = true \/ CheckIf.isUrl w = true.
Proof.
  intros [H|H]; [left; now apply isLinkedUrl_LinkedUrl
                |right; now apply isUrl_iff_Accepted].
Qed.

(** X18. The boundaries that [getWordBoundaries] returns lie on the line of
    the cursor and enclose the cursor; and unless they are the cursor
    itself, the text of the line between them is a link that [isLinkedUrl]
    accepts or a URL that [isUrl] accepts. *)
Theorem getWordBoundaries_encloses (cursor : EditorPosition)
        (lineText : string) :
  let b := EditorSelection.getWordBoundaries cursor lineText in
  line (EditorSelection.start b) = line cursor
  /\ line (EditorSelection.end_ b) = line cursor
  /\ ch (EditorSelection.start b) <= ch cursor <= ch (EditorSelection.end_ b)
  /\ (b = {| EditorSelection.start := cursor;
             EditorSelection.end_ := cursor |}
      \/ exists pre w post,
           lineText = pre ++ w ++ post
           /\ ch (EditorSelection.start b) = Js.len pre
           /\ ch (EditorSelection.end_ b) = Js.len pre + Js.len w
           /\ (CheckIf.isLinkedUrl w = true \/ CheckIf.isUrl w = true)).
Proof.
  cbv zeta. unfold EditorSelection.getWordBoundaries. cbv zeta.
  unfold RegexExec.matchAll.
  destruct (EditorSelection.firstAround
              cursor (RegexExec.matchAllFrom _ RegexExec.linkLineRegex _ _))
    as [b|] eqn:Hlinks.
  - apply (firstAround_found Links.LinkedUrl cursor lineText) in Hlinks
      as (H1 & H2 & H3 & pre & w & post & Hs & Hb & He & Hw).
    + repeat split; try assumption; try apply H3.
      right. exists pre, w, post. repeat split; try assumption.
      apply isUrl_or_link. now left.
    + apply (matchAllFrom_found RegexExec.linkLineRegex Links.LinkedUrl
               eq_refl linkLineRegex_at _ O lineText "" eq_refl).
  - destruct (EditorSelection.firstAround
                cursor (RegexExec.matchAllFrom _ RegexExec.lineRegex _ _))
      as [b|] eqn:Hurls.
    + apply (firstAround_found Accepted cursor lineText) in Hurls
        as (H1 & H2 & H3 & pre & w & post & Hs & Hb & He & Hw).
      * repeat split; try assumption; try apply H3.
        right. exists pre, w, post. repeat split; try assumption.
        apply isUrl_or_link. now right.
      * apply (matchAllFrom_found RegexExec.lineRegex Accepted
                 eq_refl lineRegex_at _ O lineText "" eq_refl).
    + cbn [EditorSelection.start EditorSelection.end_].
      repeat split; try lia. now left.
Qed.

End WordAtCursor.

(** ** The sources of the images of a card *)

Lemma slice_middle (s : string) : Js.slice s 2 (-2) = WikiLinks.middle s.
Proof.
  unfold Js.slice, WikiLinks.middle. cbv zeta.
  change (2 <? 0) with false. change (-2 <? 0) with true. cbv iota.
  rewrite substring_drop_take. unfold Js.len.
  destruct (Nat.le_gt_cases 4 (String.length s)) as [Hlen|Hlen].
  - replace (Z.to_nat (Z.min 2 (Z.of_nat (String.length s)))) with 2%nat
      by lia.
    f_equal. lia.
  - replace (Z.to_nat _) with O at 1 by lia.
    replace (String.length s - 4)%nat with O by lia.
    reflexivity.
Qed.

Lemma middle_wikiLink (name : string) :
  WikiLinks.middle (WikiLinks.wikiLink name) = name.
Proof.
  unfold WikiLinks.middle, WikiLinks.wikiLink.
  rewrite !length_append. cbn [String.length String.append Js.drop].
  replace (2 + (String.length name + 2) - 4)%nat
    with (String.length name) by lia.
  apply take_append_exact.
Qed.

Lemma isUrl_wikiLink (name : string) :
  CheckIf.isUrl (WikiLinks.wikiLink name) = false.
Proof.
  apply not_true_iff_false. intros H.
  apply isUrl_iff_Accepted, Accepted_head in H.
  unfold WikiLinks.wikiLink in H.
  destruct name as [|a [|b name]]; cbn in H;
    destruct H as [H|H]; discriminate.
Qed.

Section ImageSources.

Variable linkpathDest : string -> option string.
Variable getResourcePath : string -> string.

Local Abbreviation imageSource :=
  (CardRendering.imageSource linkpathDest getResourcePath).


End ImageSources.

(** ** From the request to the card *)

(** The call made once the metadata has arrived: none when the placeholder
    is gone, else the replacement of a range. *)
Lemma convertUrlToCodeBlock_call
      (selectedText pasteId url : string)
      (linkMetadata : option LinkMetadata) (text : string) :
  (UrlConversion.convertUrlToCodeBlock
     selectedText pasteId url linkMetadata text = Some None
   /\ forall k,
        ~ Offsets.OccursAt (UrlConversion.fetchingText pasteId url) text k)
  \/ (exists k from to,
        Offsets.OccursAt (UrlConversion.fetchingText pasteId url) text k
        /\ UrlConversion.convertUrlToCodeBlock
             selectedText pasteId url linkMetadata text
           = Some (Some (UrlConversion.ReplaceRange
                           match linkMetadata, selectedText with
                           | Some m, _ => CodeBlockGenerator.genCodeBlock m
                           | None, EmptyString => url
                           | None, String _ _ => selectedText
                           end from to))).
Proof.
  unfold UrlConversion.convertUrlToCodeBlock. cbv zeta.
  set (ft := UrlConversion.fetchingText pasteId url).
  destruct (indexOf_first text ft) as [(Hidx & Hno)|(k & Hidx & Hk & _)];
    rewrite Hidx.
  - left. split; [reflexivity | exact Hno].
  - right. destruct (Z.ltb_spec (Z.of_nat k) 0); [lia|].
    pose proof (OccursAt_end _ _ _ Hk) as Hend.
    destruct (position_in_content text (Z.of_nat k)) as (p1 & Hp1 & _);
      [unfold Js.len; lia|].
    destruct (position_in_content text (Z.of_nat k + Js.len ft))
      as (p2 & Hp2 & _); [unfold Js.len; lia|].
    rewrite Hp1, Hp2. exists k, p1, p2. split; [exact Hk|].
    now destruct linkMetadata, selectedText.
Qed.

Section InsertionFate.

Variables Document Element : Type.
Variable querySelector : Document -> string -> option Element.
Variable getAttr : Element -> string -> option string.
Variable textContent : Element -> option string.
Variable hostnameOf : string -> option string.
Variable checkUrlAccessibility : string -> bool.
Variable parseFromString : string -> Document.
Variable requestUrl : string -> CardInsertion.Request.

Local Abbreviation convert :=
  (CardInsertion.convertUrlToCodeBlock
     querySelector getAttr textContent hostnameOf checkUrlAccessibility
     parseFromString requestUrl).
Local Abbreviation parse :=
  (LinkMetadataParser.parse querySelector getAttr textContent
                            hostnameOf checkUrlAccessibility).
Local Abbreviation page :=
  (CardInsertion.newLinkMetadataParser parseFromString).
Local Abbreviation titleOf :=
  (fun this =>
     LinkMetadataParser.normalize
       (LinkMetadataParser.getTitle Document Element querySelector getAttr
                                    textContent this)).

(** X20. The fate of the placeholder.  [convertUrlToCodeBlock] is rejected,
    leaving the placeholder in the text, exactly when the promise of the
    request is rejected or when the response has status 200 and a title
    that is not blank but the URL has no host name.  In every other case
    it is fulfilled: it leaves the editor alone if the placeholder is gone,
    and otherwise replaces it - by the block of the metadata parsed from a
    response of status 200, or by the selection it began with (the URL
    when nothing was selected) when the request threw, the status was not
    200 or the page had no title. *)
Theorem placeholder_fate (selectedText pasteId url text : string) :
  (convert selectedText pasteId url text = CardInsertion.Rejected
   <-> requestUrl url = CardInsertion.RequestRejected
       \/ exists body,
            requestUrl url = CardInsertion.RequestFulfilled 200 body
            /\ hostnameOf url = None
            /\ Js.truthy (titleOf (page url body)) = true)
  /\ forall outcome,
       convert selectedText pasteId url text
       = CardInsertion.Fulfilled outcome ->
       exists call,
         outcome = Some call
         /\ (call = None
             <-> forall k,
                   ~ Offsets.OccursAt
                       (UrlConversion.fetchingText pasteId url) text k)
         /\ forall replacement from to,
              call = Some (UrlConversion.ReplaceRange replacement from to) ->
              (exists body m,
                 requestUrl url = CardInsertion.RequestFulfilled 200 body
                 /\ parse (page url body) = Return (Some m)
                 /\ replacement = CodeBlockGenerator.genCodeBlock m)
              \/ (replacement = match selectedText with
                                | EmptyString => url
                                | String _ _ => selectedText
                                end
                  /\ (requestUrl url = CardInsertion.RequestThrows
                      \/ exists status body,
                           requestUrl url
                           = CardInsertion.RequestFulfilled status body
                           /\ (status <> 200
                               \/ Js.truthy (titleOf (page url body))
                                  = false))).
Proof.
  assert (Hcall : forall linkMetadata,
             exists call,
               UrlConversion.convertUrlToCodeBlock
                 selectedText pasteId url linkMetadata text = Some call
               /\ (call = None
                   <-> forall k,
                         ~ Offsets.OccursAt
                             (UrlConversion.fetchingText pasteId url) text k)
               /\ forall replacement from to,
                    call = Some (UrlConversion.ReplaceRange
                                   replacement from to) ->
                    replacement
                    = match linkMetadata, selectedText with
                      | Some m, _ => CodeBlockGenerator.genCodeBlock m
                      | None, EmptyString => url
                      | None, String _ _ => selectedText
                      end).
  { intros md.
    destruct (convertUrlToCodeBlock_call selectedText pasteId url md text)
      as [(Hc & Hno)|(k & from & to & Hk & Hc)]; rewrite Hc; eexists;
      (split; [reflexivity|]).
    - split; [tauto | discriminate].
    - split; [split; [discriminate | intros Hno; now apply Hno in Hk]|].
      now intros r f t [= <- _ _]. }
  unfold CardInsertion.convertUrlToCodeBlock, CardInsertion.fetchLinkMetadata.
  destruct (requestUrl url) as [| |status body] eqn:Hreq.
  - split; [split; [discriminate | intros [H|(b & H & _)]; discriminate]|].
    intros outcome [= <-]. destruct (Hcall None) as (call & Hc & Hnone & Hr).
    exists call. repeat split; try apply Hnone; try assumption.
    intros r from to Hrange. right. split; [now apply (Hr r from to) | now left].
  - split; [split; [now left | reflexivity] | discriminate].
  - destruct (Z.eqb_spec status 200) as [->|Hstatus]; cbn [negb].
    + cbv zeta.
      destruct (parse_cases Document Element querySelector getAttr
                            textContent hostnameOf checkUrlAccessibility
                            (page url body))
        as [(Ht & Hp)|[(Ht & Hh & Hp)|(Ht & h & f & i & Hh & _ & _ & Hp)]];
        rewrite Hp.
      * split.
        -- split; [discriminate|].
           intros [H|(b & [= <-] & _ & Ht')]; [discriminate|]. congruence.
        -- intros outcome [= <-].
           destruct (Hcall None) as (call & Hc & Hnone & Hr).
           exists call. repeat split; try apply Hnone; try assumption.
           intros r from to Hrange. right.
           split; [now apply (Hr r from to)|].
           right. exists 200, body. auto.
      * split; [|discriminate].
        split; [|reflexivity]. intros _. right. exists body. auto.
      * split.
        -- split; [discriminate|].
           intros [H|(b & [= <-] & Hh' & _)]; [discriminate|].
           cbn in Hh, Hh'. congruence.
        -- intros outcome [= <-].
           match goal with
           | |- context [UrlConversion.convertUrlToCodeBlock _ _ _ (Some ?m)] =>
               destruct (Hcall (Some m)) as (call & Hc & Hnone & Hr)
           end.
           exists call. repeat split; try apply Hnone; try assumption.
           intros r from to Hrange. left. eexists body, _.
           split; [reflexivity|]. split; [exact Hp|].
           now apply (Hr r from to).
    + split.
      * split; [discriminate|].
        intros [H|(b & [= -> _] & _)]; [discriminate | contradiction].
      * intros outcome [= <-].
        destruct (Hcall None) as (call & Hc & Hnone & Hr).
        exists call. repeat split; try apply Hnone; try assumption.
        intros r from to Hrange. right.
        split; [now apply (Hr r from to)|].
        right. exists status, body. auto.
Qed.

End InsertionFate.
